(** * Odoo partner scraper: a shallow embedding of [odoo_partner_scraper.py]

    The development follows the layout of the Python module:
    - [PyStr]: the [str] methods the module calls ([strip], [split],
      [join], [lower], [int], [str]);
    - [Re]: the fragment of Python's [re] the module's patterns use, as a
      backtracking matcher with Python's priorities (leftmost start, first
      alternative first, greedy or lazy repetition);
    - the industry catalog and [make_safe_ri_column];
    - [parse_partner_text], [fetch_profile_extras], [clean_and_export].

    Text is modelled as ASCII: a [string] is a sequence of code points below
    128, on which [\s], [\d], [\w] and [str.lower] are the ASCII classes. *)

From Stdlib Require Import ZArith Ascii String List Bool Lia.
From stdpp Require Import base option list strings gmap pretty sorting.

Local Open Scope Z_scope.
Local Open Scope string_scope.

(* ===================================================================== *)
(** ** Python [str] operations                                            *)
(* ===================================================================== *)
Module PyStr.

Definition code (c : ascii) : nat := nat_of_ascii c.

(** [str.isspace] on ASCII: TAB..CR, FS..US and the blank. The same set
    is what [\s] matches in a [str] pattern. *)
Definition is_space (c : ascii) : bool :=
  let n := code c in
  ((9 <=? n) && (n <=? 13) || (28 <=? n) && (n <=? 32))%nat.

Definition is_digit (c : ascii) : bool :=
  let n := code c in ((48 <=? n) && (n <=? 57))%nat.

Definition is_upper (c : ascii) : bool :=
  let n := code c in ((65 <=? n) && (n <=? 90))%nat.

Definition is_lower (c : ascii) : bool :=
  let n := code c in ((97 <=? n) && (n <=? 122))%nat.

Definition is_alnum (c : ascii) : bool :=
  is_digit c || is_upper c || is_lower c.

(** [\w]: alphanumerics and the underscore. *)
Definition is_word (c : ascii) : bool :=
  is_alnum c || Ascii.eqb c "_"%char.

Definition lower_char (c : ascii) : ascii :=
  if is_upper c then ascii_of_nat (code c + 32) else c.

Definition chars (s : string) : list ascii := list_ascii_of_string s.
Definition str (l : list ascii) : string := string_of_list_ascii l.

(** [s.lower()] *)
Definition lower (s : string) : string := str (map lower_char (chars s)).

Fixpoint lstrip_by (p : ascii -> bool) (l : list ascii) : list ascii :=
  match l with
  | c :: l' => if p c then lstrip_by p l' else l
  | [] => []
  end.

Definition rstrip_by (p : ascii -> bool) (l : list ascii) : list ascii :=
  rev (lstrip_by p (rev l)).

Definition strip_by (p : ascii -> bool) (l : list ascii) : list ascii :=
  rstrip_by p (lstrip_by p l).

(** [s.strip()] *)
Definition strip (s : string) : string := str (strip_by is_space (chars s)).

Definition in_chars (set : string) (c : ascii) : bool :=
  existsb (Ascii.eqb c) (chars set).

(** [s.strip(set)] *)
Definition strip_chars (set s : string) : string :=
  str (strip_by (in_chars set) (chars s)).

(** [s.split()]: the maximal runs of non-space characters. [cur] is the
    run being read, in reverse. *)
Fixpoint split_go (cur : list ascii) (l : list ascii) : list (list ascii) :=
  match l with
  | [] => match cur with [] => [] | _ => [rev cur] end
  | c :: l' =>
      if is_space c
      then match cur with
           | [] => split_go [] l'
           | _ => rev cur :: split_go [] l'
           end
      else split_go (c :: cur) l'
  end.

Definition split (s : string) : list string := map str (split_go [] (chars s)).

(** [sep.join(parts)] *)
Fixpoint join (sep : string) (parts : list string) : string :=
  match parts with
  | [] => ""
  | [p] => p
  | p :: ps => p ++ sep ++ join sep ps
  end.

(** [s[i:j]] for [0 <= i <= j]. *)
Definition slice (i j : nat) (s : string) : string :=
  str (take (j - i) (drop i (chars s))).

(** [int(s)] on a string of decimal digits. Every call of [int] in the
    module has a capture of [\d+], [\d{1,3}] or [\d{1,6}] as argument, so
    [int] never sees a sign, a blank or an underscore there. *)
Definition digit_val (c : ascii) : Z := Z.of_nat (code c) - 48.

Definition int (s : string) : Z :=
  fold_left (fun acc c => 10 * acc + digit_val c) (chars s) 0.

(** [str(n)] for an integer. *)
Definition of_int (n : Z) : string := pretty n.

End PyStr.

(* ===================================================================== *)
(** ** The fragment of [re] used by the module                            *)
(* ===================================================================== *)
Module Re.
Import PyStr.

Inductive regex : Type :=
| Eps                                   (* the empty pattern *)
| Cls (p : ascii -> bool)               (* one character of a class *)
| Cat (r1 r2 : regex)                   (* r1 r2 *)
| Alt (r1 r2 : regex)                   (* r1|r2 *)
| Rep (greedy : bool) (lo : nat) (hi : option nat) (r : regex)
                                        (* r{lo,hi}, r{lo,}; lazy with ? *)
| WordB                                 (* \b *)
| Grp (i : nat) (r : regex).            (* capture group number i *)

(** A position in the subject: index, the character before it, the rest
    of the subject, and the spans of the groups closed so far. *)
Record mstate : Type := MState {
  m_pos : nat;
  m_prev : option ascii;
  m_rest : list ascii;
  m_caps : list (nat * (nat * nat));
}.

Definition word_opt (c : option ascii) : bool :=
  match c with Some c => is_word c | None => false end.

Definition at_boundary (st : mstate) : bool :=
  xorb (word_opt (m_prev st)) (word_opt (head (m_rest st))).

Definition set_cap (i s e : nat) (st : mstate) : mstate :=
  MState (m_pos st) (m_prev st) (m_rest st) ((i, (s, e)) :: m_caps st).

(** One repetition [r{lo,hi}] of a body, given the matcher [body] of [r]:
    [c] iterations are done; a greedy repetition tries one more iteration
    before it stops, a lazy one stops first. An iteration that consumes
    nothing ends the loop, so [fuel], the number of characters left when
    the repetition starts, bounds the iterations. *)
Fixpoint rep_loop {A : Type}
    (body : (mstate -> option A) -> mstate -> option A)
    (greedy : bool) (lo : nat) (hi : option nat) (k : mstate -> option A)
    (fuel : nat) (c : nat) (st : mstate) {struct fuel} : option A :=
  let stop (_ : unit) := if (lo <=? c)%nat then k st else None in
  let more (_ : unit) :=
    match fuel with
    | O => None
    | S fuel' =>
        if match hi with Some h => (c <? h)%nat | None => true end
        then body
               (fun st' =>
                  if (m_pos st <? m_pos st')%nat
                  then rep_loop body greedy lo hi k fuel' (S c) st'
                  else None) st
        else None
    end in
  if greedy
  then match more tt with Some v => Some v | None => stop tt end
  else match stop tt with Some v => Some v | None => more tt end.

(** Backtracking matcher in continuation-passing style: [rmatch r k st]
    matches [r] at [st] and hands the position after it to [k]; a [None]
    from [k] makes the matcher try its next choice. *)
Fixpoint rmatch {A : Type} (r : regex) (k : mstate -> option A)
    (st : mstate) : option A :=
  match r with
  | Eps => k st
  | Cls p =>
      match m_rest st with
      | c :: rest =>
          if p c then k (MState (S (m_pos st)) (Some c) rest (m_caps st))
          else None
      | [] => None
      end
  | Cat r1 r2 => rmatch r1 (rmatch r2 k) st
  | Alt r1 r2 =>
      match rmatch r1 k st with
      | Some v => Some v
      | None => rmatch r2 k st
      end
  | Rep greedy lo hi r' =>
      rep_loop (rmatch r') greedy lo hi k (length (m_rest st)) O st
  | WordB => if at_boundary st then k st else None
  | Grp i r' =>
      rmatch r' (fun st' => k (set_cap i (m_pos st) (m_pos st') st')) st
  end.

(** A match: where it starts and the position after it. *)
Record rematch : Type := ReMatch { mt_start : nat; mt_end : mstate }.

Definition match_at (r : regex) (pos : nat) (prev : option ascii)
    (rest : list ascii) : option rematch :=
  rmatch r (fun e => Some (ReMatch pos e)) (MState pos prev rest []).

(** Leftmost match at or after a position. *)
Fixpoint search_at (r : regex) (pos : nat) (prev : option ascii)
    (rest : list ascii) : option rematch :=
  match match_at r pos prev rest with
  | Some m => Some m
  | None =>
      match rest with
      | [] => None
      | c :: rest' => search_at r (S pos) (Some c) rest'
      end
  end.

(** [r.search(text)] *)
Definition search (r : regex) (text : string) : option rematch :=
  search_at r O None (chars text).

(** [m.start()], [m.end()], [m.group(i)] *)
Definition start (m : rematch) : nat := mt_start m.
Definition end_ (m : rematch) : nat := m_pos (mt_end m).

Fixpoint cap_lookup (i : nat) (caps : list (nat * (nat * nat)))
    : option (nat * nat) :=
  match caps with
  | [] => None
  | (j, se) :: caps' => if (i =? j)%nat then Some se else cap_lookup i caps'
  end.

Definition group (text : string) (m : rematch) (i : nat) : string :=
  match cap_lookup i (m_caps (mt_end m)) with
  | Some (s, e) => slice s e text
  | None => ""
  end.

(** The successive non-overlapping matches, left to right. After a match
    that consumed nothing the scan moves on by one character. *)
Fixpoint scan (fuel : nat) (r : regex) (pos : nat) (prev : option ascii)
    (rest : list ascii) : list rematch :=
  match fuel with
  | O => []
  | S fuel' =>
      match search_at r pos prev rest with
      | None => []
      | Some m =>
          let e := mt_end m in
          if (mt_start m <? m_pos e)%nat
          then m :: scan fuel' r (m_pos e) (m_prev e) (m_rest e)
          else match m_rest e with
               | [] => [m]
               | c :: rest' => m :: scan fuel' r (S (m_pos e)) (Some c) rest'
               end
      end
  end.

(** [r.finditer(text)] *)
Definition finditer (r : regex) (text : string) : list rematch :=
  scan (S (String.length text)) r O None (chars text).

(** [r.findall(text)] for a pattern with two groups. *)
Definition findall2 (r : regex) (text : string) : list (string * string) :=
  map (fun m => (group text m 1, group text m 2)) (finditer r text).

(** [re.sub(r, repl, text)] for a replacement without group references. *)
Fixpoint sub_go (repl text : string) (from : nat) (ms : list rematch)
    : string :=
  match ms with
  | [] => slice from (String.length text) text
  | m :: ms' =>
      slice from (start m) text ++ repl ++ sub_go repl text (end_ m) ms'
  end.

Definition sub (r : regex) (repl text : string) : string :=
  sub_go repl text O (finditer r text).

(** [r.fullmatch(text)]: a match of the whole subject. *)
Definition fullmatch (r : regex) (text : string) : option rematch :=
  rmatch r
    (fun e => match m_rest e with [] => Some (ReMatch O e) | _ => None end)
    (MState O None (chars text) []).

(** *** Pattern syntax *)
Definition chr (c : ascii) : regex := Cls (Ascii.eqb c).
(** a character under [re.IGNORECASE] *)
Definition chr_i (c : ascii) : regex :=
  Cls (fun x => Ascii.eqb (lower_char x) (lower_char c)).
Definition any : regex := Cls (fun _ => true).     (* . with re.DOTALL *)
Definition digit : regex := Cls is_digit.          (* \d *)
Definition space : regex := Cls is_space.          (* \s *)

Fixpoint seq (rs : list regex) : regex :=
  match rs with
  | [] => Eps
  | [r] => r
  | r :: rs' => Cat r (seq rs')
  end.

Fixpoint alts (rs : list regex) : regex :=
  match rs with
  | [] => Cls (fun _ => false)
  | [r] => r
  | r :: rs' => Alt r (alts rs')
  end.

Definition lit (s : string) : regex := seq (map chr (chars s)).
Definition lit_i (s : string) : regex := seq (map chr_i (chars s)).

Definition star (r : regex) : regex := Rep true 0 None r.        (* r* *)
Definition plus (r : regex) : regex := Rep true 1 None r.        (* r+ *)
Definition opt (r : regex) : regex := Rep true 0 (Some 1%nat) r. (* r? *)
Definition star_lazy (r : regex) : regex := Rep false 0 None r.  (* r*? *)
Definition plus_lazy (r : regex) : regex := Rep false 1 None r.  (* r+? *)
Definition upto (lo hi : nat) (r : regex) : regex :=
  Rep true lo (Some hi) r.                                       (* r{lo,hi} *)

End Re.

Import PyStr Re.

(* ===================================================================== *)
(** ** Python values and dictionaries                                     *)
(* ===================================================================== *)

(** The values the module stores in its row dictionaries: [None] (NaN once
    in a data frame), an [int], a [str]. *)
Inductive cell : Type :=
| CNone
| CInt (n : Z)
| CStr (s : string).

#[global] Instance cell_eq_dec : EqDecision cell.
Proof. solve_decision. Defined.

(** A dictionary built from key/value pairs in order: a later pair
    overwrites an earlier one with the same key, as in a dict display, a
    dict comprehension or [dict.update]. *)
Definition dict_of {V : Type} (kvs : list (string * V)) : gmap string V :=
  fold_left (fun d kv => <[fst kv := snd kv]> d) kvs ∅.

(** [d.update(e)] *)
Definition update {V : Type} (d e : gmap string V) : gmap string V := e ∪ d.

(** [sorted(l, key=key, reverse=True)]: stable, so elements with equal
    keys keep their order. *)
Fixpoint insert_desc {A : Type} (key : A -> Z) (x : A) (l : list A) : list A :=
  match l with
  | [] => [x]
  | y :: ys =>
      if (key x <=? key y)%Z then y :: insert_desc key x ys else x :: y :: ys
  end.

Definition sorted_desc {A : Type} (key : A -> Z) (l : list A) : list A :=
  fold_left (fun acc x => insert_desc key x acc) l [].

(* ===================================================================== *)
(** ** List-page patterns                                                 *)
(* ===================================================================== *)

(** [\b(Gold|Silver|Ready)\b] *)
Definition TIER_RE : regex :=
  seq [WordB; Grp 1 (alts [lit "Gold"; lit "Silver"; lit "Ready"]); WordB].

(** [\b(\d+)\s+References?\b] *)
Definition REFS_RE : regex :=
  seq [WordB; Grp 1 (plus digit); plus space; lit "Reference"; opt (chr "s");
       WordB].

(** [\b(\d+)\s+Certified Experts?\b] *)
Definition EXPERTS_RE : regex :=
  seq [WordB; Grp 1 (plus digit); plus space; lit "Certified Expert";
       opt (chr "s"); WordB].

(** [%\s+(.+?)\s+Average Project:] with [re.DOTALL] *)
Definition LOC_RE : regex :=
  seq [chr "%"; plus space; Grp 1 (plus_lazy any); plus space;
       lit "Average Project:"].

(* ===================================================================== *)
(** ** The fixed industries                                               *)
(* ===================================================================== *)

Definition ALLOWED_INDUSTRIES : list string := [
  "Agriculture";
  "Construction & Renovation";
  "ECO liable to deduct TCS u/s 52";
  "ECO liable to pay GST u/s 9(5)";
  "Education";
  "Entertainment / Media";
  "Finance / Legal / Insurance";
  "Food / Hospitality / Tourism / Beverage";
  "Government";
  "HR / Administrative / Consulting";
  "Health / Social Welfare / Pharmaceutical";
  "Households";
  "IT / Communication / Marketing";
  "Manufacturing / Maintenance";
  "Mining & Quarrying";
  "NGO";
  "Other Services";
  "Real Estate";
  "Science & Technology";
  "Transportation/Logistics";
  "Utilities / Energy / Water supply";
  "Wholesale / Retail"
].

Definition make_safe_ri_column (label : string) : string :=
  let lab := strip label in
  let lab := sub (plus space) " " lab in
  let lab := sub (plus (Cls (fun c => negb (is_alnum c)))) "_" lab in
  let lab := strip_chars "_" (sub (plus (chr "_")) "_" lab) in
  "RI_" ++ lab.

Definition ALLOWED_LABEL_TO_RI_COL : gmap string string :=
  dict_of (map (fun lab => (lab, make_safe_ri_column lab)) ALLOWED_INDUSTRIES).

(** [[ALLOWED_LABEL_TO_RI_COL[lab] for lab in ALLOWED_INDUSTRIES]]: every
    label is a key of the dictionary built from the same list, so the
    subscription never raises (see [ALLOWED_RI_COLS_lookups]). *)
Definition ALLOWED_RI_COLS : list string :=
  map (fun lab => default "" (ALLOWED_LABEL_TO_RI_COL !! lab))
      ALLOWED_INDUSTRIES.

Definition init_ri_zero_dict : gmap string cell :=
  dict_of (map (fun col => (col, CInt 0)) ALLOWED_RI_COLS).

(* ===================================================================== *)
(** ** Core parsing (list page)                                           *)
(* ===================================================================== *)

(** [" ".join(text.split()).strip()] *)
Definition normalize (text : string) : string :=
  strip (join " " (split text)).

(** Lines 124-125, 127-128 and 130-131, on the normalised text. *)
Definition location_of (text : string) : string :=
  match search LOC_RE text with
  | Some m_loc => strip_chars " ," (group text m_loc 1)
  | None => "N/A"
  end.

Definition refs_of (text : string) : string :=
  match search REFS_RE text with
  | Some m_refs => group text m_refs 1
  | None => "0"
  end.

Definition experts_of (text : string) : string :=
  match search EXPERTS_RE text with
  | Some m_exp => group text m_exp 1
  | None => "0"
  end.

(** [text[:m_tier.start()].strip()] *)
Definition name_of (text : string) (m_tier : rematch) : string :=
  strip (slice 0 (start m_tier) text).

Definition parse_partner_text (text : string) : option (gmap string cell) :=
  let text := normalize text in
  match search TIER_RE text with
  | None => None
  | Some m_tier =>
      let tier := group text m_tier 1 in
      let name := name_of text m_tier in
      if (name =? "") || (lower name =? "find best match") then None
      else
        let location := location_of text in
        let refs := refs_of text in
        let experts := experts_of text in
        if (location =? "N/A") && (refs =? "0") && (experts =? "0") then None
        else Some (dict_of [
          ("Partner Name", CStr name);
          ("Tier", CStr tier);
          ("Location", CStr location);
          ("References", CStr refs);
          ("Certified Experts", CStr experts)
        ])
  end.

(* ===================================================================== *)
(** ** Profile parsing (extras)                                           *)
(* ===================================================================== *)

(** What [session.get] gives for a URL: a response with its status code and
    the visible text of its body, [BeautifulSoup(r.text,
    "html.parser").get_text(" ", strip=True)], or an exception. *)
Inductive response : Type :=
| Response (status_code : Z) (visible_text : string)
| RequestError.

(** The effects of the module: requests and sleeps, in a log. *)
Inductive event : Type :=
| EvGet (url : string)
| EvSleep (seconds : Z).

Definition IO (A : Type) : Type := list event -> A * list event.

Definition ret {A : Type} (a : A) : IO A := fun log => (a, log).

Definition bind {A B : Type} (m : IO A) (f : A -> IO B) : IO B :=
  fun log => let (a, log') := m log in f a log'.

Definition emit (e : event) : IO unit := fun log => (tt, (log ++ [e])%list).

Notation "'do' x <- m ; k" := (bind m (fun x => k))
  (at level 10, x name, m at level 100, k at level 200).
Notation "'run' m ; k" := (bind m (fun _ => k))
  (at level 10, m at level 100, k at level 200).

(** [session.get(url, headers=HEADERS, timeout=30)] *)
Definition session_get (web : string -> response) (url : string)
    : IO response :=
  run emit (EvGet url); ret (web url).

(** [\b(\d+)\s+Certified\s+v(\d+)\b], [re.IGNORECASE] *)
Definition CERT_RE : regex :=
  seq [WordB; Grp 1 (plus digit); plus space; lit_i "Certified"; plus space;
       chr_i "v"; Grp 2 (plus digit); WordB].

(** [\bReferences\s*-\s*(\d+)\b], [re.IGNORECASE] *)
Definition TOTAL_RE : regex :=
  seq [WordB; lit_i "References"; star space; chr "-"; star space;
       Grp 1 (plus digit); WordB].

(** [.] without [re.DOTALL]: any character but the newline. *)
Definition dot : regex := Cls (fun c => negb (Ascii.eqb c "010"%char)).

(** [\bCustomer\s+Retention\b.*?\b(\d{1,3})\s*%?\b], [re.IGNORECASE] *)
Definition RETENTION_RE : regex :=
  seq [WordB; lit_i "Customer"; plus space; lit_i "Retention"; WordB;
       star_lazy dot; WordB; Grp 1 (upto 1 3 digit); star space;
       opt (chr "%"); WordB].

(** [\bReferences\s+Sizes\b.*?\b<word>:\s*~?\s*(\d+)\s*\+?\s*users?\b],
    [re.IGNORECASE], for [Largest] and [Average]. *)
Definition SIZES_RE (word : string) : regex :=
  seq [WordB; lit_i "References"; plus space; lit_i "Sizes"; WordB;
       star_lazy dot; WordB; lit_i word; chr ":"; star space; opt (chr "~");
       star space; Grp 1 (plus digit); star space; opt (chr "+"); star space;
       lit_i "user"; opt (chr_i "s"); WordB].

(** The stop markers, joined with [|], [re.IGNORECASE]. *)
Definition STOP_RE : regex :=
  alts [
    seq [WordB; lit_i "References"; plus space; lit_i "Sizes"; WordB];
    seq [WordB; lit_i "Customer"; plus space; lit_i "Retention"; WordB];
    seq [WordB; lit_i "Certified"; plus space; lit_i "Expert";
         opt (chr_i "s"); WordB];
    seq [WordB; lit_i "Average"; plus space; lit_i "Project"; WordB];
    seq [WordB; lit_i "Industries"; WordB];
    seq [WordB; lit_i "About"; WordB];
    seq [WordB; lit_i "Gold"; WordB];
    seq [WordB; lit_i "Silver"; WordB];
    seq [WordB; lit_i "Ready"; WordB]
  ].

(** [\b(\d{1,6})\s+(label_alt)\b], where [label_alt] joins the escaped
    labels, longest first. *)
Definition label_alt : regex :=
  alts (map lit
          (sorted_desc (fun x => Z.of_nat (String.length x)) ALLOWED_INDUSTRIES)).

Definition INDUSTRY_RE : regex :=
  seq [WordB; Grp 1 (upto 1 6 digit); plus space; Grp 2 label_alt; WordB].

(** An insertion-ordered dictionary with integer values, for [agg] and
    [dedup], whose iteration order the module relies on. *)
Definition odict : Type := list (string * Z).

Fixpoint od_get (d : odict) (k : string) : option Z :=
  match d with
  | [] => None
  | (k', v) :: d' => if k =? k' then Some v else od_get d' k
  end.

(** [d[k] = v]: in place when [k] is a key, at the end otherwise. *)
Fixpoint od_set (d : odict) (k : string) (v : Z) : odict :=
  match d with
  | [] => [(k, v)]
  | (k', v') :: d' =>
      if k =? k' then (k', v) :: d' else (k', v') :: od_set d' k v
  end.

(** Lines 185-191. *)
Definition cert_agg (cert_pairs : list (string * string)) : odict :=
  fold_left
    (fun agg '(cnt, ver) =>
       let key := "v" ++ ver in
       od_set agg key (default 0 (od_get agg key) + int cnt))
    cert_pairs [].

Definition certified_versions (cert_pairs : list (string * string)) : string :=
  let agg := cert_agg cert_pairs in
  join "; "
    (map (fun k => k ++ ":" ++ of_int (default 0 (od_get agg k)))
       (sorted_desc (fun x => int (slice 1 (String.length x) x))
          (map fst agg))).

(** Lines 245-253: the loop over [found], on the pair ([dedup], [order]). *)
Definition dedup_step (acc : odict * list string) (m : string * string)
    : odict * list string :=
  let '(dedup, order) := acc in
  let '(n_str, lab) := m in
  let n := int n_str in
  match od_get dedup lab with
  | None => (od_set dedup lab n, (order ++ [lab])%list)
  | Some old => (od_set dedup lab (Z.max old n), order)
  end.

Definition dedup_loop (found : list (string * string)) : odict * list string :=
  fold_left dedup_step found ([], []).

(** Line 256. *)
Definition reference_industries (dedup : odict) (order : list string)
    : string :=
  join " "
    (map (fun lab => lab ++ " " ++ of_int (default 0 (od_get dedup lab)))
       order).

(** Lines 259-262: the loop over [dedup.items()]. *)
Definition fill_ri_step (extras : gmap string cell) (item : string * Z)
    : gmap string cell :=
  let '(lab, cnt) := item in
  match ALLOWED_LABEL_TO_RI_COL !! lab with
  | Some col => if col =? "" then extras else <[col := CInt cnt]> extras
  | None => extras
  end.

Definition fill_ri (extras : gmap string cell) (dedup : odict)
    : gmap string cell :=
  fold_left fill_ri_step dedup extras.

(** Lines 155-163. *)
Definition default_extras : gmap string cell :=
  update
    (dict_of [
       ("Certified Versions", CStr "");
       ("References Total", CNone);
       ("Customer Retention %", CNone);
       ("Largest Reference Users", CNone);
       ("Average Reference Users", CNone);
       ("Reference Industries", CStr "")
     ])
    init_ri_zero_dict.

(** [extras[key] = int(m.group(1))] when the pattern matches. *)
Definition set_int_if (r : regex) (key : string) (norm : string)
    (extras : gmap string cell) : gmap string cell :=
  match search r norm with
  | Some m => <[key := CInt (int (group norm m 1))]> extras
  | None => extras
  end.

(** Lines 222-237: the block of text the industries are read from. *)
Definition industries_block (norm : string) (m_total : rematch) : string :=
  let tail := strip (slice (end_ m_total) (String.length norm) norm) in
  match search STOP_RE tail with
  | Some m_stop => strip (slice 0 (start m_stop) tail)
  | None => tail
  end.

(** Lines 182-264, on the normalised text of the page. *)
Definition extract_extras (norm : string) : gmap string cell :=
  let extras := default_extras in
  (* certified versions *)
  let cert_pairs := findall2 CERT_RE norm in
  let extras :=
    match cert_pairs with
    | [] => extras
    | _ => <["Certified Versions" := CStr (certified_versions cert_pairs)]>
             extras
    end in
  (* references total *)
  let m_total := search TOTAL_RE norm in
  let extras := set_int_if TOTAL_RE "References Total" norm extras in
  (* customer retention, references sizes *)
  let extras := set_int_if RETENTION_RE "Customer Retention %" norm extras in
  let extras :=
    set_int_if (SIZES_RE "Largest") "Largest Reference Users" norm extras in
  let extras :=
    set_int_if (SIZES_RE "Average") "Average Reference Users" norm extras in
  (* industries block *)
  match m_total with
  | None => extras
  | Some m_total =>
      let block := industries_block norm m_total in
      let found := findall2 INDUSTRY_RE block in
      match found with
      | [] => extras
      | _ =>
          let '(dedup, order) := dedup_loop found in
          let extras :=
            <["Reference Industries" := CStr (reference_industries dedup order)]>
              extras in
          fill_ri extras dedup
      end
  end.

(** [not profile_url], for a URL that may be [None]. *)
Definition url_missing (profile_url : option string) : bool :=
  match profile_url with
  | None => true
  | Some u => u =? ""
  end.

Definition fetch_profile_extras (web : string -> response)
    (profile_url : option string) (sleep_s : Z) : IO (gmap string cell) :=
  let extras := default_extras in
  if url_missing profile_url then ret extras
  else
    do r <- session_get web (default "" profile_url);
    match r with
    | RequestError => ret extras
    | Response status_code raw_space =>
        if negb (status_code =? 200)%Z then ret extras
        else
          let norm := strip (sub (plus space) " " raw_space) in
          run (if (sleep_s =? 0)%Z then ret tt else emit (EvSleep sleep_s));
          ret (extract_extras norm)
    end.

(* ===================================================================== *)
(** ** Clean + export                                                     *)
(* ===================================================================== *)

(** A data frame: its column labels and its rows. A row maps a column to
    its value; a column without a value in a row reads as NaN, [CNone]. *)
Record DataFrame : Type := mkDataFrame {
  df_columns : list string;
  df_rows : list (gmap string cell);
}.

Definition at_col (row : gmap string cell) (col : string) : cell :=
  default CNone (row !! col).

(** [df.reindex(columns=cols)]: every row gets the columns [cols], with
    NaN where it had no value. *)
Definition reindex_row (cols : list string) (row : gmap string cell)
    : gmap string cell :=
  dict_of (map (fun c => (c, at_col row c)) cols).

Definition reindex (cols : list string) (df : DataFrame) : DataFrame :=
  mkDataFrame cols (map (reindex_row cols) (df_rows df)).

(** [df[col] = f(df[col])], cell by cell. *)
Definition set_col (col : string) (f : cell -> cell) (row : gmap string cell)
    : gmap string cell :=
  <[col := f (at_col row col)]> row.

Definition map_col (col : string) (f : cell -> cell) (df : DataFrame)
    : DataFrame :=
  mkDataFrame (df_columns df) (map (set_col col f) (df_rows df)).

(** [df = df[mask]] *)
Definition select (mask : gmap string cell -> bool) (df : DataFrame)
    : DataFrame :=
  mkDataFrame (df_columns df) (filter (fun row => mask row = true) (df_rows df)).

(** [.fillna("").astype(str).str.strip()] on one cell. *)
Definition clean_name (c : cell) : cell :=
  CStr (strip (match c with
               | CNone => ""
               | CInt n => of_int n
               | CStr s => s
               end)).

Definition str_of (c : cell) : string :=
  match c with CStr s => s | _ => "" end.

Definition int_of (c : cell) : Z :=
  match c with CInt n => n | _ => 0 end.

(** [Find Best Match] under [case=False] *)
Definition PLACEHOLDER_RE : regex := lit_i "Find Best Match".

(** [df.drop_duplicates(subset=cols)]: a row goes when an earlier row has
    the same values in [cols]; NaN equals NaN there. *)
Definition row_key (cols : list string) (row : gmap string cell) : list cell :=
  map (at_col row) cols.

Fixpoint drop_dups_go (cols : list string) (seen : list (list cell))
    (rows : list (gmap string cell)) : list (gmap string cell) :=
  match rows with
  | [] => []
  | row :: rows' =>
      if bool_decide (row_key cols row ∈ seen)
      then drop_dups_go cols seen rows'
      else row :: drop_dups_go cols (row_key cols row :: seen) rows'
  end.

Definition drop_duplicates (cols : list string) (df : DataFrame) : DataFrame :=
  mkDataFrame (df_columns df) (drop_dups_go cols [] (df_rows df)).

Definition base_cols : list string := [
  "Partner Name"; "Tier"; "Location"; "References"; "Certified Experts";
  "Profile URL";
  "Certified Versions"; "References Total"; "Customer Retention %";
  "Largest Reference Users"; "Average Reference Users";
  "Reference Industries"
].

Definition expected_cols : list string := (base_cols ++ ALLOWED_RI_COLS)%list.

Section CleanAndExport.

(** How [pd.to_numeric] reads a string: the number, or nothing when the
    string does not parse. The rows the scraper builds hold integers,
    strings of digits and [None], so the number is an integer. *)
Variable parse_number : string -> option Z.

(** [pd.to_numeric(_, errors="coerce")] on one cell; nothing is NaN. *)
Definition to_numeric (c : cell) : option Z :=
  match c with
  | CNone => None
  | CInt n => Some n
  | CStr s => parse_number s
  end.

(** [pd.to_numeric(df[col], errors="coerce").fillna(0).astype(int)] *)
Definition to_int (c : cell) : cell := CInt (default 0 (to_numeric c)).

(** [pd.to_numeric(df[col], errors="coerce")] *)
Definition to_num (c : cell) : cell :=
  match to_numeric c with Some n => CInt n | None => CNone end.

Definition map_cols (cols : list string) (f : cell -> cell) (df : DataFrame)
    : DataFrame :=
  fold_left (fun df col => map_col col f df) cols df.

Definition name_nonempty (row : gmap string cell) : bool :=
  negb (str_of (at_col row "Partner Name") =? "").

Definition not_placeholder (row : gmap string cell) : bool :=
  negb (bool_decide
          (is_Some (fullmatch PLACEHOLDER_RE (str_of (at_col row "Partner Name"))))).

Definition has_counts (row : gmap string cell) : bool :=
  (0 <? int_of (at_col row "References"))%Z
  || (0 <? int_of (at_col row "Certified Experts"))%Z.

(** Lines 337-353, up to the table that is written and returned. *)
Definition clean_and_export (df : DataFrame) : DataFrame :=
  let df := reindex expected_cols df in
  let df := map_col "Partner Name" clean_name df in
  let df := select name_nonempty df in
  let df := select not_placeholder df in
  let df := map_cols ["References"; "Certified Experts"] to_int df in
  let df :=
    map_cols ["References Total"; "Customer Retention %";
              "Largest Reference Users"; "Average Reference Users"]
      to_num df in
  let df := map_cols ALLOWED_RI_COLS to_int df in
  let df := select has_counts df in
  drop_duplicates ["Partner Name"; "Tier"; "Location"] df.

(** *** The table code, row by row *)

Definition set_cols (cols : list string) (f : cell -> cell)
    (row : gmap string cell) : gmap string cell :=
  fold_left (fun r col => set_col col f r) cols row.

(** What lines 337-350 make of one row of the input. *)
Definition coerce_row (row : gmap string cell) : gmap string cell :=
  set_cols ALLOWED_RI_COLS to_int
    (set_cols ["References Total"; "Customer Retention %";
               "Largest Reference Users"; "Average Reference Users"] to_num
       (set_cols ["References"; "Certified Experts"] to_int row)).

Definition normalise_row (row : gmap string cell) : gmap string cell :=
  coerce_row (set_col "Partner Name" clean_name (reindex_row expected_cols row)).

(** The filters of lines 340, 341 and 352 together. *)
Definition keep_row (row : gmap string cell) : bool :=
  name_nonempty row && not_placeholder row && has_counts row.

(** The counts the table holds for a row of the input. *)
Definition reference_count (row : gmap string cell) : Z :=
  int_of (to_int (at_col row "References")).

Definition expert_count (row : gmap string cell) : Z :=
  int_of (to_int (at_col row "Certified Experts")).

(** The key of line 353. *)
Definition dedup_key (row : gmap string cell) : list cell :=
  row_key ["Partner Name"; "Tier"; "Location"] row.

End CleanAndExport.

(** A reader for running the table code: a non-empty string of digits has
    its value, every other string is not a number. *)
Definition parse_digits (s : string) : option Z :=
  if negb (s =? "") && forallb is_digit (chars s) then Some (int s) else None.

(* ===================================================================== *)
(** ** Reference definitions for the statements                           *)
(* ===================================================================== *)

(** The keys of the extras besides the 22 industry columns. *)
Definition extras_keys : list string := [
  "Certified Versions"; "References Total"; "Customer Retention %";
  "Largest Reference Users"; "Average Reference Users"; "Reference Industries"
].

(** The counts found with a label, in the order of the matches. *)
Definition counts_of (lab : string) (found : list (string * string)) : list Z :=
  map (fun m => int (fst m)) (filter (fun m => snd m = lab) found).

(** [v] is the maximum of a list of counts. *)
Definition is_max (v : Z) (l : list Z) : Prop :=
  v ∈ l /\ Forall (fun c => c <= v) l.

(** The greatest count found with a label; 0 when the label is not found. *)
Definition max_count (lab : string) (found : list (string * string)) : Z :=
  match counts_of lab found with
  | [] => 0
  | c :: cs => fold_left Z.max cs c
  end.

(** The distinct elements of a list, each at its first occurrence. *)
Fixpoint first_seen (l : list string) : list string :=
  match l with
  | [] => []
  | x :: l' => x :: filter (fun y => y <> x) (first_seen l')
  end.

(** The labels found, each once and in the order of their first match,
    with the greatest count found with it, as "<label> <count>" joined by
    blanks. *)
Definition render_industries (found : list (string * string)) : string :=
  join " "
    (map (fun lab => lab ++ " " ++ of_int (max_count lab found))
       (first_seen (map snd found))).

(** The matches of the industries pattern in the block after the
    "References - N" anchor; none without the anchor. *)
Definition industries_found (norm : string) : list (string * string) :=
  match search TOTAL_RE norm with
  | Some m_total => findall2 INDUSTRY_RE (industries_block norm m_total)
  | None => []
  end.

(* ===================================================================== *)
(** ** What a pattern matches                                             *)
(* ===================================================================== *)

(** [iter M n st st']: [n] steps of [M] from [st] to [st'], each consuming
    at least one character. *)
Fixpoint iter (M : mstate -> mstate -> Prop) (n : nat) (st st' : mstate)
    : Prop :=
  match n with
  | O => st' = st
  | S n' =>
      exists st1, M st st1 /\ (m_pos st < m_pos st1)%nat /\ iter M n' st1 st'
  end.

Definition within (hi : option nat) (n : nat) : Prop :=
  match hi with Some h => (n <= h)%nat | None => True end.

(** [matches r st st']: the pattern [r] matches the subject from the
    position [st] to the position [st'], whatever the priorities. *)
Fixpoint matches (r : regex) (st st' : mstate) : Prop :=
  match r with
  | Eps => st' = st
  | Cls p =>
      exists c rest, m_rest st = c :: rest /\ p c = true /\
        st' = MState (S (m_pos st)) (Some c) rest (m_caps st)
  | Cat r1 r2 => exists st1, matches r1 st st1 /\ matches r2 st1 st'
  | Alt r1 r2 => matches r1 st st' \/ matches r2 st st'
  | Rep _ lo hi r' =>
      exists n, (lo <= n)%nat /\ within hi n /\ iter (matches r') n st st'
  | WordB => at_boundary st = true /\ st' = st
  | Grp i r' =>
      exists st1, matches r' st st1 /\
        st' = set_cap i (m_pos st) (m_pos st1) st1
  end.

(** The characters consumed so far and those left add up to the subject. *)
Definition span (st : mstate) : nat := (m_pos st + length (m_rest st))%nat.

(** The two choices of [rep_loop] after [c] iterations: to stop, or to
    iterate once more. *)
Definition may_iterate (hi : option nat) (c : nat) : bool :=
  match hi with Some h => (c <? h)%nat | None => true end.

Definition rep_stop {A : Type} (lo : nat) (k : mstate -> option A) (c : nat)
    (st : mstate) : option A :=
  if (lo <=? c)%nat then k st else None.

Definition rep_more {A : Type}
    (body : (mstate -> option A) -> mstate -> option A)
    (greedy : bool) (lo : nat) (hi : option nat) (k : mstate -> option A)
    (fuel c : nat) (st : mstate) : option A :=
  match fuel with
  | O => None
  | S fuel' =>
      if may_iterate hi c
      then body (fun st' =>
                   if (m_pos st <? m_pos st')%nat
                   then rep_loop body greedy lo hi k fuel' (S c) st'
                   else None) st
      else None
  end.

(** The position in a subject after the characters [pre], before [post]. *)
Definition position (pre post : list ascii) : mstate :=
  MState (length pre) (last pre) post [].


(* ===================================================================== *)
(** ** Sample inputs                                                      *)
(* ===================================================================== *)

(** The text of the example of the list-row parser. *)
Definition acme_text : string :=
  "Acme Corp Gold 12 References 5 Certified Experts 40 % Springfield Average Project: $5k".

(** A profile text in which "Agriculture" matches twice. *)
Definition twice_agriculture : string :=
  "References - 12 2 Agriculture 1 Education 5 Agriculture About us".

(** The match of the anchor in that text. *)
Definition twice_agriculture_total : rematch :=
  Eval vm_compute in
    default (ReMatch 0 (MState 0 None [] []))
            (search TOTAL_RE twice_agriculture).

(** A draft of the partner "Acme", Gold, in Paris. *)
Definition acme_paris (refs url : string) : gmap string cell :=
  dict_of [
    ("Partner Name", CStr "Acme");
    ("Tier", CStr "Gold");
    ("Location", CStr "Paris");
    ("References", CStr refs);
    ("Certified Experts", CStr "0");
    ("Profile URL", CStr url)
  ].

Definition two_acme_drafts : DataFrame :=
  mkDataFrame
    ["Partner Name"; "Tier"; "Location"; "References"; "Certified Experts";
     "Profile URL"]
    [acme_paris "0" "https://www.odoo.com/partners/acme-1";
     acme_paris "5" "https://www.odoo.com/partners/acme-2"].

(* ===================================================================== *)
(** ** Scraper                                                            *)
(* ===================================================================== *)

Definition BASE : string := "https://www.odoo.com".

(** [PAGE_URL.format(page_num)] *)
Definition PAGE_URL (page_num : Z) : string :=
  "https://www.odoo.com/partners/page/" ++ of_int page_num
    ++ "?country_all=True".

(** [m >>= f] over a list, left to right. *)
Fixpoint foldM {S A : Type} (f : S -> A -> IO S) (l : list A) (s : S) : IO S :=
  match l with
  | [] => ret s
  | a :: l' => do s' <- f s a; foldM f l' s'
  end.

Section Scrape.

(** The world outside: [http url] is what [session.get] gives for a URL,
    the status code and the body, or nothing when it raises;
    [get_text body] is [BeautifulSoup(body, "html.parser").get_text(" ",
    strip=True)]; [find_all_a body] lists, for the [a] elements of the body
    in document order, [a.get_text(" ", strip=True)] and [a.get("href")];
    [urljoin] is [urllib.parse.urljoin]. *)
Context {html : Type}.
Variable http : string -> option (Z * html).
Variable get_text : html -> string.
Variable find_all_a : html -> list (string * option string).
Variable urljoin : string -> string -> string.

(** The session as [fetch_profile_extras] sees it. *)
Definition profile_web (url : string) : response :=
  match http url with
  | Some (status_code, body) => Response status_code (get_text body)
  | None => RequestError
  end.

(** [all_rows] and [profile_cache]. *)
Definition scrape_state : Type :=
  list (gmap string cell) * gmap string (gmap string cell).

(** Lines 291-313, for one [a] element. [parse_partner_text] never returns
    an empty dictionary, so [not parsed] is [parsed is None]. The extras of
    a URL are bound once, read from the cache or fetched and stored. *)
Definition scrape_anchor (profile_sleep_s : Z) (st : scrape_state)
    (a : string * option string) : IO scrape_state :=
  let '(all_rows, profile_cache) := st in
  let '(t, href_attr) := a in
  if (t =? "") || negb (bool_decide (is_Some (search TIER_RE t))) then ret st
  else
    match parse_partner_text t with
    | None => ret st
    | Some parsed =>
        let href := default "" href_attr in
        let profile_url :=
          if String.prefix "/" href then urljoin BASE href else "" in
        let parsed := <["Profile URL" := CStr profile_url]> parsed in
        if profile_url =? ""
        then ret ((all_rows ++ [update parsed init_ri_zero_dict])%list,
                  profile_cache)
        else
          match profile_cache !! profile_url with
          | Some extras =>
              ret ((all_rows ++ [update parsed extras])%list, profile_cache)
          | None =>
              do extras <- fetch_profile_extras profile_web (Some profile_url)
                             profile_sleep_s;
              ret ((all_rows ++ [update parsed extras])%list,
                   <[profile_url := extras]> profile_cache)
          end
    end.

(** Lines 279-315, for the pages left. [None] is an exception of
    [session.get], which ends the run. *)
Fixpoint scrape_pages (sleep_s profile_sleep_s : Z) (pages : list Z)
    (st : scrape_state) : IO (option scrape_state) :=
  match pages with
  | [] => ret (Some st)
  | page_num :: pages' =>
      let url := PAGE_URL page_num in
      run emit (EvGet url);
      match http url with
      | None => ret None
      | Some (status_code, body) =>
          if negb (status_code =? 200)%Z
          then scrape_pages sleep_s profile_sleep_s pages' st
          else
            do st' <- foldM (scrape_anchor profile_sleep_s) (find_all_a body) st;
            run emit (EvSleep sleep_s);
            scrape_pages sleep_s profile_sleep_s pages' st'
      end
  end.

(** [scrape_partners]: the rows of the data frame returned. *)
Definition scrape_partners (page_start page_end sleep_s profile_sleep_s : Z)
    : IO (option (list (gmap string cell))) :=
  do r <- scrape_pages sleep_s profile_sleep_s
            (seqZ page_start (page_end + 1 - page_start)) ([], ∅);
  ret (fst <$> r).

(** *** The rows without the cache *)

(** The extras of a profile URL, as a fetch gives them. *)
Definition profile_extras (url : string) : gmap string cell :=
  match profile_web url with
  | Response status_code raw_space =>
      if (status_code =? 200)%Z
      then extract_extras (strip (sub (plus space) " " raw_space))
      else default_extras
  | RequestError => default_extras
  end.

(** The profile URL of an [a] element. *)
Definition anchor_url (href_attr : option string) : string :=
  let href := default "" href_attr in
  if String.prefix "/" href then urljoin BASE href else "".

(** The row of an [a] element, if it gives one. *)
Definition anchor_row (a : string * option string)
    : option (gmap string cell) :=
  let '(t, href_attr) := a in
  if (t =? "") || negb (bool_decide (is_Some (search TIER_RE t))) then None
  else
    match parse_partner_text t with
    | None => None
    | Some parsed =>
        let profile_url := anchor_url href_attr in
        Some (update (<["Profile URL" := CStr profile_url]> parsed)
                (if profile_url =? "" then init_ri_zero_dict
                 else profile_extras profile_url))
    end.

(** The rows of a listing page. *)
Definition page_rows (page_num : Z) : list (gmap string cell) :=
  match http (PAGE_URL page_num) with
  | Some (status_code, body) =>
      if (status_code =? 200)%Z then omap anchor_row (find_all_a body) else []
  | None => []
  end.

(** The cache holds, for URLs that are not empty, the extras a fetch gives. *)
Definition cache_ok (cache : gmap string (gmap string cell)) : Prop :=
  forall u e, cache !! u = Some e -> u <> "" /\ e = profile_extras u.

(** The pages requested before the run ends: all of them, or those up to
    the first whose request raises. *)
Fixpoint pages_tried (pages : list Z) : list Z :=
  match pages with
  | [] => []
  | n :: pages' =>
      match http (PAGE_URL n) with
      | None => [n]
      | Some _ => n :: pages_tried pages'
      end
  end.

End Scrape.

#[global] Instance event_eq_dec : EqDecision event.
Proof. solve_decision. Defined.

(** The requests of a URL in a log. *)
Definition requests (url : string) (log : list event) : nat :=
  length (filter (fun e => e = EvGet url) log).

(** 1 when the cache holds a URL, 0 otherwise. *)
Definition cached (cache : gmap string (gmap string cell)) (u : string) : nat :=
  match cache !! u with Some _ => 1 | None => 0 end.

(** The keys of a draft of [parse_partner_text]. *)
Definition draft_cols : list string :=
  ["Partner Name"; "Tier"; "Location"; "References"; "Certified Experts"].

(** The profile URL of a row, when it has one that is not empty. *)
Definition row_profile (row : gmap string cell) : option string :=
  match row !! "Profile URL" with
  | Some (CStr u) => if u =? "" then None else Some u
  | _ => None
  end.

(** The listing pages with a given URL. *)
Definition page_requests (u : string) (pages : list Z) : nat :=
  length (filter (fun n => PAGE_URL n = u) pages).

(** A row as lines 291-313 build it: the five fields of the draft of the
    text of an [a] element, the profile URL, the 22 industry columns as
    integers, and the six extras exactly when the profile URL is not
    empty. *)
Definition scraped_row (row : gmap string cell) : Prop :=
  exists t d url,
    t <> "" /\ search TIER_RE t <> None /\
    parse_partner_text t = Some d /\
    Forall (fun k => row !! k = d !! k) draft_cols /\
    row !! "Profile URL" = Some (CStr url) /\
    Forall (fun col => exists n, row !! col = Some (CInt n) /\
                                 (url = "" -> n = 0))
      ALLOWED_RI_COLS /\
    dom row =
      list_to_set
        (if url =? ""
         then (draft_cols ++ "Profile URL" :: ALLOWED_RI_COLS)%list
         else expected_cols).

(** A site for the examples: one listing page with three [a] elements, two
    of them the same partner, and the profile of that partner. A page is
    its [a] elements and its visible text. *)
Definition acme_site (url : string)
    : option (Z * (list (string * option string) * string)) :=
  if url =? PAGE_URL 1
  then Some (200, ([("Find Best Match", Some "/partners");
                    (acme_text, Some "/partners/acme-1");
                    (acme_text, Some "/partners/acme-1")], ""))
  else if url =? "https://www.odoo.com/partners/acme-1"
  then Some (200, ([], twice_agriculture))
  else None.

(** [urljoin] of the base and the paths of that site. *)
Definition acme_urljoin (base href : string) : string := base ++ href.

(* ===================================================================== *)
(** ** Further reference definitions                                      *)
(* ===================================================================== *)

(** The sum of the counts found with a version. *)
Definition version_total (ver : string) (cert_pairs : list (string * string))
    : Z :=
  foldr Z.add 0 (counts_of ver cert_pairs).

(** One step of the loop of lines 186-188. *)
Definition cert_step (agg : odict) (p : string * string) : odict :=
  let '(cnt, ver) := p in
  let key := "v" ++ ver in
  od_set agg key (default 0 (od_get agg key) + int cnt).

(** The extras after lines 182-216, before the industries are read. *)
Definition stats_extras (norm : string) : gmap string cell :=
  set_int_if (SIZES_RE "Average") "Average Reference Users" norm
    (set_int_if (SIZES_RE "Largest") "Largest Reference Users" norm
       (set_int_if RETENTION_RE "Customer Retention %" norm
          (set_int_if TOTAL_RE "References Total" norm
             (match findall2 CERT_RE norm with
              | [] => default_extras
              | _ =>
                  <["Certified Versions" :=
                      CStr (certified_versions (findall2 CERT_RE norm))]>
                    default_extras
              end)))).

(** The integer a pattern captures in a text, [None] without a match. *)
Definition captured_int (r : regex) (norm : string) : cell :=
  match search r norm with
  | Some m => CInt (int (group norm m 1))
  | None => CNone
  end.

(** A list that does not start with a character of the class. *)
Definition head_clear (p : ascii -> bool) (l : list ascii) : Prop :=
  match l with c :: _ => p c = false | [] => True end.

(** The columns of line 346. *)
Definition optional_cols : list string :=
  ["References Total"; "Customer Retention %"; "Largest Reference Users";
   "Average Reference Users"].

(** A position of the subject [text]: the characters before it and the
    rest add up to the subject. *)
Definition at_text (text : list ascii) (st : mstate) : Prop :=
  exists pre, text = (pre ++ m_rest st)%list /\ m_pos st = length pre /\
              m_prev st = last pre.

(** The patterns of the groups numbered [i] in a pattern. *)
Fixpoint groups (i : nat) (r : regex) : list regex :=
  match r with
  | Eps | Cls _ | WordB => []
  | Cat r1 r2 | Alt r1 r2 => (groups i r1 ++ groups i r2)%list
  | Rep _ _ _ r' => groups i r'
  | Grp j r' => ((if (i =? j)%nat then [r'] else []) ++ groups i r')%list
  end.

(** The group [i] is closed by every match of the pattern. *)
Fixpoint sets (i : nat) (r : regex) : bool :=
  match r with
  | Eps | Cls _ | WordB => false
  | Cat r1 r2 => sets i r1 || sets i r2
  | Alt r1 r2 => sets i r1 && sets i r2
  | Rep _ lo _ r' => (0 <? lo)%nat && sets i r'
  | Grp j r' => (i =? j)%nat || sets i r'
  end.

(** The characters from [s] to [e] are a match of one of the patterns
    [rs] in the subject. *)
Definition captured (text : list ascii) (rs : list regex) (s e : nat)
    : Prop :=
  exists g st st', g ∈ rs /\ at_text text st /\ matches g st st' /\
                   m_pos st = s /\ m_pos st' = e.

(** [true] on the non-empty strings of decimal digits, the strings [int]
    reads without raising. *)
Definition is_digits (s : string) : bool :=
  negb (s =? "") && forallb is_digit (chars s).

(** The patterns of the four optional statistics, with their keys. *)
Definition stat_patterns : list (regex * string) :=
  [(TOTAL_RE, "References Total");
   (RETENTION_RE, "Customer Retention %");
   (SIZES_RE "Largest", "Largest Reference Users");
   (SIZES_RE "Average", "Average Reference Users")].

(** A value of an optional statistic: none, or a natural number, below
    1000 for the retention. *)
Definition stat_value (k : string) (c : cell) : Prop :=
  c = CNone \/
  exists n, c = CInt n /\ 0 <= n /\ (k = "Customer Retention %" -> n <= 999).

(** A text with every maximal seg of characters of the class [p] replaced
    by [repl]; [in_run] tells that the character before is of the class. *)
Fixpoint collapse_go (p : ascii -> bool) (repl : list ascii) (in_run : bool)
    (l : list ascii) : list ascii :=
  match l with
  | [] => []
  | c :: l' =>
      if p c
      then ((if in_run then [] else repl) ++ collapse_go p repl true l')%list
      else c :: collapse_go p repl false l'
  end.

Definition collapse (p : ascii -> bool) (repl : list ascii) (l : list ascii)
    : list ascii :=
  collapse_go p repl false l.



(** No two adjacent characters of a list are both [c]. *)
Fixpoint no_double (c : ascii) (l : list ascii) : bool :=
  match l with
  | a :: l' =>
      match l' with
      | b :: _ => negb (Ascii.eqb a c && Ascii.eqb b c) && no_double c l'
      | [] => true
      end
  | [] => true
  end.

(** The constants below are large once computed; proofs evaluate them
    with [vm_compute] and never unfold them by conversion. *)
#[global] Opaque make_safe_ri_column ALLOWED_LABEL_TO_RI_COL ALLOWED_RI_COLS
  init_ri_zero_dict default_extras search findall2 fullmatch.

(* ===================================================================== *)
(** * Properties                                                          *)
(* ===================================================================== *)

(** ** The matcher against what a pattern matches *)

Lemma iter_span (M : mstate -> mstate -> Prop) (n : nat) (st st' : mstate) :
  (forall a b, M a b -> (m_pos a <= m_pos b)%nat /\ span b = span a) ->
  iter M n st st' -> (m_pos st <= m_pos st')%nat /\ span st' = span st.
Proof.
  intros HM. revert st. induction n as [|n IH]; intros st; cbn.
  - intros ->. split; [lia|reflexivity].
  - intros (st1 & H1 & Hlt & Hit).
    destruct (HM _ _ H1) as [_ Hs1]. destruct (IH _ Hit) as [Hle Hs].
    split; [lia|congruence].
Qed.

Lemma matches_span (r : regex) (st st' : mstate) :
  matches r st st' -> (m_pos st <= m_pos st')%nat /\ span st' = span st.
Proof.
  revert st st'. induction r as [|p|r1 IH1 r2 IH2|r1 IH1 r2 IH2
                                |g lo hi r IH| |i r IH]; intros st st'; cbn.
  - intros ->. split; [lia|reflexivity].
  - intros (c & rest & Hrest & _ & ->). unfold span. cbn.
    rewrite Hrest. cbn. split; lia.
  - intros (st1 & H1 & H2).
    destruct (IH1 _ _ H1) as [? ?]. destruct (IH2 _ _ H2) as [? ?].
    split; [lia|congruence].
  - intros [H|H]; [by apply IH1|by apply IH2].
  - intros (n & _ & _ & Hit). by apply (iter_span (matches r) n).
  - intros [_ ->]. split; [lia|reflexivity].
  - intros (st1 & H1 & ->). destruct (IH _ _ H1) as [? ?]. done.
Qed.

Lemma first_choice_None {A : Type} (a b : option A) :
  match a with Some v => Some v | None => b end = None <->
  a = None /\ b = None.
Proof. destruct a; [split; [discriminate|intros [[=] _]]|tauto]. Qed.

Lemma first_choice_Some {A : Type} (a b : option A) (x : A) :
  match a with Some v => Some v | None => b end = Some x ->
  a = Some x \/ b = Some x.
Proof. destruct a; auto. Qed.

Section RepLoop.

Context {A : Type}.
Variable body : (mstate -> option A) -> mstate -> option A.
Variable M : mstate -> mstate -> Prop.
Hypothesis body_None : forall k st,
  body k st = None <-> forall st', M st st' -> k st' = None.
Hypothesis body_Some : forall k st x,
  body k st = Some x -> exists st', M st st' /\ k st' = Some x.
Hypothesis M_span : forall a b,
  M a b -> (m_pos a <= m_pos b)%nat /\ span b = span a.

Variables (greedy : bool) (lo : nat) (hi : option nat).
Variable k : mstate -> option A.

#[local] Abbreviation stop_ := (rep_stop lo k).
#[local] Abbreviation more_ := (rep_more body greedy lo hi k).

Lemma rep_loop_eq (fuel c : nat) (st : mstate) :
  rep_loop body greedy lo hi k fuel c st =
    if greedy
    then match more_ fuel c st with
         | Some v => Some v
         | None => stop_ c st
         end
    else match stop_ c st with
         | Some v => Some v
         | None => more_ fuel c st
         end.
Proof. destruct fuel; reflexivity. Qed.

Lemma rep_loop_None_split (fuel c : nat) (st : mstate) :
  rep_loop body greedy lo hi k fuel c st = None <->
  stop_ c st = None /\ more_ fuel c st = None.
Proof.
  rewrite rep_loop_eq. destruct greedy; rewrite first_choice_None; tauto.
Qed.

Lemma rep_loop_None (fuel c : nat) (st : mstate) :
  (length (m_rest st) <= fuel)%nat -> within hi c ->
  rep_loop body greedy lo hi k fuel c st = None <->
  forall n st', iter M n st st' -> (lo <= c + n)%nat -> within hi (c + n) ->
                k st' = None.
Proof.
  revert c st. induction fuel as [|fuel IH]; intros c st Hfuel Hc;
    rewrite rep_loop_None_split; unfold rep_stop.
  - (* no character left: no further iteration *)
    split.
    + intros [Hk _] [|n] st'; cbn.
      * intros -> Hlo _. rewrite Nat.add_0_r in Hlo.
        apply Nat.leb_le in Hlo. by rewrite Hlo in Hk.
      * intros (st1 & H1 & Hlt & _). exfalso.
        destruct (M_span _ _ H1) as [_ Hs]. unfold span in Hs. lia.
    + intros Hall. split; [|reflexivity].
      destruct (Nat.leb_spec lo c) as [Hlo|]; [|reflexivity].
      apply (Hall O st); [reflexivity|lia|by rewrite Nat.add_0_r].
  - cbn [rep_more]. split.
    + intros [Hk Hmore] [|n] st'; cbn.
      * intros -> Hlo _. rewrite Nat.add_0_r in Hlo.
        apply Nat.leb_le in Hlo. by rewrite Hlo in Hk.
      * intros (st1 & H1 & Hlt & Hit) Hlo Hhi.
        assert (Hmay : may_iterate hi c = true).
        { unfold may_iterate, within in *. destruct hi; [|reflexivity].
          apply Nat.ltb_lt. lia. }
        rewrite Hmay in Hmore.
        pose proof (proj1 (body_None _ _) Hmore st1 H1) as Hst1.
        cbn beta in Hst1. apply Nat.ltb_lt in Hlt. rewrite Hlt in Hst1.
        apply Nat.ltb_lt in Hlt.
        destruct (M_span _ _ H1) as [_ Hs]. unfold span in Hs.
        apply (proj1 (IH (S c) st1 ltac:(lia)
                        ltac:(unfold may_iterate, within in *;
                              destruct hi; [apply Nat.ltb_lt in Hmay; lia|done]))
                 Hst1 n st' Hit).
        -- lia.
        -- by replace (S c + n)%nat with (c + S n)%nat by lia.
    + intros Hall. split.
      * destruct (Nat.leb_spec lo c) as [Hlo|]; [|reflexivity].
        apply (Hall O st); [reflexivity|lia|by rewrite Nat.add_0_r].
      * destruct (may_iterate hi c) eqn:Hmay; [|reflexivity].
        apply body_None. intros st1 H1.
        destruct (Nat.ltb_spec (m_pos st) (m_pos st1)) as [Hlt|];
          [|reflexivity].
        destruct (M_span _ _ H1) as [_ Hs]. unfold span in Hs.
        apply IH; [lia| |].
        -- unfold may_iterate, within in *.
           destruct hi; [apply Nat.ltb_lt in Hmay; lia|done].
        -- intros n st' Hit Hlo Hhi. apply (Hall (S n) st').
           ++ cbn. eauto.
           ++ lia.
           ++ by replace (c + S n)%nat with (S c + n)%nat by lia.
Qed.

Lemma rep_loop_Some (fuel c : nat) (st : mstate) (x : A) :
  within hi c ->
  rep_loop body greedy lo hi k fuel c st = Some x ->
  exists n st', iter M n st st' /\ (lo <= c + n)%nat /\ within hi (c + n) /\
                k st' = Some x.
Proof.
  revert c st. induction fuel as [|fuel IH]; intros c st Hc;
    rewrite rep_loop_eq; intros Hx.
  - assert (Hstop : stop_ c st = Some x)
      by (destruct greedy; cbn in Hx; [exact Hx|];
          destruct (stop_ c st); [exact Hx|discriminate]).
    unfold rep_stop in Hstop.
    destruct (Nat.leb_spec lo c) as [Hlo|]; [|discriminate].
    exists O, st. rewrite Nat.add_0_r. cbn. done.
  - assert (Hcases : stop_ c st = Some x \/ more_ (S fuel) c st = Some x)
      by (destruct greedy; apply first_choice_Some in Hx; tauto).
    destruct Hcases as [Hstop|Hmore].
    + unfold rep_stop in Hstop.
      destruct (Nat.leb_spec lo c) as [Hlo|]; [|discriminate].
      exists O, st. rewrite Nat.add_0_r. cbn. done.
    + cbn [rep_more] in Hmore.
      destruct (may_iterate hi c) eqn:Hmay; [|discriminate].
      apply body_Some in Hmore as (st1 & H1 & Hk1).
      destruct (Nat.ltb_spec (m_pos st) (m_pos st1)) as [Hlt|];
        [|discriminate].
      apply IH in Hk1 as (n & st' & Hit & Hlo & Hhi & Hk).
      * exists (S n), st'. cbn.
        replace (c + S n)%nat with (S c + n)%nat by lia. eauto 10.
      * unfold may_iterate, within in *.
        destruct hi; [apply Nat.ltb_lt in Hmay; lia|done].
Qed.

End RepLoop.

Lemma rmatch_correct {A : Type} (r : regex) :
  forall (k : mstate -> option A) (st : mstate),
    (rmatch r k st = None <-> forall st', matches r st st' -> k st' = None) /\
    (forall x, rmatch r k st = Some x ->
               exists st', matches r st st' /\ k st' = Some x).
Proof.
  induction r as [|p|r1 IH1 r2 IH2|r1 IH1 r2 IH2|g lo hi r IH| |i r IH];
    intros k st; cbn [rmatch matches].
  - split.
    + split; [intros Hk st' ->; exact Hk|intros Hall; by apply Hall].
    + intros x Hx. eauto.
  - destruct (m_rest st) as [|c rest] eqn:Hrest.
    + split; [|discriminate].
      split; [intros _ st' (c & rest & [=] & _)|reflexivity].
    + destruct (p c) eqn:Hp.
      * split.
        -- split.
           ++ intros Hk st' (c' & rest' & [= <- <-] & _ & ->). exact Hk.
           ++ intros Hall. apply Hall. eauto.
        -- intros x Hx. eauto 10.
      * split; [|discriminate].
        split; [|reflexivity].
        intros _ st' (c' & rest' & [= <- <-] & Hp' & _). congruence.
  - split.
    + rewrite (proj1 (IH1 _ _)). split.
      * intros Hall st' (st1 & H1 & H2).
        destruct (IH2 k st1) as [HN _]. apply HN; [by apply Hall|exact H2].
      * intros Hall st1 H1. destruct (IH2 k st1) as [HN _]. apply HN.
        intros st' H2. apply Hall. eauto.
    + intros x Hx.
      apply (proj2 (IH1 _ _)) in Hx as (st1 & H1 & Hx).
      apply (proj2 (IH2 _ _)) in Hx as (st' & H2 & Hx). eauto.
  - split.
    + rewrite first_choice_None, (proj1 (IH1 _ _)), (proj1 (IH2 _ _)).
      split; [intros [H1 H2] st' [H|H]; auto|intros Hall; split; auto].
    + intros x Hx. apply first_choice_Some in Hx as [Hx|Hx].
      * apply (proj2 (IH1 _ _)) in Hx as (st' & H1 & Hx). eauto.
      * apply (proj2 (IH2 _ _)) in Hx as (st' & H2 & Hx). eauto.
  - assert (Hzero : within hi 0) by (destruct hi; cbn; [lia|done]).
    split.
    + rewrite (rep_loop_None (rmatch r) (matches r)); try done.
      * split; [intros Hall st' (n & Hlo & Hhi & Hit)|intros Hall n st' Hit Hlo Hhi];
          eauto.
      * intros k' st'. apply IH.
      * apply matches_span.
    + intros x Hx.
      apply (rep_loop_Some (rmatch r) (matches r)) in Hx
          as (n & st' & Hit & Hlo & Hhi & Hk); try done.
      * eauto 10.
      * intros k' st' x'. apply IH.
  - destruct (at_boundary st).
    + split.
      * split; [intros Hk st' [_ ->]; exact Hk|intros Hall; by apply Hall].
      * intros x Hx. eauto.
    + split; [|discriminate].
      split; [intros _ st' [[=] _]|reflexivity].
  - split.
    + rewrite (proj1 (IH _ _)). split.
      * intros Hall st' (st1 & H1 & ->). by apply Hall.
      * intros Hall st1 H1. apply Hall. eauto.
    + intros x Hx. apply (proj2 (IH _ _)) in Hx as (st1 & H1 & Hx). eauto.
Qed.

(** [match_at] finds a match exactly when the pattern matches there. *)
Lemma match_at_None (r : regex) (pos : nat) (prev : option ascii)
    (rest : list ascii) :
  match_at r pos prev rest = None <->
  forall st', ~ matches r (MState pos prev rest []) st'.
Proof.
  unfold match_at. rewrite (proj1 (rmatch_correct r _ _)).
  split; [intros Hall st' Hm; by specialize (Hall st' Hm)|].
  intros Hall st' Hm. by destruct (Hall st').
Qed.

Lemma match_at_Some (r : regex) (pos : nat) (prev : option ascii)
    (rest : list ascii) (m : rematch) :
  match_at r pos prev rest = Some m ->
  mt_start m = pos /\ matches r (MState pos prev rest []) (mt_end m).
Proof.
  unfold match_at. intros Hm.
  apply (proj2 (rmatch_correct r _ _)) in Hm as (st' & Hst & [= <-]). done.
Qed.

Lemma last_snoc_app (pre : list ascii) (c : ascii) : last (pre ++ [c]) = Some c.
Proof. apply last_snoc. Qed.



Lemma search_eq (r : regex) (text : string) :
  search r text = search_at r O None (chars text).
Proof. reflexivity. Qed.

(** A found match starts at a position of the text where the pattern
    matches, and the pattern matches at no earlier position. *)
Lemma search_at_Some (r : regex) (pre rest : list ascii) (m : rematch) :
  search_at r (length pre) (last pre) rest = Some m ->
  exists mid post,
    rest = (mid ++ post)%list /\ mt_start m = length (pre ++ mid) /\
    matches r (position (pre ++ mid) post) (mt_end m) /\
    forall mid' post' st', rest = (mid' ++ post')%list ->
      (length mid' < length mid)%nat ->
      ~ matches r (position (pre ++ mid') post') st'.
Proof.
  revert pre. induction rest as [|c rest IH]; intros pre; cbn [search_at].
  - destruct (match_at r (length pre) (last pre) []) as [m'|] eqn:Hm;
      [|discriminate].
    intros [= ->]. apply match_at_Some in Hm as [Hs Hm].
    exists [], []. rewrite (app_nil_r pre).
    split; [reflexivity|]. split; [exact Hs|]. split; [exact Hm|].
    intros mid' post' st' _ Hlt. cbn in Hlt. lia.
  - destruct (match_at r (length pre) (last pre) (c :: rest)) as [m'|] eqn:Hm.
    + intros [= ->]. apply match_at_Some in Hm as [Hs Hm].
      exists [], (c :: rest). rewrite (app_nil_r pre).
      split; [reflexivity|]. split; [exact Hs|]. split; [exact Hm|].
      intros mid' post' st' _ Hlt. cbn in Hlt. lia.
    + intros Hsearch. specialize (IH (pre ++ [c])%list).
      rewrite length_app, last_snoc in IH. cbn [length] in IH.
      rewrite Nat.add_1_r in IH.
      apply IH in Hsearch as (mid & post & -> & Hs & Hmt & Hfirst).
      exists (c :: mid), post. rewrite <- app_assoc in Hs, Hmt.
      split; [reflexivity|]. split; [exact Hs|]. split; [exact Hmt|].
      intros [|c' mid'] post' st' Heq Hlt; cbn in Heq.
      * subst post'. rewrite app_nil_r. by apply match_at_None.
      * injection Heq as <- Heq.
        replace (pre ++ c :: mid')%list with ((pre ++ [c]) ++ mid')%list
          by (by rewrite <- app_assoc).
        apply Hfirst; [exact Heq|cbn in Hlt; lia].
Qed.

Theorem search_Some (r : regex) (text : string) (m : rematch) :
  search r text = Some m ->
  exists pre post,
    chars text = (pre ++ post)%list /\ start m = length pre /\
    matches r (position pre post) (mt_end m) /\
    forall pre' post' st', chars text = (pre' ++ post')%list ->
      (length pre' < length pre)%nat ->
      ~ matches r (position pre' post') st'.
Proof.
  rewrite search_eq. intros Hm.
  apply (search_at_Some r [] (chars text)) in Hm. exact Hm.
Qed.

(** *** Literals and the tier pattern *)

Lemma matches_chr (c : ascii) (st st' : mstate) :
  matches (chr c) st st' <->
  exists rest, m_rest st = c :: rest /\
    st' = MState (S (m_pos st)) (Some c) rest (m_caps st).
Proof.
  unfold chr. cbn [matches]. split.
  - intros (c' & rest & Hrest & Heq & ->).
    apply Ascii.eqb_eq in Heq as <-. eauto.
  - intros (rest & Hrest & ->). exists c, rest.
    by rewrite Ascii.eqb_refl.
Qed.

Lemma matches_chars (w : list ascii) (st st' : mstate) :
  w <> [] ->
  matches (seq (map chr w)) st st' <->
  exists rest, m_rest st = (w ++ rest)%list /\
    st' = MState (m_pos st + length w) (last w) rest (m_caps st).
Proof.
  revert st. induction w as [|c w IH]; intros st Hne; [done|].
  destruct w as [|c' w].
  - cbn [map seq]. rewrite matches_chr. cbn. rewrite Nat.add_1_r. done.
  - change (seq (map chr (c :: c' :: w)))
      with (Cat (chr c) (seq (map chr (c' :: w)))).
    cbn [matches]. split.
    + intros (st1 & H1 & H2). apply matches_chr in H1 as (rest1 & Hrest & ->).
      apply IH in H2 as (rest & Hrest1 & ->); [|done]. cbn in Hrest1.
      exists rest. rewrite Hrest, Hrest1. split; [done|].
      cbn [m_pos m_caps length]. f_equal. lia.
    + intros (rest & Hrest & ->).
      exists (MState (S (m_pos st)) (Some c) (c' :: w ++ rest) (m_caps st)).
      split; [apply matches_chr; eauto|].
      apply IH; [done|]. exists rest. split; [done|].
      cbn [m_pos m_caps length]. f_equal. lia.
Qed.

Lemma chars_length (w : string) : length (chars w) = String.length w.
Proof. induction w as [|c w IH]; cbn; [reflexivity|by rewrite <- IH]. Qed.

Lemma matches_lit (w : string) (st st' : mstate) :
  w <> "" ->
  matches (lit w) st st' <->
  exists rest, m_rest st = (chars w ++ rest)%list /\
    st' = MState (m_pos st + String.length w) (last (chars w)) rest
            (m_caps st).
Proof.
  intros Hne. unfold lit. rewrite matches_chars.
  - by rewrite chars_length.
  - destruct w; [done|discriminate].
Qed.



(** ** The catalog *)

Lemma ALLOWED_RI_COLS_eq :
  ALLOWED_RI_COLS = [
    "RI_Agriculture"; "RI_Construction_Renovation";
    "RI_ECO_liable_to_deduct_TCS_u_s_52"; "RI_ECO_liable_to_pay_GST_u_s_9_5";
    "RI_Education"; "RI_Entertainment_Media"; "RI_Finance_Legal_Insurance";
    "RI_Food_Hospitality_Tourism_Beverage"; "RI_Government";
    "RI_HR_Administrative_Consulting";
    "RI_Health_Social_Welfare_Pharmaceutical"; "RI_Households";
    "RI_IT_Communication_Marketing"; "RI_Manufacturing_Maintenance";
    "RI_Mining_Quarrying"; "RI_NGO"; "RI_Other_Services"; "RI_Real_Estate";
    "RI_Science_Technology"; "RI_Transportation_Logistics";
    "RI_Utilities_Energy_Water_supply"; "RI_Wholesale_Retail"
  ].
Proof. vm_compute. reflexivity. Qed.

(** The subscriptions that build [ALLOWED_RI_COLS] all succeed. *)
Lemma ALLOWED_RI_COLS_lookups :
  Forall (fun lab => is_Some (ALLOWED_LABEL_TO_RI_COL !! lab)) ALLOWED_INDUSTRIES.
Proof.
  apply Forall_forall. intros lab Hlab.
  apply (bool_decide_unpack _).
  revert lab Hlab. apply Forall_forall.
  apply (bool_decide_unpack _). vm_compute. reflexivity.
Qed.

Lemma ALLOWED_RI_COLS_slugs :
  ALLOWED_RI_COLS = map make_safe_ri_column ALLOWED_INDUSTRIES.
Proof. vm_compute. reflexivity. Qed.

Lemma ALLOWED_RI_COLS_length : length ALLOWED_RI_COLS = 22%nat.
Proof. rewrite ALLOWED_RI_COLS_eq. reflexivity. Qed.

Lemma ALLOWED_RI_COLS_NoDup : NoDup ALLOWED_RI_COLS.
Proof.
  rewrite ALLOWED_RI_COLS_eq.
  apply (bool_decide_unpack _). vm_compute. reflexivity.
Qed.

(** ** Claim C6 *)

(** C6: on the text "Acme Corp Gold 12 References 5 Certified Experts 40 %
    Springfield Average Project: $5k", [parse_partner_text] returns a draft
    with Partner Name "Acme Corp", Tier "Gold", Location "Springfield",
    References the digits "12", that is the number 12, and Certified Experts
    the digit "5", that is the number 5. *)
Theorem parse_partner_text_acme :
  parse_partner_text acme_text =
    Some (dict_of [
      ("Partner Name", CStr "Acme Corp");
      ("Tier", CStr "Gold");
      ("Location", CStr "Springfield");
      ("References", CStr "12");
      ("Certified Experts", CStr "5")
    ])
  /\ int "12" = 12 /\ int "5" = 5.
Proof.
  split; [|split]; compute_done.
Qed.

(** ** Claim C2 *)

(** C2, counterexample: slugifying is not idempotent. The identifier of the
    catalog label "Agriculture" is "RI_Agriculture", and slugifying that
    identifier gives "RI_RI_Agriculture". *)
Lemma make_safe_ri_column_not_idempotent :
  "Agriculture" ∈ ALLOWED_INDUSTRIES /\
  make_safe_ri_column "Agriculture" = "RI_Agriculture" /\
  make_safe_ri_column (make_safe_ri_column "Agriculture") = "RI_RI_Agriculture" /\
  make_safe_ri_column (make_safe_ri_column "Agriculture")
    <> make_safe_ri_column "Agriculture".
Proof. repeat split; compute_done. Qed.

(** C2, amended: [make_safe_ri_column] is injective on the 22 catalog
    labels, and slugifying the identifier of a catalog label leaves the
    identifier as it is but for one more "RI_" prefix in front. *)
Theorem make_safe_ri_column_catalog (a b : string) :
  a ∈ ALLOWED_INDUSTRIES -> b ∈ ALLOWED_INDUSTRIES ->
  (make_safe_ri_column a = make_safe_ri_column b -> a = b) /\
  make_safe_ri_column (make_safe_ri_column a) = "RI_" ++ make_safe_ri_column a.
Proof.
  intros Ha Hb.
  assert (Hall : Forall (fun a =>
            Forall (fun b => make_safe_ri_column a = make_safe_ri_column b
                             -> a = b) ALLOWED_INDUSTRIES /\
            make_safe_ri_column (make_safe_ri_column a)
              = "RI_" ++ make_safe_ri_column a) ALLOWED_INDUSTRIES)
    by compute_done.
  rewrite Forall_forall in Hall. destruct (Hall a Ha) as [Hinj Hre].
  rewrite Forall_forall in Hinj. split; [exact (Hinj b Hb) | exact Hre].
Qed.

Lemma make_safe_ri_column_catalog_witness :
  (make_safe_ri_column "NGO" = make_safe_ri_column "Education"
     -> "NGO" = "Education") /\
  make_safe_ri_column (make_safe_ri_column "NGO")
    = "RI_" ++ make_safe_ri_column "NGO".
Proof.
  apply (make_safe_ri_column_catalog "NGO" "Education"); compute_done.
Defined.

(** ** Claim C3 *)

(** The draft dictionary, read key by key. *)
Lemma draft_lookup (name tier location refs experts : cell) :
  let d := dict_of [("Partner Name", name); ("Tier", tier);
                    ("Location", location); ("References", refs);
                    ("Certified Experts", experts)] in
  d !! "Partner Name" = Some name /\ d !! "Tier" = Some tier /\
  d !! "Location" = Some location /\ d !! "References" = Some refs /\
  d !! "Certified Experts" = Some experts.
Proof.
  unfold dict_of; simpl. repeat split; by simplify_map_eq.
Qed.

(** The result of [parse_partner_text], when it is a draft, in terms of the
    fields read from the normalised text. *)
Lemma parse_partner_text_Some (text : string) (d : gmap string cell) :
  parse_partner_text text = Some d ->
  exists m_tier,
    search TIER_RE (normalize text) = Some m_tier /\
    d = dict_of [
      ("Partner Name", CStr (name_of (normalize text) m_tier));
      ("Tier", CStr (group (normalize text) m_tier 1));
      ("Location", CStr (location_of (normalize text)));
      ("References", CStr (refs_of (normalize text)));
      ("Certified Experts", CStr (experts_of (normalize text)))
    ].
Proof.
  unfold parse_partner_text.
  destruct (search TIER_RE (normalize text)) as [m_tier|]; [|discriminate].
  destruct (_ || _); [discriminate|].
  destruct (_ && _); [discriminate|].
  intros [= <-]. exists m_tier. split; reflexivity.
Qed.

(** C3, counterexample: on "Acme Gold 12 References" the location pattern
    finds nothing and a draft is returned; its Location is "N/A", not
    "unknown". *)
Lemma location_sentinel_not_unknown :
  search LOC_RE (normalize "Acme Gold 12 References") = None /\
  exists d,
    parse_partner_text "Acme Gold 12 References" = Some d /\
    d !! "Location" = Some (CStr "N/A") /\
    d !! "Location" <> Some (CStr "unknown").
Proof.
  split; [vm_compute; reflexivity|].
  exists (dict_of [("Partner Name", CStr "Acme"); ("Tier", CStr "Gold");
                   ("Location", CStr "N/A"); ("References", CStr "12");
                   ("Certified Experts", CStr "0")]).
  repeat split; compute_done.
Qed.

(** C3, amended: when the normalised text has no location segment between a
    percent sign and "Average Project:", the Location of the draft that
    [parse_partner_text] returns is the string "N/A". *)
Theorem location_default (text : string) (d : gmap string cell) :
  search LOC_RE (normalize text) = None ->
  parse_partner_text text = Some d ->
  d !! "Location" = Some (CStr "N/A").
Proof.
  intros Hloc Hd.
  destruct (parse_partner_text_Some _ _ Hd) as (m_tier & _ & ->).
  unfold location_of. rewrite Hloc.
  apply draft_lookup.
Qed.

Lemma location_default_witness :
  dict_of [("Partner Name", CStr "Acme"); ("Tier", CStr "Gold");
           ("Location", CStr "N/A"); ("References", CStr "12");
           ("Certified Experts", CStr "0")] !! "Location"
    = Some (CStr "N/A").
Proof.
  apply (location_default "Acme Gold 12 References").
  - vm_compute. reflexivity.
  - compute_done.
Defined.

(** ** Claim C10 *)

(** C10: with no profile URL, [None] or the empty string,
    [fetch_profile_extras] returns the default extras and leaves the log of
    requests and sleeps as it was: no fetch is attempted. The default
    extras are the empty Certified Versions, the four numeric extras absent,
    the empty Reference Industries and 0 in each of the 22 industry columns,
    and nothing else. *)
Theorem fetch_profile_extras_no_url (web : string -> response) (sleep_s : Z)
    (log : list event) :
  fetch_profile_extras web None sleep_s log = (default_extras, log) /\
  fetch_profile_extras web (Some "") sleep_s log = (default_extras, log) /\
  default_extras !! "Certified Versions" = Some (CStr "") /\
  default_extras !! "References Total" = Some CNone /\
  default_extras !! "Customer Retention %" = Some CNone /\
  default_extras !! "Largest Reference Users" = Some CNone /\
  default_extras !! "Average Reference Users" = Some CNone /\
  default_extras !! "Reference Industries" = Some (CStr "") /\
  Forall (fun col => default_extras !! col = Some (CInt 0)) ALLOWED_RI_COLS /\
  length ALLOWED_RI_COLS = 22%nat /\
  size default_extras = 28%nat.
Proof.
  split; [reflexivity|]. split; [reflexivity|].
  repeat split; compute_done.
Qed.

(** ** Insertion-ordered dictionaries *)

Lemma od_get_set_eq (d : odict) (k : string) (v : Z) :
  od_get (od_set d k v) k = Some v.
Proof.
  induction d as [|[k' v'] d IH]; simpl.
  - by rewrite String.eqb_refl.
  - destruct (String.eqb_spec k k') as [->|Hne]; simpl.
    + by rewrite String.eqb_refl.
    + destruct (String.eqb_spec k k'); [done|exact IH].
Qed.

Lemma od_get_set_ne (d : odict) (k k' : string) (v : Z) :
  k <> k' -> od_get (od_set d k v) k' = od_get d k'.
Proof.
  intros Hne. induction d as [|[k0 v0] d IH]; simpl.
  - destruct (String.eqb_spec k' k); [congruence|done].
  - destruct (String.eqb_spec k k0) as [->|Hk]; simpl.
    + destruct (String.eqb_spec k' k0); [congruence|done].
    + destruct (String.eqb_spec k' k0); [done|exact IH].
Qed.

Lemma od_get_None_keys (d : odict) (k : string) :
  od_get d k = None <-> k ∉ map fst d.
Proof.
  induction d as [|[k' v'] d IH]; simpl.
  - split; [intros _; apply not_elem_of_nil|done].
  - rewrite not_elem_of_cons.
    destruct (String.eqb_spec k k') as [->|Hne].
    + split; [discriminate|intros [? _]; congruence].
    + rewrite IH. tauto.
Qed.

Lemma od_set_keys (d : odict) (k : string) (v : Z) :
  map fst (od_set d k v) =
    match od_get d k with
    | Some _ => map fst d
    | None => (map fst d ++ [k])%list
    end.
Proof.
  induction d as [|[k' v'] d IH]; simpl; [done|].
  destruct (String.eqb_spec k k') as [->|Hne]; simpl; [done|].
  rewrite IH. by destruct (od_get d k).
Qed.

Lemma od_set_NoDup (d : odict) (k : string) (v : Z) :
  NoDup (map fst d) -> NoDup (map fst (od_set d k v)).
Proof.
  intros Hd. rewrite od_set_keys.
  destruct (od_get d k) eqn:Hget; [done|].
  apply NoDup_app. split; [done|]. split.
  - intros x Hx Hk. apply list_elem_of_singleton in Hk as ->.
    by apply od_get_None_keys in Hget.
  - apply NoDup_singleton.
Qed.

(** ** The loop over the matches of the industries pattern *)

Lemma counts_of_cons (lab n l : string) (found : list (string * string)) :
  counts_of lab ((n, l) :: found) =
    if decide (l = lab) then int n :: counts_of lab found
    else counts_of lab found.
Proof.
  unfold counts_of. rewrite filter_cons. simpl.
  destruct (decide (l = lab)); reflexivity.
Qed.

Lemma counts_of_nil (lab : string) (found : list (string * string)) :
  counts_of lab found = [] <-> lab ∉ map snd found.
Proof.
  induction found as [|[n l] found IH].
  - split; [intros _; apply not_elem_of_nil|done].
  - rewrite counts_of_cons. simpl. rewrite not_elem_of_cons.
    destruct (decide (l = lab)) as [->|Hne].
    + split; [discriminate|intros [? _]; congruence].
    + rewrite IH. split; [intros ?; split; congruence|tauto].
Qed.

Lemma fold_max_ge (cs : list Z) (c : Z) : c <= fold_left Z.max cs c.
Proof.
  revert c. induction cs as [|x cs IH]; intros c; simpl; [lia|].
  specialize (IH (Z.max c x)). lia.
Qed.

Lemma fold_max_is_max (cs : list Z) (c : Z) :
  is_max (fold_left Z.max cs c) (c :: cs).
Proof.
  revert c. induction cs as [|x cs IH]; intros c; simpl.
  - split; [left|]. repeat constructor. lia.
  - destruct (IH (Z.max c x)) as [Hin Hall]. split.
    + apply elem_of_cons in Hin as [Heq|Hin].
      * rewrite Heq. destruct (Z.max_spec c x) as [[_ ->]|[_ ->]];
          [right; left|left].
      * right; right; exact Hin.
    + apply Forall_cons in Hall as [Hm Hall].
      constructor; [lia|]. constructor; [lia|exact Hall].
Qed.

(** What the loop leaves in [dedup] for a label, when it starts from the
    dictionary [d]. *)
Lemma dedup_fold_get (found : list (string * string)) (d : odict)
    (o : list string) (lab : string) :
  od_get (fst (fold_left dedup_step found (d, o))) lab =
    match od_get d lab with
    | Some v => Some (fold_left Z.max (counts_of lab found) v)
    | None =>
        match counts_of lab found with
        | [] => None
        | c :: cs => Some (fold_left Z.max cs c)
        end
    end.
Proof.
  revert d o. induction found as [|[n l] found IH]; intros d o.
  - simpl. by destruct (od_get d lab).
  - rewrite counts_of_cons. cbn [fold_left dedup_step].
    destruct (od_get d l) as [old|] eqn:Hl; rewrite IH.
    + destruct (decide (l = lab)) as [->|Hne].
      * rewrite od_get_set_eq, Hl. reflexivity.
      * rewrite od_get_set_ne by done. reflexivity.
    + destruct (decide (l = lab)) as [->|Hne].
      * rewrite od_get_set_eq, Hl. reflexivity.
      * rewrite od_get_set_ne by done. reflexivity.
Qed.

(** [order] lists the keys of [dedup], and the keys stay distinct. *)
Lemma dedup_fold_keys (found : list (string * string)) (d : odict)
    (o : list string) :
  o = map fst d -> NoDup (map fst d) ->
  let r := fold_left dedup_step found (d, o) in
  snd r = map fst (fst r) /\ NoDup (map fst (fst r)).
Proof.
  revert d o. induction found as [|[n l] found IH]; intros d o Ho Hnd.
  - simpl. done.
  - cbn [fold_left dedup_step].
    destruct (od_get d l) as [old|] eqn:Hl; apply IH.
    + rewrite od_set_keys, Hl. exact Ho.
    + by apply od_set_NoDup.
    + rewrite od_set_keys, Hl, Ho. reflexivity.
    + by apply od_set_NoDup.
Qed.

Lemma filter_filter_and (P Q : string -> Prop) `{!forall x, Decision (P x)}
    `{!forall x, Decision (Q x)} (l : list string) :
  filter P (filter Q l) = filter (fun x => P x /\ Q x) l.
Proof.
  induction l as [|x l IH]; [done|].
  rewrite (filter_cons Q), (filter_cons (fun x => P x /\ Q x)).
  destruct (decide (Q x)) as [HQ|HQ].
  - rewrite filter_cons. destruct (decide (P x)) as [HP|HP].
    + rewrite decide_True by done. by rewrite IH.
    + rewrite decide_False by tauto. exact IH.
  - rewrite decide_False by tauto. exact IH.
Qed.

Lemma filter_ext_in (P Q : string -> Prop) `{!forall x, Decision (P x)}
    `{!forall x, Decision (Q x)} (l : list string) :
  (forall x, P x <-> Q x) -> filter P l = filter Q l.
Proof.
  intros HPQ. induction l as [|x l IH]; [done|].
  rewrite !filter_cons, IH.
  destruct (decide (P x)) as [HP|HP].
  - rewrite decide_True by (by apply HPQ). done.
  - rewrite decide_False by (by rewrite <- HPQ). done.
Qed.

(** The labels the loop appends to [order] are the first occurrences of the
    labels that are not keys yet. *)
Lemma dedup_fold_order (found : list (string * string)) (d : odict)
    (o : list string) :
  o = map fst d ->
  snd (fold_left dedup_step found (d, o)) =
    (o ++ filter (fun x => x ∉ o) (first_seen (map snd found)))%list.
Proof.
  revert d o. induction found as [|[n l] found IH]; intros d o Ho.
  - simpl. by rewrite app_nil_r.
  - cbn [fold_left dedup_step map snd first_seen].
    rewrite filter_cons.
    destruct (od_get d l) as [old|] eqn:Hl.
    + assert (Hin : l ∈ o).
      { destruct (decide (l ∈ o)) as [|Hout]; [done|].
        rewrite Ho in Hout. apply od_get_None_keys in Hout. congruence. }
      rewrite decide_False by tauto.
      rewrite (IH _ o) by (rewrite od_set_keys, Hl; exact Ho).
      f_equal. rewrite filter_filter_and. apply filter_ext_in.
      intros x. split; [|tauto]. intros Hx. split; [done|congruence].
    + assert (Hout : l ∉ o).
      { rewrite Ho. by apply od_get_None_keys. }
      rewrite decide_True by done.
      rewrite (IH _ (o ++ [l])%list)
        by (rewrite od_set_keys, Hl, Ho; reflexivity).
      rewrite <- app_assoc. simpl. do 2 f_equal.
      rewrite filter_filter_and. apply filter_ext_in.
      intros x. rewrite not_elem_of_app, list_elem_of_singleton. tauto.
Qed.

(** The loop, from the empty dictionary. *)
Lemma dedup_loop_spec (found : list (string * string)) :
  snd (dedup_loop found) = first_seen (map snd found) /\
  snd (dedup_loop found) = map fst (fst (dedup_loop found)) /\
  NoDup (map fst (fst (dedup_loop found))) /\
  (forall lab, lab ∈ map snd found ->
     od_get (fst (dedup_loop found)) lab = Some (max_count lab found)) /\
  (forall lab, lab ∉ map snd found ->
     od_get (fst (dedup_loop found)) lab = None).
Proof.
  assert (Hk : snd (dedup_loop found) = map fst (fst (dedup_loop found)) /\
               NoDup (map fst (fst (dedup_loop found))))
    by (apply (dedup_fold_keys found [] []); [done|apply NoDup_nil_2]).
  assert (Ho : snd (dedup_loop found) =
               filter (fun x => x ∉ []) (first_seen (map snd found)))
    by (apply (dedup_fold_order found [] []); done).
  assert (Hg : forall lab, od_get (fst (dedup_loop found)) lab =
                 match counts_of lab found with
                 | [] => None
                 | c :: cs => Some (fold_left Z.max cs c)
                 end)
    by (intros lab; apply (dedup_fold_get found [] [] lab)).
  destruct Hk as [Hk Hnd].
  split; [|split; [exact Hk|split; [exact Hnd|split]]].
  - rewrite Ho. clear. induction (first_seen (map snd found)) as [|x l IH];
      [done|].
    rewrite filter_cons, decide_True by apply not_elem_of_nil. by f_equal.
  - intros lab Hlab. rewrite Hg. unfold max_count.
    destruct (counts_of lab found) eqn:Hc; [|done].
    by apply counts_of_nil in Hc.
  - intros lab Hlab. rewrite Hg.
    apply counts_of_nil in Hlab. by rewrite Hlab.
Qed.

(** [max_count] is the maximum of the counts found with the label. *)
Lemma max_count_is_max (lab : string) (found : list (string * string)) :
  lab ∈ map snd found -> is_max (max_count lab found) (counts_of lab found).
Proof.
  intros Hlab. unfold max_count.
  destruct (counts_of lab found) as [|c cs] eqn:Hc.
  - by apply counts_of_nil in Hc.
  - apply fold_max_is_max.
Qed.

(** ** The label-to-column dictionary *)

Lemma label_col_catalog (lab : string) :
  lab ∈ ALLOWED_INDUSTRIES ->
  ALLOWED_LABEL_TO_RI_COL !! lab = Some (make_safe_ri_column lab) /\
  make_safe_ri_column lab <> "" /\
  make_safe_ri_column lab ∈ ALLOWED_RI_COLS.
Proof.
  revert lab. apply Forall_forall. compute_done.
Qed.

Lemma label_col_inv (lab col : string) :
  ALLOWED_LABEL_TO_RI_COL !! lab = Some col ->
  lab ∈ ALLOWED_INDUSTRIES /\ col = make_safe_ri_column lab.
Proof.
  revert lab col.
  change (map_Forall (fun lab col => lab ∈ ALLOWED_INDUSTRIES /\
                                     col = make_safe_ri_column lab)
            ALLOWED_LABEL_TO_RI_COL).
  compute_done.
Qed.

Lemma make_safe_ri_column_inj (a b : string) :
  a ∈ ALLOWED_INDUSTRIES -> b ∈ ALLOWED_INDUSTRIES ->
  make_safe_ri_column a = make_safe_ri_column b -> a = b.
Proof.
  intros Ha Hb. revert b Hb. revert a Ha.
  apply (Forall_forall (fun a => forall b, b ∈ ALLOWED_INDUSTRIES ->
           make_safe_ri_column a = make_safe_ri_column b -> a = b)).
  assert (Hall : Forall (fun a =>
            Forall (fun b => make_safe_ri_column a = make_safe_ri_column b
                             -> a = b) ALLOWED_INDUSTRIES) ALLOWED_INDUSTRIES)
    by compute_done.
  eapply Forall_impl; [exact Hall|]. simpl. intros a Ha b Hb.
  rewrite Forall_forall in Ha. by apply Ha.
Qed.

Lemma default_extras_dom :
  dom default_extras = list_to_set (extras_keys ++ ALLOWED_RI_COLS).
Proof. compute_done. Qed.

Lemma ri_cols_facts (col : string) :
  col ∈ ALLOWED_RI_COLS ->
  (col ∉ extras_keys) /\ (col ∉ base_cols) /\
  default_extras !! col = Some (CInt 0) /\
  exists lab, lab ∈ ALLOWED_INDUSTRIES /\ col = make_safe_ri_column lab.
Proof.
  intros Hcol. split; [|split; [|split]].
  - revert col Hcol. apply Forall_forall. compute_done.
  - revert col Hcol. apply Forall_forall. compute_done.
  - revert col Hcol. apply Forall_forall. compute_done.
  - rewrite ALLOWED_RI_COLS_slugs in Hcol.
    apply list_elem_of_fmap in Hcol as (lab & -> & Hlab). eauto.
Qed.

(** ** Filling the industry columns *)

Lemma fill_ri_step_other (extras : gmap string cell) (item : string * Z)
    (k : string) :
  (forall lab, lab ∈ ALLOWED_INDUSTRIES -> fst item = lab ->
               k <> make_safe_ri_column lab) ->
  fill_ri_step extras item !! k = extras !! k.
Proof.
  destruct item as [lab cnt]. unfold fill_ri_step. cbn [fst]. intros Hk.
  destruct (ALLOWED_LABEL_TO_RI_COL !! lab) as [col|] eqn:Hcol; [|done].
  apply label_col_inv in Hcol as [Hlab ->].
  destruct (_ =? ""); [done|].
  rewrite lookup_insert_ne; [done|]. intros Heq. by apply (Hk lab).
Qed.

Lemma fill_ri_other (dedup : odict) (extras : gmap string cell) (k : string) :
  (forall lab, lab ∈ ALLOWED_INDUSTRIES -> lab ∈ map fst dedup ->
               k <> make_safe_ri_column lab) ->
  fill_ri extras dedup !! k = extras !! k.
Proof.
  unfold fill_ri. revert extras.
  induction dedup as [|item dedup IH]; intros extras Hk; [done|].
  cbn [fold_left]. rewrite IH.
  - apply fill_ri_step_other. intros lab Hlab Hfst.
    apply Hk; [done|]. rewrite <- Hfst. left.
  - intros lab Hlab Hin. apply Hk; [done|]. by right.
Qed.

(** The column of a catalog label after the loop over [dedup.items()]. *)
Lemma fill_ri_lookup (dedup : odict) (extras : gmap string cell)
    (lab : string) :
  NoDup (map fst dedup) -> lab ∈ ALLOWED_INDUSTRIES ->
  fill_ri extras dedup !! make_safe_ri_column lab =
    match od_get dedup lab with
    | Some v => Some (CInt v)
    | None => extras !! make_safe_ri_column lab
    end.
Proof.
  intros Hnd Hlab. unfold fill_ri. revert extras Hnd.
  induction dedup as [|[l cnt] dedup IH]; intros extras Hnd; [done|].
  cbn [map fst] in Hnd. apply NoDup_cons in Hnd as [Hl Hnd].
  cbn [fold_left od_get].
  destruct (String.eqb_spec lab l) as [<-|Hne].
  - change (fold_left fill_ri_step dedup ?e) with (fill_ri e dedup).
    rewrite fill_ri_other.
    + unfold fill_ri_step.
      destruct (label_col_catalog lab Hlab) as (-> & Hne & _).
      destruct (String.eqb_spec (make_safe_ri_column lab) ""); [done|].
      by rewrite lookup_insert_eq.
    + intros l' Hl' Hin Heq.
      apply make_safe_ri_column_inj in Heq; [|done..]. congruence.
  - rewrite IH by done.
    destruct (od_get dedup lab); [done|].
    apply fill_ri_step_other. cbn [fst]. intros l' Hl' -> Heq.
    apply make_safe_ri_column_inj in Heq; [|done..]. congruence.
Qed.

Lemma fill_ri_dom (dedup : odict) (extras : gmap string cell) :
  list_to_set ALLOWED_RI_COLS ⊆ dom extras ->
  dom (fill_ri extras dedup) = dom extras.
Proof.
  unfold fill_ri. revert extras.
  induction dedup as [|[l cnt] dedup IH]; intros extras Hsub; [done|].
  cbn [fold_left]. unfold fill_ri_step at 2.
  destruct (ALLOWED_LABEL_TO_RI_COL !! l) as [col|] eqn:Hcol; [|by apply IH].
  destruct (_ =? ""); [by apply IH|].
  apply label_col_inv in Hcol as [Hl ->].
  assert (Hin : make_safe_ri_column l ∈ dom extras).
  { apply Hsub, elem_of_list_to_set. by apply label_col_catalog. }
  rewrite IH.
  - rewrite dom_insert_L.
    apply subseteq_union_1_L, singleton_subseteq_l, Hin.
  - rewrite dom_insert_L. etrans; [exact Hsub|apply union_subseteq_r].
Qed.

(** ** The extras of a profile text *)

Lemma set_int_if_lookup_ne (r : regex) (key norm : string)
    (e : gmap string cell) (k : string) :
  key <> k -> set_int_if r key norm e !! k = e !! k.
Proof.
  intros Hne. unfold set_int_if.
  destruct (search r norm); [by rewrite lookup_insert_ne|done].
Qed.

Lemma set_int_if_dom (r : regex) (key norm : string) (e : gmap string cell) :
  key ∈ dom e -> dom (set_int_if r key norm e) = dom e.
Proof.
  intros Hin. unfold set_int_if. destruct (search r norm); [|done].
  rewrite dom_insert_L. apply subseteq_union_1_L, singleton_subseteq_l, Hin.
Qed.

Lemma first_seen_elem (l : list string) (x : string) :
  x ∈ first_seen l -> x ∈ l.
Proof.
  induction l as [|y l IH]; simpl; [done|].
  rewrite !elem_of_cons, list_elem_of_filter. intros [->|[_ Hx]]; auto.
Qed.

Lemma reference_industries_render (found : list (string * string)) :
  reference_industries (fst (dedup_loop found)) (snd (dedup_loop found))
    = render_industries found.
Proof.
  destruct (dedup_loop_spec found) as (Ho & _ & _ & Hget & _).
  unfold reference_industries, render_industries. rewrite Ho. f_equal.
  apply map_ext_in. intros lab Hlab. apply list_elem_of_In in Hlab.
  rewrite (Hget lab); [done|]. by apply first_seen_elem.
Qed.

(** The shape of [extract_extras]: the extras [pre] after lines 182-216,
    which differ from the defaults in five keys at most, then the
    industries. *)
Lemma extract_extras_shape (norm : string) :
  exists pre : gmap string cell,
    (forall k, k ∉ ["Certified Versions"; "References Total";
                    "Customer Retention %"; "Largest Reference Users";
                    "Average Reference Users"] ->
               pre !! k = default_extras !! k) /\
    dom pre = dom default_extras /\
    (search TOTAL_RE norm = None -> pre !! "References Total" = Some CNone) /\
    extract_extras norm =
      match industries_found norm with
      | [] => pre
      | found =>
          fill_ri (<["Reference Industries" := CStr (render_industries found)]>
                     pre)
                  (fst (dedup_loop found))
      end.
Proof.
  unfold extract_extras, industries_found.
  set (e0 := match findall2 CERT_RE norm with
             | [] => default_extras
             | _ => <["Certified Versions" := _]> default_extras
             end).
  set (pre := set_int_if (SIZES_RE "Average") _ norm _).
  exists pre. split; [|split; [|split]].
  - intros k Hk. unfold pre.
    rewrite !not_elem_of_cons in Hk.
    destruct Hk as (H1 & H2 & H3 & H4 & H5 & _).
    rewrite !set_int_if_lookup_ne by congruence.
    unfold e0. destruct (findall2 CERT_RE norm); [done|].
    rewrite lookup_insert_ne by congruence. done.
  - assert (He0 : dom e0 = dom default_extras).
    { unfold e0. destruct (findall2 CERT_RE norm); [done|].
      rewrite dom_insert_L. apply subseteq_union_1_L, singleton_subseteq_l.
      compute_done. }
    assert (Hkeys : Forall (fun k => k ∈ dom default_extras) extras_keys)
      by compute_done.
    rewrite Forall_forall in Hkeys.
    assert (Hstep : forall r key (e : gmap string cell),
              key ∈ extras_keys -> dom e = dom default_extras ->
              dom (set_int_if r key norm e) = dom default_extras).
    { intros r key e Hkey He. rewrite set_int_if_dom; [exact He|].
      rewrite He. by apply Hkeys. }
    unfold pre. repeat (apply Hstep; [compute_done|]). exact He0.
  - intros Hnone. unfold pre.
    rewrite !set_int_if_lookup_ne by congruence.
    unfold set_int_if at 1. rewrite Hnone.
    unfold e0. destruct (findall2 CERT_RE norm); [compute_done|].
    rewrite lookup_insert_ne by congruence. compute_done.
  - destruct (search TOTAL_RE norm) as [m_total|]; [|done].
    destruct (findall2 INDUSTRY_RE (industries_block norm m_total))
      as [|m found] eqn:Hfound; [done|].
    rewrite <- reference_industries_render.
    destruct (dedup_loop (m :: found)) as [dedup order]. reflexivity.
Qed.

Lemma max_count_not_found (lab : string) (found : list (string * string)) :
  lab ∉ map snd found -> max_count lab found = 0.
Proof.
  intros Hlab. apply counts_of_nil in Hlab. unfold max_count. by rewrite Hlab.
Qed.

(** The industry column of a catalog label holds the greatest count found
    with the label, 0 when the label is not found. *)
Lemma extract_extras_ri (norm lab : string) :
  lab ∈ ALLOWED_INDUSTRIES ->
  extract_extras norm !! make_safe_ri_column lab =
    Some (CInt (max_count lab (industries_found norm))).
Proof.
  intros Hlab.
  destruct (extract_extras_shape norm) as (pre & Hpre & _ & _ & ->).
  destruct (label_col_catalog lab Hlab) as (_ & _ & Hcol).
  destruct (ri_cols_facts _ Hcol) as (Hkeys & _ & Hdef & _).
  assert (Hpre_col : pre !! make_safe_ri_column lab = Some (CInt 0)).
  { rewrite Hpre; [done|]. intros Hin. apply Hkeys.
    unfold extras_keys. rewrite !elem_of_cons in Hin. rewrite !elem_of_cons.
    tauto. }
  destruct (industries_found norm) as [|m found] eqn:Hfound; [done|].
  destruct (dedup_loop_spec (m :: found)) as (_ & _ & Hnd & Hget & Hnone).
  rewrite (fill_ri_lookup _ _ lab Hnd Hlab).
  destruct (decide (lab ∈ map snd (m :: found))) as [Hin|Hout].
  - by rewrite (Hget lab Hin).
  - rewrite (Hnone lab Hout), max_count_not_found by done.
    rewrite lookup_insert_ne; [done|].
    intros Heq. apply Hkeys. rewrite <- Heq. compute_done.
Qed.

Lemma extract_extras_industries (norm : string) :
  extract_extras norm !! "Reference Industries" =
    Some (CStr (render_industries (industries_found norm))).
Proof.
  destruct (extract_extras_shape norm) as (pre & Hpre & _ & _ & ->).
  destruct (industries_found norm) as [|m found] eqn:Hfound.
  - rewrite Hpre; compute_done.
  - rewrite fill_ri_other; [by rewrite lookup_insert_eq|].
    intros lab Hlab _ Heq.
    destruct (label_col_catalog lab Hlab) as (_ & _ & Hcol).
    destruct (ri_cols_facts _ Hcol) as (Hkeys & _).
    apply Hkeys. rewrite <- Heq. compute_done.
Qed.

Lemma ri_cols_in_default_dom :
  list_to_set ALLOWED_RI_COLS ⊆ dom default_extras.
Proof.
  rewrite default_extras_dom, list_to_set_app_L. apply union_subseteq_r.
Qed.

Lemma extract_extras_dom (norm : string) :
  dom (extract_extras norm) = list_to_set (extras_keys ++ ALLOWED_RI_COLS).
Proof.
  rewrite <- default_extras_dom.
  destruct (extract_extras_shape norm) as (pre & _ & Hdom & _ & ->).
  destruct (industries_found norm) as [|m found]; [done|].
  assert (Hin : "Reference Industries" ∈ dom default_extras) by compute_done.
  rewrite fill_ri_dom; rewrite dom_insert_L, Hdom.
  - apply subseteq_union_1_L, singleton_subseteq_l, Hin.
  - etrans; [apply ri_cols_in_default_dom|apply union_subseteq_r].
Qed.

(** ** Claim C4 *)

(** C4: when the pattern "References - <digits>" does not occur in the
    profile text, the extras have no References Total and 0 in each of the
    22 industry columns, whatever else the text holds. *)
Theorem no_anchor_no_industries (norm col : string) :
  search TOTAL_RE norm = None ->
  col ∈ ALLOWED_RI_COLS ->
  extract_extras norm !! "References Total" = Some CNone /\
  extract_extras norm !! col = Some (CInt 0).
Proof.
  intros Hnone Hcol. split.
  - destruct (extract_extras_shape norm) as (pre & _ & _ & Htot & ->).
    unfold industries_found. rewrite Hnone. by apply Htot.
  - destruct (ri_cols_facts _ Hcol) as (_ & _ & _ & lab & Hlab & ->).
    rewrite extract_extras_ri by done.
    unfold industries_found. rewrite Hnone. reflexivity.
Qed.

(** A text without the anchor in which "3 Agriculture" and "2 Education"
    occur. *)
Lemma no_anchor_no_industries_witness :
  findall2 INDUSTRY_RE "Acme 3 Agriculture 2 Education"
    = [("3", "Agriculture"); ("2", "Education")] /\
  extract_extras "Acme 3 Agriculture 2 Education" !! "References Total"
    = Some CNone /\
  extract_extras "Acme 3 Agriculture 2 Education" !! "RI_Agriculture"
    = Some (CInt 0).
Proof.
  split; [vm_compute; reflexivity|].
  apply (no_anchor_no_industries "Acme 3 Agriculture 2 Education"
           "RI_Agriculture").
  - vm_compute. reflexivity.
  - compute_done.
Defined.

(** ** Claim C5 *)

(** C5: for the matches of the industries pattern in the block after the
    anchor, the count recorded for a catalog label that matched, in
    [dedup] and in the label's column, is the maximum of the counts
    matched with it, and Reference Industries lists the distinct labels in
    the order of their first match, each as "<label> <count>" with that
    maximum, joined by blanks. *)
Theorem industries_max_first_seen (norm : string) (m_total : rematch)
    (lab : string) :
  search TOTAL_RE norm = Some m_total ->
  let found := findall2 INDUSTRY_RE (industries_block norm m_total) in
  lab ∈ ALLOWED_INDUSTRIES ->
  lab ∈ map snd found ->
  od_get (fst (dedup_loop found)) lab = Some (max_count lab found) /\
  is_max (max_count lab found) (counts_of lab found) /\
  extract_extras norm !! make_safe_ri_column lab
    = Some (CInt (max_count lab found)) /\
  snd (dedup_loop found) = first_seen (map snd found) /\
  extract_extras norm !! "Reference Industries" =
    Some (CStr (join " "
                  (map (fun l => l ++ " " ++ of_int (max_count l found))
                       (first_seen (map snd found))))).
Proof.
  intros Htotal found Hlab Hfound.
  assert (Hif : industries_found norm = found)
    by (unfold industries_found; rewrite Htotal; reflexivity).
  destruct (dedup_loop_spec found) as (Ho & _ & _ & Hget & _).
  split; [by apply Hget|]. split; [by apply max_count_is_max|].
  split; [by rewrite extract_extras_ri, Hif|]. split; [exact Ho|].
  rewrite extract_extras_industries, Hif. reflexivity.
Qed.

(** "Agriculture" matches with 2 and with 5: the count recorded is 5, not
    7, and the labels are listed in the order Agriculture, Education. *)
Lemma twice_agriculture_found :
  let found :=
    findall2 INDUSTRY_RE
      (industries_block twice_agriculture twice_agriculture_total) in
  found = [("2", "Agriculture"); ("1", "Education"); ("5", "Agriculture")] /\
  counts_of "Agriculture" found = [2; 5] /\
  max_count "Agriculture" found = 5 /\
  render_industries found = "Agriculture 5 Education 1".
Proof. cbv zeta. repeat split; vm_compute; reflexivity. Qed.

Lemma industries_max_first_seen_witness :
  let found :=
    findall2 INDUSTRY_RE
      (industries_block twice_agriculture twice_agriculture_total) in
  od_get (fst (dedup_loop found)) "Agriculture"
    = Some (max_count "Agriculture" found) /\
  is_max (max_count "Agriculture" found) (counts_of "Agriculture" found) /\
  extract_extras twice_agriculture !! make_safe_ri_column "Agriculture"
    = Some (CInt (max_count "Agriculture" found)) /\
  snd (dedup_loop found) = first_seen (map snd found) /\
  extract_extras twice_agriculture !! "Reference Industries" =
    Some (CStr (join " "
            (map (fun l => l ++ " " ++ of_int (max_count l found))
                 (first_seen (map snd found))))).
Proof.
  apply (industries_max_first_seen twice_agriculture twice_agriculture_total
           "Agriculture").
  - vm_compute. reflexivity.
  - compute_done.
  - compute_done.
Defined.

(** ** Rows and columns *)

Lemma dict_of_keyed_lookup {V : Type} (g : string -> V) (cols : list string)
    (d0 : gmap string V) (k : string) :
  fold_left (fun d kv => <[fst kv := snd kv]> d)
      (map (fun c => (c, g c)) cols) d0 !! k =
    if decide (k ∈ cols) then Some (g k) else d0 !! k.
Proof.
  revert d0. induction cols as [|c cols IH]; intros d0.
  - cbn [map fold_left]. rewrite decide_False by apply not_elem_of_nil. done.
  - cbn [map fold_left fst snd]. rewrite IH.
    destruct (decide (k ∈ cols)) as [Hin|Hout].
    + rewrite decide_True by (by right). done.
    + destruct (decide (k = c)) as [->|Hne].
      * rewrite decide_True by left. by rewrite lookup_insert_eq.
      * rewrite decide_False by (rewrite elem_of_cons; tauto).
        by rewrite lookup_insert_ne.
Qed.

Lemma reindex_row_lookup (cols : list string) (row : gmap string cell)
    (k : string) :
  reindex_row cols row !! k =
    if decide (k ∈ cols) then Some (at_col row k) else None.
Proof.
  unfold reindex_row, dict_of. rewrite dict_of_keyed_lookup.
  destruct (decide (k ∈ cols)); [done|apply lookup_empty].
Qed.

Lemma reindex_row_dom (cols : list string) (row : gmap string cell) :
  dom (reindex_row cols row) = list_to_set cols.
Proof.
  apply set_eq. intros k.
  rewrite elem_of_dom, reindex_row_lookup, elem_of_list_to_set.
  destruct (decide (k ∈ cols)); split; done.
Qed.

Lemma set_col_lookup (col : string) (f : cell -> cell)
    (row : gmap string cell) (k : string) :
  set_col col f row !! k =
    if decide (col = k) then Some (f (at_col row col)) else row !! k.
Proof. unfold set_col. apply lookup_insert. Qed.

Lemma set_col_dom (col : string) (f : cell -> cell) (row : gmap string cell) :
  col ∈ dom row -> dom (set_col col f row) = dom row.
Proof.
  intros Hin. unfold set_col. rewrite dom_insert_L.
  apply subseteq_union_1_L, singleton_subseteq_l, Hin.
Qed.

Lemma set_cols_lookup_notin (cols : list string) (f : cell -> cell)
    (row : gmap string cell) (k : string) :
  k ∉ cols -> set_cols cols f row !! k = row !! k.
Proof.
  unfold set_cols. revert row.
  induction cols as [|c cols IH]; intros row Hk; [done|].
  apply not_elem_of_cons in Hk as [Hne Hk]. cbn [fold_left].
  rewrite IH by done. rewrite set_col_lookup.
  by rewrite decide_False by congruence.
Qed.

Lemma set_cols_lookup_in (cols : list string) (f : cell -> cell)
    (row : gmap string cell) (k : string) :
  NoDup cols -> k ∈ cols ->
  set_cols cols f row !! k = Some (f (at_col row k)).
Proof.
  unfold set_cols. revert row.
  induction cols as [|c cols IH]; intros row Hnd Hk.
  - by apply elem_of_nil in Hk.
  - apply NoDup_cons in Hnd as [Hc Hnd]. cbn [fold_left].
    apply elem_of_cons in Hk as [->|Hk].
    + change (fold_left _ cols ?r) with (set_cols cols f r).
      rewrite set_cols_lookup_notin by done.
      rewrite set_col_lookup. by rewrite decide_True.
    + rewrite IH by done. f_equal. f_equal. unfold at_col.
      rewrite set_col_lookup. rewrite decide_False; [done|].
      intros ->. contradiction.
Qed.

Lemma set_cols_dom (cols : list string) (f : cell -> cell)
    (row : gmap string cell) :
  Forall (fun c => c ∈ dom row) cols -> dom (set_cols cols f row) = dom row.
Proof.
  unfold set_cols. revert row.
  induction cols as [|c cols IH]; intros row Hall; [done|].
  apply Forall_cons in Hall as [Hc Hall]. cbn [fold_left].
  rewrite IH; rewrite set_col_dom by exact Hc; [reflexivity|exact Hall].
Qed.

Lemma map_cols_rows (cols : list string) (f : cell -> cell) (df : DataFrame) :
  df_rows (map_cols cols f df) = map (set_cols cols f) (df_rows df) /\
  df_columns (map_cols cols f df) = df_columns df.
Proof.
  unfold map_cols, set_cols. revert df.
  induction cols as [|c cols IH]; intros df.
  - cbn [fold_left]. by rewrite map_id.
  - cbn [fold_left]. destruct (IH (map_col c f df)) as [-> ->].
    split; [|done]. unfold map_col. cbn [df_rows].
    rewrite map_map. done.
Qed.

Lemma at_col_reindex (cols : list string) (row : gmap string cell)
    (k : string) :
  k ∈ cols -> at_col (reindex_row cols row) k = at_col row k.
Proof.
  intros Hk. unfold at_col at 1. rewrite reindex_row_lookup.
  by rewrite decide_True.
Qed.

Lemma at_col_set_col_ne (col : string) (f : cell -> cell)
    (row : gmap string cell) (k : string) :
  col <> k -> at_col (set_col col f row) k = at_col row k.
Proof.
  intros Hne. unfold at_col. rewrite set_col_lookup.
  by rewrite decide_False.
Qed.

Lemma at_col_set_cols_notin (cols : list string) (f : cell -> cell)
    (row : gmap string cell) (k : string) :
  k ∉ cols -> at_col (set_cols cols f row) k = at_col row k.
Proof.
  intros Hk. unfold at_col. by rewrite set_cols_lookup_notin.
Qed.

Lemma filter_bool_cons {A : Type} (m : A -> bool) (x : A) (l : list A) :
  filter (fun r => m r = true) (x :: l) =
    if m x then x :: filter (fun r => m r = true) l
    else filter (fun r => m r = true) l.
Proof.
  rewrite filter_cons. destruct (m x).
  - by rewrite decide_True.
  - by rewrite decide_False.
Qed.

Lemma base_not_ri (k : string) : k ∈ base_cols -> k ∉ ALLOWED_RI_COLS.
Proof. intros Hb Hri. by apply ri_cols_facts in Hri as (_ & Hnb & _). Qed.

Lemma expected_cols_elem (k : string) :
  k ∈ expected_cols <-> k ∈ base_cols \/ k ∈ ALLOWED_RI_COLS.
Proof. unfold expected_cols. apply elem_of_app. Qed.

Lemma to_int_cases (parse_number : string -> option Z) (c : cell) :
  to_int parse_number c =
    CInt (match c with
          | CNone => 0
          | CInt n => n
          | CStr s => default 0 (parse_number s)
          end).
Proof. destruct c; reflexivity. Qed.

Section TableFacts.

Variable parse_number : string -> option Z.

#[local] Abbreviation normalise_row := (normalise_row parse_number).
#[local] Abbreviation coerce_row := (coerce_row parse_number).
#[local] Abbreviation to_int := (to_int parse_number).
#[local] Abbreviation to_num := (to_num parse_number).
#[local] Abbreviation clean_and_export := (clean_and_export parse_number).

(** *** One row through lines 337-350 *)

Lemma coerce_row_lookup_ri (row : gmap string cell) (col : string) :
  col ∈ ALLOWED_RI_COLS ->
  coerce_row row !! col = Some (to_int (at_col row col)).
Proof.
  intros Hcol. unfold coerce_row.
  rewrite set_cols_lookup_in by (exact Hcol || apply ALLOWED_RI_COLS_NoDup).
  apply ri_cols_facts in Hcol as (_ & Hnb & _).
  rewrite !at_col_set_cols_notin; [reflexivity|..];
    intros Hin; apply Hnb; revert Hin; unfold base_cols;
    rewrite !elem_of_cons; tauto.
Qed.

Lemma coerce_row_lookup_count (row : gmap string cell) (k : string) :
  k ∈ ["References"; "Certified Experts"] ->
  coerce_row row !! k = Some (to_int (at_col row k)).
Proof.
  intros Hk. unfold coerce_row.
  rewrite (set_cols_lookup_notin ALLOWED_RI_COLS).
  - rewrite (set_cols_lookup_notin (_ :: _ :: _ :: _)).
    + apply set_cols_lookup_in; [compute_done|exact Hk].
    + revert Hk. rewrite !elem_of_cons.
      intros [->|[->|[]%elem_of_nil]] Hin; revert Hin; compute_done.
  - apply base_not_ri. revert Hk. unfold base_cols. rewrite !elem_of_cons.
    tauto.
Qed.

Lemma coerce_row_lookup_other (row : gmap string cell) (k : string) :
  k ∈ ["Partner Name"; "Tier"; "Location"; "Profile URL";
       "Certified Versions"; "Reference Industries"] ->
  coerce_row row !! k = row !! k.
Proof.
  intros Hk. unfold coerce_row.
  rewrite !set_cols_lookup_notin; [reflexivity|..].
  - revert Hk. rewrite !elem_of_cons.
    intros [->|[->|[->|[->|[->|[->|[]%elem_of_nil]]]]]] Hin;
      revert Hin; compute_done.
  - revert Hk. rewrite !elem_of_cons.
    intros [->|[->|[->|[->|[->|[->|[]%elem_of_nil]]]]]] Hin;
      revert Hin; compute_done.
  - apply base_not_ri. revert Hk. unfold base_cols. rewrite !elem_of_cons.
    tauto.
Qed.

Lemma normalise_row_name (row : gmap string cell) :
  normalise_row row !! "Partner Name"
    = Some (clean_name (at_col row "Partner Name")).
Proof.
  unfold normalise_row.
  rewrite coerce_row_lookup_other by (rewrite !elem_of_cons; tauto).
  rewrite set_col_lookup, decide_True by reflexivity.
  rewrite at_col_reindex; [reflexivity|].
  apply expected_cols_elem. left. compute_done.
Qed.

Lemma normalise_row_same (row : gmap string cell) (k : string) :
  k ∈ ["Tier"; "Location"; "Profile URL"; "Certified Versions";
       "Reference Industries"] ->
  normalise_row row !! k = Some (at_col row k).
Proof.
  intros Hk. unfold normalise_row.
  rewrite coerce_row_lookup_other
    by (revert Hk; rewrite !elem_of_cons; tauto).
  rewrite set_col_lookup, decide_False.
  - rewrite reindex_row_lookup, decide_True; [reflexivity|].
    apply expected_cols_elem. left. revert Hk. unfold base_cols.
    rewrite !elem_of_cons. tauto.
  - intros <-. revert Hk. compute_done.
Qed.

Lemma normalise_row_count (row : gmap string cell) (k : string) :
  k ∈ ["References"; "Certified Experts"] ->
  normalise_row row !! k = Some (to_int (at_col row k)).
Proof.
  intros Hk. unfold normalise_row.
  rewrite coerce_row_lookup_count by exact Hk.
  rewrite at_col_set_col_ne.
  - rewrite at_col_reindex; [reflexivity|].
    apply expected_cols_elem. left. revert Hk. unfold base_cols.
    rewrite !elem_of_cons. tauto.
  - intros <-. revert Hk. compute_done.
Qed.

Lemma normalise_row_ri (row : gmap string cell) (col : string) :
  col ∈ ALLOWED_RI_COLS ->
  normalise_row row !! col = Some (to_int (at_col row col)).
Proof.
  intros Hcol. unfold normalise_row.
  rewrite coerce_row_lookup_ri by exact Hcol.
  rewrite at_col_set_col_ne.
  - rewrite at_col_reindex; [reflexivity|].
    apply expected_cols_elem. by right.
  - intros <-. revert Hcol. apply base_not_ri. compute_done.
Qed.

Lemma set_cols_dom_expected (cols : list string) (f : cell -> cell)
    (row : gmap string cell) :
  Forall (fun c => c ∈ expected_cols) cols ->
  dom row = list_to_set expected_cols ->
  dom (set_cols cols f row) = list_to_set expected_cols.
Proof.
  intros Hall Hdom. rewrite set_cols_dom; [exact Hdom|].
  eapply Forall_impl; [exact Hall|]. intros c Hc.
  rewrite Hdom. by apply elem_of_list_to_set.
Qed.

Lemma base_in_expected (cols : list string) :
  cols ⊆ base_cols -> Forall (fun c => c ∈ expected_cols) cols.
Proof.
  intros Hsub. apply Forall_forall. intros c Hc.
  apply expected_cols_elem. left. by apply Hsub.
Qed.

Lemma normalise_row_dom (row : gmap string cell) :
  dom (normalise_row row) = list_to_set expected_cols.
Proof.
  unfold normalise_row, coerce_row.
  apply set_cols_dom_expected.
  { apply Forall_forall. intros c Hc. apply expected_cols_elem. by right. }
  apply set_cols_dom_expected; [apply base_in_expected; compute_done|].
  apply set_cols_dom_expected; [apply base_in_expected; compute_done|].
  rewrite set_col_dom; [apply reindex_row_dom|].
  rewrite reindex_row_dom. apply elem_of_list_to_set.
  apply expected_cols_elem. left. compute_done.
Qed.

Lemma normalise_row_at_name (row : gmap string cell) :
  at_col (normalise_row row) "Partner Name"
    = clean_name (at_col row "Partner Name").
Proof. unfold at_col at 1. by rewrite normalise_row_name. Qed.

Lemma normalise_row_at_count (row : gmap string cell) (k : string) :
  k ∈ ["References"; "Certified Experts"] ->
  at_col (normalise_row row) k = to_int (at_col row k).
Proof. intros Hk. unfold at_col at 1. by rewrite normalise_row_count. Qed.

Lemma normalise_row_key (row : gmap string cell) :
  dedup_key (normalise_row row) =
    [clean_name (at_col row "Partner Name"); at_col row "Tier";
     at_col row "Location"].
Proof.
  unfold dedup_key, row_key. cbn [map].
  rewrite normalise_row_at_name. unfold at_col at 1 3.
  rewrite !normalise_row_same by (rewrite !elem_of_cons; tauto).
  reflexivity.
Qed.

(** *** The table as a whole *)

Lemma coerce_row_at_name (row : gmap string cell) :
  at_col (coerce_row row) "Partner Name" = at_col row "Partner Name".
Proof.
  unfold at_col.
  by rewrite coerce_row_lookup_other by (rewrite !elem_of_cons; tauto).
Qed.

(** The filters on the name see the same name before and after the
    numeric columns are coerced. *)
Lemma filters_after_coerce (l : list (gmap string cell)) :
  filter (fun r => has_counts r = true)
    (map coerce_row
       (filter (fun r => not_placeholder r = true)
          (filter (fun r => name_nonempty r = true) l)))
  = filter (fun r => keep_row r = true) (map coerce_row l).
Proof.
  induction l as [|r l IH]; [reflexivity|].
  cbn [map]. rewrite (filter_bool_cons keep_row).
  rewrite (filter_bool_cons name_nonempty).
  assert (Hne : name_nonempty (coerce_row r) = name_nonempty r)
    by (unfold name_nonempty; by rewrite coerce_row_at_name).
  assert (Hnp : not_placeholder (coerce_row r) = not_placeholder r)
    by (unfold not_placeholder; by rewrite coerce_row_at_name).
  unfold keep_row at 1. rewrite Hne, Hnp.
  destruct (name_nonempty r); cbn [andb]; [|exact IH].
  rewrite (filter_bool_cons not_placeholder).
  destruct (not_placeholder r); cbn [andb]; [|exact IH].
  cbn [map]. rewrite (filter_bool_cons has_counts), IH. reflexivity.
Qed.

(** The rows of the result: every row of the input is normalised, the
    rows that pass the three filters are kept, and of these the first of
    each key. *)
Lemma clean_and_export_rows (df : DataFrame) :
  df_rows (clean_and_export df) =
    drop_dups_go ["Partner Name"; "Tier"; "Location"] []
      (filter (fun r => keep_row r = true)
         (map normalise_row (df_rows df))) /\
  df_columns (clean_and_export df) = expected_cols.
Proof.
  unfold clean_and_export, drop_duplicates, select.
  cbn [df_rows df_columns].
  rewrite !(proj1 (map_cols_rows _ _ _)), !(proj2 (map_cols_rows _ _ _)).
  cbn [df_rows df_columns].
  split; [|reflexivity]. f_equal.
  unfold map_col, reindex. cbn [df_rows].
  transitivity
    (filter (fun r => keep_row r = true)
       (map coerce_row
          (map (fun row => set_col "Partner Name" clean_name
                             (reindex_row expected_cols row))
             (df_rows df)))).
  - rewrite <- filters_after_coerce. rewrite !map_map. reflexivity.
  - rewrite map_map. reflexivity.
Qed.

(** *** Dropping duplicates *)

Lemma drop_dups_sublist (cols : list string) (seen : list (list cell))
    (rows : list (gmap string cell)) :
  drop_dups_go cols seen rows `sublist_of` rows.
Proof.
  revert seen. induction rows as [|r rows IH]; intros seen; cbn.
  - constructor.
  - destruct (bool_decide _).
    + apply sublist_cons, IH.
    + apply sublist_skip, IH.
Qed.

(** A row is in the result when it occurs in the list with a key that is
    neither seen before the list nor carried by an earlier row of it. *)
Lemma drop_dups_elem (cols : list string) (seen : list (list cell))
    (rows : list (gmap string cell)) (r : gmap string cell) :
  r ∈ drop_dups_go cols seen rows <->
  exists i, rows !! i = Some r /\ (row_key cols r ∉ seen) /\
    forall j r', (j < i)%nat -> rows !! j = Some r' ->
                 row_key cols r' <> row_key cols r.
Proof.
  revert seen. induction rows as [|x rows IH]; intros seen; cbn.
  - split; [intros []%elem_of_nil|intros (i & Hi & _); done].
  - destruct (bool_decide_reflect (row_key cols x ∈ seen)) as [Hx|Hx].
    + rewrite IH. split.
      * intros (i & Hi & Hseen & Hfirst). exists (S i).
        split; [exact Hi|]. split; [exact Hseen|].
        intros [|j] r' Hj Hr'; cbn in Hr'.
        -- injection Hr' as <-. intros Heq. apply Hseen. by rewrite <- Heq.
        -- apply (Hfirst j); [lia|exact Hr'].
      * intros ([|i] & Hi & Hseen & Hfirst); cbn in Hi.
        -- injection Hi as <-. contradiction.
        -- exists i. split; [exact Hi|]. split; [exact Hseen|].
           intros j r' Hj Hr'. apply (Hfirst (S j)); [lia|exact Hr'].
    + rewrite elem_of_cons, IH. split.
      * intros [->|(i & Hi & Hseen & Hfirst)].
        -- exists O. split; [reflexivity|]. split; [exact Hx|].
           intros j r' Hj. lia.
        -- apply not_elem_of_cons in Hseen as [Hne Hseen].
           exists (S i). split; [exact Hi|]. split; [exact Hseen|].
           intros [|j] r' Hj Hr'; cbn in Hr'.
           ++ injection Hr' as <-. congruence.
           ++ apply (Hfirst j); [lia|exact Hr'].
      * intros ([|i] & Hi & Hseen & Hfirst); cbn in Hi.
        -- injection Hi as <-. by left.
        -- right. exists i. split; [exact Hi|]. split.
           ++ apply not_elem_of_cons. split; [|exact Hseen].
              intros Heq. apply (Hfirst O x); [lia|reflexivity|].
              by rewrite Heq.
           ++ intros j r' Hj Hr'. apply (Hfirst (S j)); [lia|exact Hr'].
Qed.

Lemma drop_dups_NoDup (cols : list string) (seen : list (list cell))
    (rows : list (gmap string cell)) :
  NoDup (map (row_key cols) (drop_dups_go cols seen rows)) /\
  Forall (fun r => row_key cols r ∉ seen) (drop_dups_go cols seen rows).
Proof.
  revert seen. induction rows as [|x rows IH]; intros seen; cbn.
  - split; constructor.
  - destruct (bool_decide_reflect (row_key cols x ∈ seen)) as [Hx|Hx].
    + apply IH.
    + destruct (IH (row_key cols x :: seen)) as [Hnd Hall].
      split.
      * cbn. constructor; [|exact Hnd].
        intros Hin. apply list_elem_of_fmap in Hin as (r & Heq & Hr).
        rewrite Forall_forall in Hall. apply (Hall r Hr).
        rewrite <- Heq. left.
      * constructor; [exact Hx|].
        eapply Forall_impl; [exact Hall|]. cbn. intros r Hr.
        apply not_elem_of_cons in Hr. tauto.
Qed.

Lemma filter_map_sublist {A B : Type} (f : A -> B) (m : B -> bool)
    (Q : A -> Prop) `{!forall x, Decision (Q x)} (l : list A) :
  (forall x, m (f x) = true -> Q x) ->
  filter (fun y => m y = true) (map f l) `sublist_of` map f (filter Q l).
Proof.
  intros HQ. induction l as [|x l IH]; cbn [map]; [constructor|].
  rewrite filter_bool_cons, (filter_cons Q).
  destruct (m (f x)) eqn:Hm.
  - rewrite decide_True by (by apply HQ). cbn [map].
    by apply sublist_skip.
  - destruct (decide (Q x)); [cbn [map]; by apply sublist_cons|exact IH].
Qed.

Lemma has_counts_normalise (d : gmap string cell) :
  has_counts (normalise_row d) = true <->
  0 < reference_count parse_number d \/ 0 < expert_count parse_number d.
Proof.
  unfold has_counts, reference_count, expert_count.
  rewrite !normalise_row_at_count by (rewrite !elem_of_cons; tauto).
  rewrite orb_true_iff, !Z.ltb_lt. reflexivity.
Qed.

Lemma keep_row_has_counts (r : gmap string cell) :
  keep_row r = true -> has_counts r = true.
Proof. unfold keep_row. rewrite !andb_true_iff. tauto. Qed.

(** ** Claim C8 *)

(** C8: every row of the final table has References greater than 0 or
    Certified Experts greater than 0; the table holds, in their order,
    rows of drafts with a positive count only, and no draft whose two
    counts are 0 has its row in the table, whatever its other fields. *)
Theorem rows_have_counts (df : DataFrame) :
  let out := df_rows (clean_and_export df) in
  Forall (fun row => 0 < int_of (at_col row "References") \/
                     0 < int_of (at_col row "Certified Experts")) out /\
  out `sublist_of`
    map normalise_row
      (filter (fun d => 0 < reference_count parse_number d \/
                        0 < expert_count parse_number d) (df_rows df)) /\
  Forall (fun d => reference_count parse_number d = 0 /\
                   expert_count parse_number d = 0 ->
                   normalise_row d ∉ out) (df_rows df).
Proof.
  cbv zeta. destruct (clean_and_export_rows df) as [-> _].
  set (kept := filter (fun r => keep_row r = true)
                 (map normalise_row (df_rows df))).
  pose proof (drop_dups_sublist ["Partner Name"; "Tier"; "Location"] []
                kept) as Hsub.
  assert (Hkept : Forall (fun r => has_counts r = true) kept).
  { apply Forall_forall. intros r Hr. unfold kept in Hr.
    apply list_elem_of_filter in Hr as [Hr _].
    by apply keep_row_has_counts. }
  assert (Hout : Forall (fun r => has_counts r = true)
                   (drop_dups_go ["Partner Name"; "Tier"; "Location"] []
                      kept)).
  { apply Forall_forall. intros r Hr. rewrite Forall_forall in Hkept.
    apply Hkept. by apply (sublist_subseteq _ _ Hsub). }
  split; [|split].
  - eapply Forall_impl; [exact Hout|]. intros r Hr.
    unfold has_counts in Hr. apply orb_true_iff in Hr.
    rewrite !Z.ltb_lt in Hr. exact Hr.
  - etrans; [exact Hsub|]. unfold kept.
    apply filter_map_sublist. intros d Hd.
    by apply has_counts_normalise, keep_row_has_counts.
  - apply Forall_forall. intros d _ [Hr He] Hin.
    rewrite Forall_forall in Hout. apply Hout in Hin.
    apply has_counts_normalise in Hin. lia.
Qed.

(** ** Claim C9 *)

(** C9, amended: among the rows that pass the name and count filters, the
    final table keeps, in their order, exactly the rows that are the
    first with their (Partner Name, Tier, Location); no two rows of the
    table have the same key, whatever their other fields. *)
Theorem first_kept_row_wins (df : DataFrame) (row : gmap string cell) :
  let kept := filter (fun r => keep_row r = true)
                (map normalise_row (df_rows df)) in
  let out := df_rows (clean_and_export df) in
  NoDup (map dedup_key out) /\
  out `sublist_of` kept /\
  (row ∈ out <->
   exists i, kept !! i = Some row /\
     forall j r', (j < i)%nat -> kept !! j = Some r' ->
                  dedup_key r' <> dedup_key row).
Proof.
  cbv zeta. destruct (clean_and_export_rows df) as [-> _].
  split; [|split].
  - apply drop_dups_NoDup.
  - apply drop_dups_sublist.
  - rewrite drop_dups_elem. unfold dedup_key. split.
    + intros (i & Hi & _ & Hfirst). eauto.
    + intros (i & Hi & Hfirst). exists i.
      split; [exact Hi|]. split; [apply not_elem_of_nil|exact Hfirst].
Qed.

(** ** Claim C1 *)

(** Every row of the final table is the normalised form of a row of the
    input. *)
Lemma clean_and_export_origin (df : DataFrame) (row : gmap string cell) :
  row ∈ df_rows (clean_and_export df) ->
  exists d, d ∈ df_rows df /\ row = normalise_row d.
Proof.
  destruct (clean_and_export_rows df) as [-> _]. intros Hrow.
  apply (sublist_subseteq _ _ (drop_dups_sublist _ _ _)) in Hrow.
  apply list_elem_of_filter in Hrow as [_ Hrow].
  apply list_elem_of_fmap in Hrow as (d & -> & Hd). eauto.
Qed.

(** Whatever the fetch gives, the extras are the defaults or the extras
    of a text. *)
Lemma fetch_profile_extras_cases (web : string -> response)
    (profile_url : option string) (sleep_s : Z) (log : list event) :
  fst (fetch_profile_extras web profile_url sleep_s log) = default_extras \/
  exists norm,
    fst (fetch_profile_extras web profile_url sleep_s log)
      = extract_extras norm.
Proof.
  unfold fetch_profile_extras.
  destruct (url_missing profile_url); [left; reflexivity|].
  unfold bind, session_get, bind, emit, ret.
  destruct (web (default "" profile_url)) as [status raw|];
    [|left; reflexivity].
  destruct (negb (status =? 200)%Z); [left; reflexivity|].
  right. eexists. destruct (sleep_s =? 0)%Z; reflexivity.
Qed.

(** C1: the industry columns are the 22 distinct identifiers of the
    catalog labels. The extras of a profile, whatever the fetch gives and
    whatever the text, have these 22 columns besides their six named keys
    and nothing else, with 0 for every label that did not match; every
    row of the final table, whatever the input, has exactly the twelve
    base columns and these 22 columns, each industry column holding an
    integer, the one read from the input row, 0 where the input row has
    none. *)
Theorem industry_columns_exact (df : DataFrame) (norm : string)
    (web : string -> response) (profile_url : option string) (sleep_s : Z)
    (log : list event) :
  (length ALLOWED_RI_COLS = 22%nat /\ NoDup ALLOWED_RI_COLS /\
   ALLOWED_RI_COLS = map make_safe_ri_column ALLOWED_INDUSTRIES /\
   Forall (fun k => k ∉ ALLOWED_RI_COLS) (extras_keys ++ base_cols) /\
   dom init_ri_zero_dict = list_to_set ALLOWED_RI_COLS) /\
  (dom (extract_extras norm) = list_to_set (extras_keys ++ ALLOWED_RI_COLS) /\
   dom (fst (fetch_profile_extras web profile_url sleep_s log))
     = list_to_set (extras_keys ++ ALLOWED_RI_COLS) /\
   Forall (fun lab =>
             exists n, extract_extras norm !! make_safe_ri_column lab
                         = Some (CInt n) /\
                       (lab ∉ map snd (industries_found norm) -> n = 0))
          ALLOWED_INDUSTRIES) /\
  (df_columns (clean_and_export df) = (base_cols ++ ALLOWED_RI_COLS)%list /\
   Forall (fun row =>
             dom row = list_to_set (base_cols ++ ALLOWED_RI_COLS) /\
             exists d, d ∈ df_rows df /\
               Forall (fun col =>
                         row !! col =
                           Some (CInt (match at_col d col with
                                       | CNone => 0
                                       | CInt n => n
                                       | CStr s => default 0 (parse_number s)
                                       end)))
                      ALLOWED_RI_COLS)
          (df_rows (clean_and_export df))).
Proof.
  split; [|split].
  - split; [apply ALLOWED_RI_COLS_length|].
    split; [apply ALLOWED_RI_COLS_NoDup|].
    split; [apply ALLOWED_RI_COLS_slugs|]. split; compute_done.
  - split; [apply extract_extras_dom|]. split.
    + destruct (fetch_profile_extras_cases web profile_url sleep_s log)
        as [->|[norm' ->]];
        [symmetry; apply default_extras_dom|apply extract_extras_dom].
    + apply Forall_forall. intros lab Hlab.
      exists (max_count lab (industries_found norm)).
      split; [by apply extract_extras_ri|apply max_count_not_found].
  - split; [apply clean_and_export_rows|].
    apply Forall_forall. intros row Hrow.
    apply clean_and_export_origin in Hrow as (d & Hd & ->).
    split; [apply normalise_row_dom|].
    exists d. split; [exact Hd|].
    apply Forall_forall. intros col Hcol.
    rewrite normalise_row_ri by exact Hcol.
    rewrite to_int_cases. reflexivity.
Qed.

End TableFacts.

(** ** Claim C9, the claim as stated *)

(** C9, counterexample: two drafts with the same (Partner Name, Tier,
    Location) and different Profile URLs, the first with no reference and
    no expert. The first is the draft [parse_partner_text] returns for
    "Acme Gold 40 % Paris Average Project: x". The final table has one row,
    and it is the row of the second draft: the first occurrence is not the
    one retained. *)
Lemma dedup_keeps_second_draft :
  parse_partner_text "Acme Gold 40 % Paris Average Project: x"
    = Some (delete "Profile URL"
              (acme_paris "0" "https://www.odoo.com/partners/acme-1")) /\
  map (fun d => (at_col d "Partner Name", at_col d "Tier", at_col d "Location"))
      (df_rows two_acme_drafts)
    = [(CStr "Acme", CStr "Gold", CStr "Paris");
       (CStr "Acme", CStr "Gold", CStr "Paris")] /\
  map (fun d => at_col d "Profile URL") (df_rows two_acme_drafts)
    = [CStr "https://www.odoo.com/partners/acme-1";
       CStr "https://www.odoo.com/partners/acme-2"] /\
  map (fun r => (at_col r "Profile URL", at_col r "References"))
      (df_rows (clean_and_export parse_digits two_acme_drafts))
    = [(CStr "https://www.odoo.com/partners/acme-2", CInt 5)].
Proof. repeat split; compute_done. Qed.

(** With a first draft that has a reference, the first is retained. *)
Lemma dedup_keeps_first_kept_draft :
  map (fun r => (at_col r "Profile URL", at_col r "References"))
      (df_rows (clean_and_export parse_digits
         (mkDataFrame (df_columns two_acme_drafts)
            [acme_paris "3" "https://www.odoo.com/partners/acme-1";
             acme_paris "5" "https://www.odoo.com/partners/acme-2"])))
    = [(CStr "https://www.odoo.com/partners/acme-1", CInt 3)].
Proof. compute_done. Qed.

(** ** Claim C7 *)

(** C7, counterexample: in "Acme Gold 00 References" there is no location
    segment, the reference count "00" is the number 0 and no expert count
    is found, yet [parse_partner_text] returns a draft. *)
Lemma zero_counts_draft_returned :
  location_of (normalize "Acme Gold 00 References") = "N/A" /\
  int (refs_of (normalize "Acme Gold 00 References")) = 0 /\
  int (experts_of (normalize "Acme Gold 00 References")) = 0 /\
  parse_partner_text "Acme Gold 00 References" <> None /\
  parse_partner_text "Acme Gold 00 References"
    = Some (dict_of [("Partner Name", CStr "Acme"); ("Tier", CStr "Gold");
                     ("Location", CStr "N/A"); ("References", CStr "00");
                     ("Certified Experts", CStr "0")]).
Proof. repeat split; compute_done. Qed.

(** C7, amended: [parse_partner_text] returns [None] exactly when the
    normalised text has no tier keyword, or the text before the keyword,
    stripped, is empty or is "find best match" in lower case, or the
    Location is "N/A" while References and Certified Experts are both the
    string "0"; in every other case it returns the draft of the five
    fields. *)
Theorem parse_partner_text_None_iff (text : string) :
  let t := normalize text in
  (parse_partner_text text = None <->
     search TIER_RE t = None \/
     (exists m_tier, search TIER_RE t = Some m_tier /\
        (name_of t m_tier = "" \/ lower (name_of t m_tier) = "find best match"))
     \/ (location_of t = "N/A" /\ refs_of t = "0" /\ experts_of t = "0")) /\
  (parse_partner_text text <> None ->
     exists m_tier, search TIER_RE t = Some m_tier /\
       parse_partner_text text =
         Some (dict_of [
           ("Partner Name", CStr (name_of t m_tier));
           ("Tier", CStr (group t m_tier 1));
           ("Location", CStr (location_of t));
           ("References", CStr (refs_of t));
           ("Certified Experts", CStr (experts_of t))
         ])).
Proof.
  cbv zeta. split.
  - unfold parse_partner_text.
    destruct (search TIER_RE (normalize text)) as [m_tier|];
      [|split; [by left|reflexivity]].
    destruct (String.eqb_spec (name_of (normalize text) m_tier) "")
      as [Hempty|Hname]; cbn [orb].
    { split; [|reflexivity]. intros _. right; left. eauto. }
    destruct (String.eqb_spec (lower (name_of (normalize text) m_tier))
                "find best match") as [Hph|Hnph].
    { split; [|reflexivity]. intros _. right; left. eauto. }
    destruct (String.eqb_spec (location_of (normalize text)) "N/A")
      as [Hloc|Hloc]; cbn [andb].
    + destruct (String.eqb_spec (refs_of (normalize text)) "0")
        as [Hrefs|Hrefs]; cbn [andb].
      * destruct (String.eqb_spec (experts_of (normalize text)) "0")
          as [Hexp|Hexp].
        -- split; [|reflexivity]. intros _. right; right. done.
        -- split; [discriminate|].
           intros [[=]|[(m & [= <-] & [?|?])|(_ & _ & ?)]]; congruence.
      * split; [discriminate|].
        intros [[=]|[(m & [= <-] & [?|?])|(_ & ? & _)]]; congruence.
    + split; [discriminate|].
      intros [[=]|[(m & [= <-] & [?|?])|(? & _ & _)]]; congruence.
  - intros Hsome.
    destruct (parse_partner_text text) as [d|] eqn:Hd; [|done].
    destruct (parse_partner_text_Some _ _ Hd) as (m_tier & Htier & ->).
    eauto.
Qed.

(* ===================================================================== *)
(** * Further properties                                                  *)
(* ===================================================================== *)

(** ** [sorted(_, key=_, reverse=True)] *)

Lemma insert_desc_Permutation {A : Type} (key : A -> Z) (x : A) (l : list A) :
  Permutation (insert_desc key x l) (x :: l).
Proof.
  induction l as [|y l IH]; cbn; [reflexivity|].
  destruct (key x <=? key y)%Z; [|reflexivity].
  rewrite IH. apply Permutation_swap.
Qed.

Lemma insert_desc_sorted {A : Type} (key : A -> Z) (x : A) (l : list A) :
  StronglySorted (fun a b => key b <= key a) l ->
  StronglySorted (fun a b => key b <= key a) (insert_desc key x l).
Proof.
  induction 1 as [|y l Hl IH Hy]; cbn.
  - repeat constructor.
  - destruct (Z.leb_spec (key x) (key y)) as [Hle|Hgt].
    + constructor; [exact IH|].
      rewrite insert_desc_Permutation. constructor; [exact Hle|exact Hy].
    + constructor; [by constructor|].
      constructor; [lia|].
      eapply Forall_impl; [exact Hy|]. cbn. intros z Hz. lia.
Qed.

(** Insertion is stable: among the elements with one key, the new element
    comes last. *)
Lemma insert_desc_filter {A : Type} (key : A -> Z) (x : A) (l : list A)
    (v : Z) :
  StronglySorted (fun a b => key b <= key a) l ->
  filter (fun a => key a = v) (insert_desc key x l) =
    if decide (key x = v)
    then (filter (fun a => key a = v) l ++ [x])%list
    else filter (fun a => key a = v) l.
Proof.
  induction 1 as [|y l Hl IH Hy]; cbn [insert_desc].
  - rewrite filter_cons, filter_nil. by destruct (decide (key x = v)).
  - destruct (Z.leb_spec (key x) (key y)) as [Hle|Hgt].
    + rewrite !(filter_cons _ y), IH.
      destruct (decide (key y = v)), (decide (key x = v)); reflexivity.
    + rewrite (filter_cons _ x).
      destruct (decide (key x = v)) as [Hx|Hx]; [|reflexivity].
      assert (Hnone : forall l', Forall (fun b => key b < key x) l' ->
                filter (fun a => key a = v) l' = []).
      { intros l' Hall. induction Hall as [|z l' Hz _ IH']; [reflexivity|].
        rewrite filter_cons, decide_False by lia. exact IH'. }
      rewrite Hnone; [reflexivity|].
      constructor; [lia|].
      eapply Forall_impl; [exact Hy|]. cbn. intros z Hz. lia.
Qed.

Lemma sorted_desc_fold {A : Type} (key : A -> Z) (l acc : list A) :
  StronglySorted (fun a b => key b <= key a) acc ->
  let r := fold_left (fun acc x => insert_desc key x acc) l acc in
  Permutation r (acc ++ l)%list /\
  StronglySorted (fun a b => key b <= key a) r /\
  forall v, filter (fun a => key a = v) r =
            (filter (fun a => key a = v) acc ++
             filter (fun a => key a = v) l)%list.
Proof.
  revert acc. induction l as [|x l IH]; intros acc Hacc; cbn [fold_left].
  - cbv zeta. rewrite app_nil_r. split; [reflexivity|]. split; [exact Hacc|].
    intros v. by rewrite filter_nil, app_nil_r.
  - destruct (IH (insert_desc key x acc) (insert_desc_sorted key x acc Hacc))
      as (Hp & Hs & Hf).
    cbv zeta. split; [|split; [exact Hs|]].
    + rewrite Hp, insert_desc_Permutation. cbn [app].
      apply Permutation_middle.
    + intros v. rewrite Hf, insert_desc_filter by exact Hacc.
      rewrite (filter_cons _ x).
      destruct (decide (key x = v)); [|reflexivity].
      by rewrite <- app_assoc.
Qed.

(** [sorted(l, key=key, reverse=True)] holds the elements of [l], by
    decreasing key, those with the same key in the order they have in [l]. *)
Theorem sorted_desc_spec {A : Type} (key : A -> Z) (l : list A) :
  Permutation (sorted_desc key l) l /\
  StronglySorted (fun a b => key b <= key a) (sorted_desc key l) /\
  forall v, filter (fun a => key a = v) (sorted_desc key l)
            = filter (fun a => key a = v) l.
Proof.
  unfold sorted_desc.
  destruct (sorted_desc_fold key l [] (SSorted_nil _)) as (Hp & Hs & Hf).
  split; [exact Hp|]. split; [exact Hs|]. exact Hf.
Qed.

(** ** Certified versions *)

Lemma v_key_inj (a b : string) : "v" ++ a = "v" ++ b -> a = b.
Proof. intros Heq. injection Heq as Heq. exact Heq. Qed.

Lemma fold_add_acc (l : list Z) (a : Z) :
  fold_left Z.add l a = a + foldr Z.add 0 l.
Proof.
  revert a. induction l as [|x l IH]; intros a; cbn; [lia|].
  rewrite IH. lia.
Qed.

Lemma cert_agg_fold_get (pairs : list (string * string)) (agg : odict)
    (ver : string) :
  od_get (fold_left cert_step pairs agg) ("v" ++ ver) =
    match od_get agg ("v" ++ ver), counts_of ver pairs with
    | None, [] => None
    | o, cs => Some (default 0 o + foldr Z.add 0 cs)
    end.
Proof.
  revert agg. induction pairs as [|[cnt v] pairs IH]; intros agg.
  - cbn [fold_left counts_of]. unfold counts_of. rewrite filter_nil.
    cbn [map foldr].
    destruct (od_get agg _); cbn [default from_option id];
      [f_equal; lia|reflexivity].
  - rewrite counts_of_cons. cbn [fold_left]. rewrite IH. unfold cert_step.
    destruct (decide (v = ver)) as [->|Hne].
    + rewrite od_get_set_eq.
      destruct (od_get agg ("v" ++ ver)) as [old|];
        destruct (counts_of ver pairs);
        cbn [default from_option id foldr]; f_equal; lia.
    + rewrite od_get_set_ne
        by (intros Heq; apply v_key_inj in Heq; congruence).
      reflexivity.
Qed.

Lemma cert_agg_fold_keys (pairs : list (string * string)) (agg : odict)
    (vers : list string) :
  map fst agg = map (String.append "v") vers ->
  map fst (fold_left cert_step pairs agg) =
    map (String.append "v")
      (vers ++ filter (fun x => x ∉ vers) (first_seen (map snd pairs))).
Proof.
  revert agg vers. induction pairs as [|[cnt v] pairs IH]; intros agg vers Hk.
  - cbn. by rewrite app_nil_r.
  - cbn [fold_left map snd first_seen]. rewrite filter_cons.
    assert (Hin : od_get agg ("v" ++ v) = None <-> v ∉ vers).
    { rewrite od_get_None_keys, Hk. split.
      - intros Hout Hv. apply Hout. apply list_elem_of_fmap. eauto.
      - intros Hout Hv. apply Hout.
        apply list_elem_of_fmap in Hv as (v' & Heq & Hv').
        apply v_key_inj in Heq. by subst. }
    unfold cert_step at 2.
    destruct (od_get agg ("v" ++ v)) as [old|] eqn:Hget.
    + assert (Hv : v ∈ vers).
      { destruct (decide (v ∈ vers)) as [|Hout]; [done|].
        apply Hin in Hout. discriminate. }
      rewrite decide_False by tauto.
      rewrite (IH _ vers) by (rewrite od_set_keys, Hget; exact Hk).
      do 2 f_equal. rewrite filter_filter_and. apply filter_ext_in.
      intros x. split; [|tauto]. intros Hx. split; [done|congruence].
    + assert (Hv : v ∉ vers) by (by apply Hin).
      rewrite decide_True by done.
      rewrite (IH _ (vers ++ [v])%list).
      * rewrite <- app_assoc. cbn [app]. do 3 f_equal.
        rewrite filter_filter_and. apply filter_ext_in.
        intros x. rewrite not_elem_of_app, list_elem_of_singleton. tauto.
      * rewrite od_set_keys, Hget, Hk, map_app. reflexivity.
Qed.

Lemma cert_agg_eq (pairs : list (string * string)) :
  cert_agg pairs = fold_left cert_step pairs [].
Proof. reflexivity. Qed.

Lemma filter_notin_nil (l : list string) : filter (fun x => x ∉ []) l = l.
Proof.
  induction l as [|x l IH]; [reflexivity|].
  rewrite filter_cons, decide_True by apply not_elem_of_nil. by f_equal.
Qed.

Lemma sorted_desc_fold_map {A B : Type} (key : B -> Z) (f : A -> B)
    (l acc : list A) :
  fold_left (fun acc x => insert_desc key x acc) (map f l) (map f acc) =
  map f (fold_left (fun acc x => insert_desc (fun a => key (f a)) x acc) l acc).
Proof.
  revert acc. induction l as [|x l IH]; intros acc; cbn [map fold_left];
    [reflexivity|].
  assert (Hins : insert_desc key (f x) (map f acc)
                 = map f (insert_desc (fun a => key (f a)) x acc)).
  { clear. induction acc as [|y acc IH]; cbn; [reflexivity|].
    destruct (key (f x) <=? key (f y))%Z; cbn; [by rewrite IH|reflexivity]. }
  rewrite Hins. apply IH.
Qed.

Lemma sorted_desc_map {A B : Type} (key : B -> Z) (f : A -> B) (l : list A) :
  sorted_desc key (map f l) = map f (sorted_desc (fun a => key (f a)) l).
Proof. apply (sorted_desc_fold_map key f l []). Qed.

Lemma sorted_desc_ext {A : Type} (key key' : A -> Z) (l : list A) :
  (forall a, key a = key' a) -> sorted_desc key l = sorted_desc key' l.
Proof.
  intros Hk. unfold sorted_desc. generalize (@nil A).
  induction l as [|x l IH]; intros acc; cbn [fold_left]; [reflexivity|].
  assert (Hins : insert_desc key x acc = insert_desc key' x acc).
  { clear -Hk. induction acc as [|y acc IH]; cbn; [reflexivity|].
    by rewrite !Hk, IH. }
  rewrite Hins. apply IH.
Qed.

Lemma str_chars (s : string) : str (chars s) = s.
Proof. apply string_of_list_ascii_of_string. Qed.

Lemma version_of_key (ver : string) :
  slice 1 (String.length ("v" ++ ver)) ("v" ++ ver) = ver.
Proof.
  change ("v" ++ ver) with (String "v" ver).
  unfold slice, chars. cbn [String.length list_ascii_of_string drop].
  rewrite Nat.sub_succ, Nat.sub_0_r.
  change (list_ascii_of_string ver) with (chars ver).
  rewrite <- chars_length, firstn_all. apply str_chars.
Qed.

(** Lines 185-191: Certified Versions lists every version found once, with
    the sum of the counts found with it, by decreasing version number
    (versions with the same number in the order of their first match), as
    "v<version>:<sum>" joined by "; ". *)
Theorem certified_versions_spec (cert_pairs : list (string * string)) :
  certified_versions cert_pairs =
    join "; "
      (map (fun ver => "v" ++ ver ++ ":" ++ of_int (version_total ver cert_pairs))
         (sorted_desc int (first_seen (map snd cert_pairs)))) /\
  Permutation (sorted_desc int (first_seen (map snd cert_pairs)))
              (first_seen (map snd cert_pairs)) /\
  StronglySorted (fun a b => int b <= int a)
    (sorted_desc int (first_seen (map snd cert_pairs))).
Proof.
  split; [|split; apply sorted_desc_spec].
  unfold certified_versions. rewrite cert_agg_eq.
  rewrite (cert_agg_fold_keys cert_pairs [] []) by reflexivity.
  cbn [app]. rewrite filter_notin_nil.
  rewrite sorted_desc_map, map_map.
  rewrite (sorted_desc_ext _ int)
    by (intros a; cbv beta; by rewrite version_of_key).
  f_equal. apply map_ext_in. intros ver Hver.
  rewrite cert_agg_fold_get. cbn [od_get].
  apply list_elem_of_In in Hver.
  rewrite (proj1 (sorted_desc_spec int _)) in Hver.
  apply first_seen_elem in Hver.
  unfold version_total.
  destruct (counts_of ver cert_pairs) eqn:Hc;
    [by apply counts_of_nil in Hc|reflexivity].
Qed.

(** ** The statistics of a profile *)

Lemma extract_extras_eq (norm : string) :
  extract_extras norm =
    match industries_found norm with
    | [] => stats_extras norm
    | found =>
        fill_ri (<["Reference Industries" := CStr (render_industries found)]>
                   (stats_extras norm))
                (fst (dedup_loop found))
    end.
Proof.
  unfold extract_extras, industries_found, stats_extras.
  destruct (search TOTAL_RE norm) as [m_total|]; [|reflexivity].
  destruct (findall2 INDUSTRY_RE (industries_block norm m_total))
    as [|m found] eqn:Hfound; [reflexivity|].
  rewrite <- reference_industries_render.
  destruct (dedup_loop (m :: found)) as [dedup order]. reflexivity.
Qed.

Lemma set_int_if_lookup_eq (r : regex) (key norm : string)
    (e : gmap string cell) :
  e !! key = Some CNone ->
  set_int_if r key norm e !! key = Some (captured_int r norm).
Proof.
  intros He. unfold set_int_if, captured_int.
  destruct (search r norm); [by rewrite lookup_insert_eq|exact He].
Qed.

Lemma not_ri_col (k : string) :
  k ∈ extras_keys ->
  forall lab, lab ∈ ALLOWED_INDUSTRIES -> k <> make_safe_ri_column lab.
Proof.
  intros Hk lab Hlab ->.
  destruct (label_col_catalog lab Hlab) as (_ & _ & Hcol).
  by destruct (ri_cols_facts _ Hcol) as (Hkeys & _).
Qed.

(** A key of the statistics is not touched by the industries. *)
Lemma extract_extras_stat (norm k : string) :
  k ∈ ["Certified Versions"; "References Total"; "Customer Retention %";
       "Largest Reference Users"; "Average Reference Users"] ->
  extract_extras norm !! k = stats_extras norm !! k.
Proof.
  intros Hk. rewrite extract_extras_eq.
  destruct (industries_found norm) as [|m found]; [reflexivity|].
  rewrite fill_ri_other.
  - rewrite lookup_insert_ne; [reflexivity|].
    intros <-. revert Hk. rewrite !elem_of_cons, elem_of_nil.
    intros [?|[?|[?|[?|[?|[]]]]]]; discriminate.
  - intros lab Hlab _. apply not_ri_col; [|exact Hlab].
    unfold extras_keys. revert Hk. rewrite !elem_of_cons. tauto.
Qed.

(** Lines 182-216: each statistic comes from its own pattern alone.
    Certified Versions is the aggregate of the version matches (empty
    without a match); References Total, Customer Retention %, Largest and
    Average Reference Users are the integers captured by the first match
    of their patterns, and absent without a match; none depends on another
    or on the industries. *)
Theorem extract_extras_statistics (norm : string) :
  extract_extras norm !! "Certified Versions"
    = Some (CStr (certified_versions (findall2 CERT_RE norm))) /\
  extract_extras norm !! "References Total"
    = Some (captured_int TOTAL_RE norm) /\
  extract_extras norm !! "Customer Retention %"
    = Some (captured_int RETENTION_RE norm) /\
  extract_extras norm !! "Largest Reference Users"
    = Some (captured_int (SIZES_RE "Largest") norm) /\
  extract_extras norm !! "Average Reference Users"
    = Some (captured_int (SIZES_RE "Average") norm).
Proof.
  assert (Hdef : forall k, k ∈ extras_keys ->
            k <> "Certified Versions" -> k <> "Reference Industries" ->
            default_extras !! k = Some CNone).
  { apply (Forall_forall
             (fun k => k <> "Certified Versions" ->
                       k <> "Reference Industries" ->
                       default_extras !! k = Some CNone) extras_keys).
    compute_done. }
  assert (He0 : forall k, k ∈ extras_keys ->
            k <> "Certified Versions" -> k <> "Reference Industries" ->
            match findall2 CERT_RE norm with
            | [] => default_extras
            | _ =>
                <["Certified Versions" :=
                    CStr (certified_versions (findall2 CERT_RE norm))]>
                  default_extras
            end !! k = Some CNone).
  { intros k Hk H1 H2. destruct (findall2 CERT_RE norm).
    - by apply Hdef.
    - rewrite lookup_insert_ne by congruence. by apply Hdef. }
  repeat split;
    (rewrite extract_extras_stat by (rewrite !elem_of_cons; tauto));
    unfold stats_extras.
  - rewrite !set_int_if_lookup_ne by discriminate.
    destruct (findall2 CERT_RE norm) as [|p ps] eqn:Hcert.
    + compute_done.
    + by rewrite lookup_insert_eq.
  - rewrite !set_int_if_lookup_ne by discriminate.
    apply set_int_if_lookup_eq. apply He0; [compute_done|discriminate..].
  - rewrite !set_int_if_lookup_ne by discriminate.
    apply set_int_if_lookup_eq. rewrite set_int_if_lookup_ne by discriminate.
    apply He0; [compute_done|discriminate..].
  - rewrite !set_int_if_lookup_ne by discriminate.
    apply set_int_if_lookup_eq. rewrite !set_int_if_lookup_ne by discriminate.
    apply He0; [compute_done|discriminate..].
  - apply set_int_if_lookup_eq. rewrite !set_int_if_lookup_ne by discriminate.
    apply He0; [compute_done|discriminate..].
Qed.

(** ** The effects of one profile fetch *)



(** ** Stripping *)

Lemma lstrip_by_head (p : ascii -> bool) (l : list ascii) :
  head_clear p (lstrip_by p l).
Proof.
  induction l as [|c l IH]; cbn; [done|].
  destruct (p c) eqn:Hp; [exact IH|exact Hp].
Qed.

Lemma lstrip_by_fix (p : ascii -> bool) (l : list ascii) :
  head_clear p l -> lstrip_by p l = l.
Proof. destruct l as [|c l]; cbn; [done|]. by intros ->. Qed.

Lemma lstrip_by_suffix (p : ascii -> bool) (l : list ascii) :
  exists pre, l = (pre ++ lstrip_by p l)%list /\ forallb p pre = true.
Proof.
  induction l as [|c l (pre & Hl & Hpre)]; cbn; [by exists []|].
  destruct (p c) eqn:Hp.
  - exists (c :: pre). cbn. rewrite Hp, Hpre. by rewrite <- Hl.
  - by exists [].
Qed.

Lemma rstrip_by_prefix (p : ascii -> bool) (l : list ascii) :
  exists post, l = (rstrip_by p l ++ post)%list /\ forallb p post = true.
Proof.
  unfold rstrip_by.
  destruct (lstrip_by_suffix p (rev l)) as (pre & Hl & Hpre).
  exists (rev pre). split.
  - rewrite <- rev_app_distr, <- Hl. by rewrite rev_involutive.
  - rewrite forallb_forall in *. intros c Hc. apply Hpre.
    by apply in_rev.
Qed.

Lemma rstrip_by_head (p : ascii -> bool) (l : list ascii) :
  head_clear p l -> head_clear p (rstrip_by p l).
Proof.
  intros Hl. destruct (rstrip_by_prefix p l) as (post & Heq & _).
  destruct (rstrip_by p l) as [|c r]; [done|].
  rewrite Heq in Hl. exact Hl.
Qed.

Lemma rstrip_by_last (p : ascii -> bool) (l : list ascii) :
  head_clear p (rev (rstrip_by p l)).
Proof. unfold rstrip_by. rewrite rev_involutive. apply lstrip_by_head. Qed.

(** What is stripped has no character of the class at either end. *)
Lemma strip_by_ends (p : ascii -> bool) (l : list ascii) :
  head_clear p (strip_by p l) /\ head_clear p (rev (strip_by p l)).
Proof.
  unfold strip_by. split.
  - apply rstrip_by_head, lstrip_by_head.
  - apply rstrip_by_last.
Qed.

Lemma strip_by_fix (p : ascii -> bool) (l : list ascii) :
  head_clear p l -> head_clear p (rev l) -> strip_by p l = l.
Proof.
  intros Hh Hl. unfold strip_by, rstrip_by.
  rewrite (lstrip_by_fix p l Hh), (lstrip_by_fix p (rev l) Hl).
  apply rev_involutive.
Qed.

Lemma strip_by_idemp (p : ascii -> bool) (l : list ascii) :
  strip_by p (strip_by p l) = strip_by p l.
Proof. apply strip_by_fix; apply strip_by_ends. Qed.

Lemma chars_str (l : list ascii) : chars (str l) = l.
Proof. apply list_ascii_of_string_of_list_ascii. Qed.

Lemma strip_idemp (s : string) : strip (strip s) = strip s.
Proof. unfold strip. by rewrite chars_str, strip_by_idemp. Qed.

(** ** Matching a literal whatever the case *)

Lemma matches_chr_i (c : ascii) (st st' : mstate) :
  matches (chr_i c) st st' <->
  exists x rest, m_rest st = x :: rest /\ lower_char x = lower_char c /\
    st' = MState (S (m_pos st)) (Some x) rest (m_caps st).
Proof.
  unfold chr_i. cbn [matches]. split.
  - intros (x & rest & Hrest & Heq & ->).
    apply Ascii.eqb_eq in Heq. eauto 10.
  - intros (x & rest & Hrest & Heq & ->). exists x, rest.
    split; [exact Hrest|]. split; [by apply Ascii.eqb_eq|reflexivity].
Qed.

Lemma matches_chars_i (w : list ascii) (st st' : mstate) :
  w <> [] ->
  matches (seq (map chr_i w)) st st' <->
  exists u rest, m_rest st = (u ++ rest)%list /\
    map lower_char u = map lower_char w /\
    st' = MState (m_pos st + length w) (last u) rest (m_caps st).
Proof.
  revert st. induction w as [|c w IH]; intros st Hne; [done|].
  destruct w as [|c' w].
  - cbn [map seq]. rewrite matches_chr_i. split.
    + intros (x & rest & Hrest & Hx & ->). exists [x], rest.
      cbn. rewrite Hx, Nat.add_1_r. done.
    + intros (u & rest & Hrest & Hu & ->).
      destruct u as [|x [|? ?]]; try discriminate.
      injection Hu as Hx. exists x, rest. cbn. rewrite Nat.add_1_r. done.
  - change (seq (map chr_i (c :: c' :: w)))
      with (Cat (chr_i c) (seq (map chr_i (c' :: w)))).
    cbn [matches]. split.
    + intros (st1 & H1 & H2).
      apply matches_chr_i in H1 as (x & rest1 & Hrest & Hx & ->).
      apply IH in H2 as (u & rest & Hrest1 & Hu & ->); [|done].
      cbn in Hrest1. exists (x :: u), rest.
      rewrite Hrest, Hrest1. split; [done|]. split; [cbn; by rewrite Hx, Hu|].
      cbn [m_pos m_caps length]. f_equal; [lia|].
      destruct u as [|y u]; [discriminate|]. reflexivity.
    + intros (u & rest & Hrest & Hu & ->).
      destruct u as [|x u]; [discriminate|]. injection Hu as Hx Hu.
      exists (MState (S (m_pos st)) (Some x) (u ++ rest) (m_caps st)).
      split; [apply matches_chr_i; eauto 10|].
      apply IH; [done|]. exists u, rest. split; [done|]. split; [exact Hu|].
      cbn [m_pos m_caps length]. f_equal; [lia|].
      destruct u as [|y u]; [discriminate|]. reflexivity.
Qed.

(** [fullmatch] of a literal under [re.IGNORECASE]: the text is the literal
    up to the case of letters. *)
Lemma fullmatch_lit_i (w text : string) :
  w <> "" ->
  fullmatch (lit_i w) text <> None <-> lower text = lower w.
Proof.
  intros Hne.
  assert (Hw : chars w <> []) by (destruct w; [done|discriminate]).
  set (k := fun e : mstate =>
              match m_rest e with [] => Some (ReMatch O e) | _ => None end).
  assert (Hfull : fullmatch (lit_i w) text
                  = rmatch (lit_i w) k (MState O None (chars text) []))
    by reflexivity.
  rewrite Hfull. clear Hfull.
  destruct (rmatch_correct (A := rematch) (lit_i w) k
              (MState O None (chars text) [])) as [HN HS].
  unfold lower. split.
  - intros Hsome.
    destruct (rmatch (lit_i w) k (MState 0 None (chars text) []))
      as [m|] eqn:Hm; [|done].
    destruct (HS m eq_refl) as (st' & Hst & Hk).
    apply matches_chars_i in Hst as (u & rest & Hrest & Hu & ->); [|done].
    unfold k in Hk. cbn in Hk, Hrest. destruct rest; [|discriminate].
    rewrite app_nil_r in Hrest. by rewrite Hrest, Hu.
  - intros Heq Hnone. rewrite HN in Hnone.
    apply (f_equal chars) in Heq. rewrite !chars_str in Heq.
    specialize (Hnone (MState (0 + length (chars w)) (last (chars text)) []
                         [])).
    unfold k in Hnone. cbn in Hnone.
    assert (Hm : matches (lit_i w) (MState 0 None (chars text) [])
                   (MState (0 + length (chars w)) (last (chars text)) [] [])).
    { apply matches_chars_i; [done|]. exists (chars text), [].
      cbn. rewrite app_nil_r. done. }
    by specialize (Hnone Hm).
Qed.

(** ** More on the table *)

Lemma to_num_cases (parse_number : string -> option Z) (c : cell) :
  to_num parse_number c =
    match c with
    | CNone => CNone
    | CInt n => CInt n
    | CStr s => match parse_number s with Some n => CInt n | None => CNone end
    end.
Proof. destruct c; reflexivity. Qed.

Lemma DataFrame_eq (a b : DataFrame) :
  df_columns a = df_columns b -> df_rows a = df_rows b -> a = b.
Proof. destruct a, b. cbn. by intros -> ->. Qed.

Section MoreTableFacts.

Variable parse_number : string -> option Z.

#[local] Abbreviation normalise_row := (normalise_row parse_number).
#[local] Abbreviation coerce_row := (coerce_row parse_number).
#[local] Abbreviation to_int := (to_int parse_number).
#[local] Abbreviation to_num := (to_num parse_number).
#[local] Abbreviation clean_and_export := (clean_and_export parse_number).

Lemma coerce_row_lookup_num (row : gmap string cell) (k : string) :
  k ∈ optional_cols ->
  coerce_row row !! k = Some (to_num (at_col row k)).
Proof.
  intros Hk. unfold coerce_row.
  rewrite (set_cols_lookup_notin ALLOWED_RI_COLS).
  - rewrite set_cols_lookup_in; [|compute_done|exact Hk].
    rewrite at_col_set_cols_notin; [reflexivity|].
    revert Hk. unfold optional_cols. rewrite !elem_of_cons.
    intros [->|[->|[->|[->|[]%elem_of_nil]]]] Hin; revert Hin; compute_done.
  - apply base_not_ri. revert Hk. unfold optional_cols, base_cols.
    rewrite !elem_of_cons. tauto.
Qed.

Lemma normalise_row_num (row : gmap string cell) (k : string) :
  k ∈ optional_cols ->
  normalise_row row !! k = Some (to_num (at_col row k)).
Proof.
  intros Hk. unfold normalise_row.
  rewrite coerce_row_lookup_num by exact Hk.
  rewrite at_col_set_col_ne.
  - rewrite at_col_reindex; [reflexivity|].
    apply expected_cols_elem. left. revert Hk.
    unfold optional_cols, base_cols. rewrite !elem_of_cons. tauto.
  - intros <-. revert Hk. compute_done.
Qed.


(** *** The names of the final table *)

Lemma keep_row_name (r : gmap string cell) :
  keep_row r = true ->
  str_of (at_col r "Partner Name") <> "" /\
  lower (str_of (at_col r "Partner Name")) <> "find best match".
Proof.
  unfold keep_row, name_nonempty, not_placeholder.
  rewrite !andb_true_iff, !negb_true_iff. intros [[Hne Hph] _]. split.
  - by apply String.eqb_neq.
  - apply bool_decide_eq_false in Hph. intros Hlow. apply Hph.
    apply not_eq_None_Some. apply fullmatch_lit_i; [done|exact Hlow].
Qed.

(** Lines 339-341: every row of the final table has a Partner Name that is
    a non-empty string without blanks at its ends, and that is not "Find
    Best Match" in whatever case of letters. *)
Theorem table_names (df : DataFrame) (row : gmap string cell) :
  row ∈ df_rows (clean_and_export df) ->
  exists name,
    row !! "Partner Name" = Some (CStr name) /\
    name <> "" /\ strip name = name /\ lower name <> "find best match".
Proof.
  intros Hrow. destruct (clean_and_export_rows parse_number df) as [Hrows _].
  rewrite Hrows in Hrow.
  apply (sublist_subseteq _ _ (drop_dups_sublist _ _ _)) in Hrow.
  apply list_elem_of_filter in Hrow as [Hkeep Hrow].
  apply list_elem_of_fmap in Hrow as (d & -> & Hd).
  apply keep_row_name in Hkeep.
  rewrite normalise_row_at_name in Hkeep.
  rewrite normalise_row_name. unfold clean_name in *. cbn [str_of] in Hkeep.
  eexists. split; [reflexivity|]. destruct Hkeep as [Hne Hph].
  split; [exact Hne|]. split; [apply strip_idemp|exact Hph].
Qed.

(** *** Cleaning a cleaned table *)

Lemma clean_name_idemp (c : cell) : clean_name (clean_name c) = clean_name c.
Proof. unfold clean_name. by rewrite strip_idemp. Qed.

Lemma to_int_idemp (c : cell) : to_int (to_int c) = to_int c.
Proof. reflexivity. Qed.

Lemma to_num_idemp (c : cell) : to_num (to_num c) = to_num c.
Proof.
  rewrite (to_num_cases parse_number c).
  destruct c as [|n|s]; try reflexivity.
  by destruct (parse_number s).
Qed.

Lemma at_col_Some (row : gmap string cell) (k : string) (c : cell) :
  row !! k = Some c -> at_col row k = c.
Proof. intros H. unfold at_col. by rewrite H. Qed.

Lemma base_cols_cases (k : string) :
  k ∈ base_cols ->
  k = "Partner Name" \/
  k ∈ ["Tier"; "Location"; "Profile URL"; "Certified Versions";
       "Reference Industries"] \/
  k ∈ ["References"; "Certified Experts"] \/
  k ∈ optional_cols.
Proof.
  unfold base_cols, optional_cols. rewrite !elem_of_cons, !elem_of_nil. tauto.
Qed.

Lemma normalise_row_idemp (d : gmap string cell) :
  normalise_row (normalise_row d) = normalise_row d.
Proof.
  apply map_eq. intros k.
  destruct (decide (k ∈ expected_cols)) as [Hk|Hk].
  - apply expected_cols_elem in Hk as [Hk|Hk].
    + apply base_cols_cases in Hk as [->|[Hk|[Hk|Hk]]].
      * rewrite !normalise_row_name.
        rewrite (at_col_Some _ _ _ (normalise_row_name parse_number d)).
        by rewrite clean_name_idemp.
      * rewrite (normalise_row_same parse_number (normalise_row d)) by exact Hk.
        rewrite (at_col_Some _ _ _ (normalise_row_same parse_number d k Hk)).
        by rewrite normalise_row_same.
      * rewrite (normalise_row_count parse_number (normalise_row d))
          by exact Hk.
        rewrite (at_col_Some _ _ _ (normalise_row_count parse_number d k Hk)).
        by rewrite normalise_row_count.
      * rewrite (normalise_row_num (normalise_row d)) by exact Hk.
        rewrite (at_col_Some _ _ _ (normalise_row_num d k Hk)).
        by rewrite to_num_idemp, normalise_row_num.
    + rewrite (normalise_row_ri parse_number (normalise_row d)) by exact Hk.
      rewrite (at_col_Some _ _ _ (normalise_row_ri parse_number d k Hk)).
      by rewrite normalise_row_ri.
  - assert (Hout : forall r, normalise_row r !! k = None).
    { intros r. apply not_elem_of_dom.
      rewrite (normalise_row_dom parse_number). by rewrite elem_of_list_to_set. }
    by rewrite !Hout.
Qed.

Lemma drop_dups_id (cols : list string) (seen : list (list cell))
    (rows : list (gmap string cell)) :
  NoDup (map (row_key cols) rows) ->
  Forall (fun r => row_key cols r ∉ seen) rows ->
  drop_dups_go cols seen rows = rows.
Proof.
  revert seen. induction rows as [|r rows IH]; intros seen Hnd Hall;
    [reflexivity|].
  cbn [map] in Hnd. apply NoDup_cons in Hnd as [Hr Hnd].
  apply Forall_cons in Hall as [Hseen Hall]. cbn [drop_dups_go].
  rewrite bool_decide_eq_false_2 by exact Hseen. f_equal.
  apply IH; [exact Hnd|].
  apply Forall_forall. intros r' Hr'. rewrite not_elem_of_cons. split.
  - intros Heq. apply Hr. rewrite <- Heq. apply list_elem_of_fmap. eauto.
  - rewrite Forall_forall in Hall. by apply Hall.
Qed.

Lemma filter_all {A : Type} (m : A -> bool) (l : list A) :
  Forall (fun x => m x = true) l -> filter (fun x => m x = true) l = l.
Proof.
  induction 1 as [|x l Hx _ IH]; [reflexivity|].
  rewrite filter_bool_cons, Hx. by f_equal.
Qed.

Lemma map_fix {A : Type} (f : A -> A) (l : list A) :
  Forall (fun x => f x = x) l -> map f l = l.
Proof. induction 1 as [|x l Hx _ IH]; cbn; [reflexivity|]. by f_equal. Qed.

(** Lines 337-353: cleaning is idempotent. Cleaning the final table again
    gives the same table, whatever the input and however [pd.to_numeric]
    reads strings. *)
Theorem clean_and_export_idemp (df : DataFrame) :
  clean_and_export (clean_and_export df) = clean_and_export df.
Proof.
  destruct (clean_and_export_rows parse_number (clean_and_export df))
    as [Hrows2 Hcols2].
  destruct (clean_and_export_rows parse_number df) as [Hrows Hcols].
  assert (Hkept : Forall (fun r => keep_row r = true
                                   /\ exists d, r = normalise_row d)
                    (df_rows (clean_and_export df))).
  { apply Forall_forall. intros r Hr. rewrite Hrows in Hr.
    apply (sublist_subseteq _ _ (drop_dups_sublist _ _ _)) in Hr.
    apply list_elem_of_filter in Hr as [Hkeep Hr].
    apply list_elem_of_fmap in Hr as (d & -> & _). eauto. }
  assert (Hnd : NoDup (map (row_key ["Partner Name"; "Tier"; "Location"])
                         (df_rows (clean_and_export df))))
    by (rewrite Hrows; apply drop_dups_NoDup).
  assert (Hrows' : df_rows (clean_and_export (clean_and_export df))
                   = df_rows (clean_and_export df)).
  { rewrite Hrows2.
    rewrite map_fix.
    - rewrite filter_all.
      + apply drop_dups_id; [exact Hnd|].
        apply Forall_forall. intros r _. apply not_elem_of_nil.
      + eapply Forall_impl; [exact Hkept|]. by intros r [? _].
    - eapply Forall_impl; [exact Hkept|]. intros r [_ [d ->]].
      apply normalise_row_idemp. }
  apply DataFrame_eq; [by rewrite Hcols2, Hcols|exact Hrows'].
Qed.

End MoreTableFacts.



Lemma table_names_witness :
  let row :=
    default ∅ (head (df_rows (clean_and_export parse_digits two_acme_drafts)))
  in
  exists name,
    row !! "Partner Name" = Some (CStr name) /\
    name <> "" /\ strip name = name /\ lower name <> "find best match".
Proof.
  cbv zeta. apply (table_names parse_digits two_acme_drafts).
  compute_done.
Defined.

(* ===================================================================== *)
(** * The scraper                                                         *)
(* ===================================================================== *)

Lemma requests_app (url : string) (l1 l2 : list event) :
  requests url (l1 ++ l2) = (requests url l1 + requests url l2)%nat.
Proof. unfold requests. by rewrite filter_app, length_app. Qed.

Lemma requests_get (url u : string) :
  requests url [EvGet u] = if decide (u = url) then 1%nat else 0%nat.
Proof.
  unfold requests. rewrite filter_cons, filter_nil.
  destruct (decide (u = url)) as [->|Hne].
  - by rewrite decide_True.
  - rewrite decide_False; [reflexivity|]. intros [= ?]. congruence.
Qed.

Lemma requests_sleep (url : string) (s : Z) : requests url [EvSleep s] = O.
Proof.
  unfold requests. rewrite filter_cons, filter_nil.
  by rewrite decide_False.
Qed.

Lemma init_ri_zero_dict_lookup (col : string) :
  col ∈ ALLOWED_RI_COLS -> init_ri_zero_dict !! col = Some (CInt 0).
Proof. revert col. apply Forall_forall. compute_done. Qed.

Lemma init_ri_zero_dict_base (k : string) :
  k ∈ (draft_cols ++ ["Profile URL"])%list -> init_ri_zero_dict !! k = None.
Proof. revert k. apply Forall_forall. compute_done. Qed.

Lemma init_ri_zero_dict_dom :
  dom init_ri_zero_dict = list_to_set ALLOWED_RI_COLS.
Proof. compute_done. Qed.

Lemma extras_no_base (e : gmap string cell) (k : string) :
  dom e = list_to_set (extras_keys ++ ALLOWED_RI_COLS) ->
  k ∈ (draft_cols ++ ["Profile URL"])%list -> e !! k = None.
Proof.
  intros Hdom Hk. apply not_elem_of_dom. rewrite Hdom.
  rewrite elem_of_list_to_set. revert k Hk. apply Forall_forall.
  compute_done.
Qed.

Lemma draft_dom (name tier location refs experts : cell) :
  dom (dict_of [("Partner Name", name); ("Tier", tier);
                ("Location", location); ("References", refs);
                ("Certified Experts", experts)])
    = list_to_set (C := gset string) draft_cols.
Proof.
  unfold dict_of. cbn [fold_left fst snd draft_cols list_to_set].
  rewrite !dom_insert_L, dom_empty_L. set_solver.
Qed.





Section ScrapeFacts.

Context {html : Type}.
Variable http : string -> option (Z * html).
Variable get_text : html -> string.
Variable find_all_a : html -> list (string * option string).
Variable urljoin : string -> string -> string.

#[local] Abbreviation profile_web := (profile_web http get_text).
#[local] Abbreviation profile_extras := (profile_extras http get_text).
#[local] Abbreviation anchor_row := (anchor_row http get_text urljoin).
#[local] Abbreviation anchor_url := (anchor_url urljoin).
#[local] Abbreviation page_rows :=
  (page_rows http get_text find_all_a urljoin).
#[local] Abbreviation scrape_anchor :=
  (scrape_anchor http get_text urljoin).
#[local] Abbreviation scrape_pages :=
  (scrape_pages http get_text find_all_a urljoin).
#[local] Abbreviation scrape_partners :=
  (scrape_partners http get_text find_all_a urljoin).
#[local] Abbreviation cache_ok := (cache_ok http get_text).
#[local] Abbreviation pages_tried := (pages_tried http).

(** One fetch: the extras do not depend on the log, and the log gets one
    request of the URL and no other request. *)
Lemma fetch_profile_extras_run (url : string) (sleep_s : Z)
    (log : list event) :
  url <> "" ->
  exists evs,
    fetch_profile_extras profile_web (Some url) sleep_s log
      = (profile_extras url, (log ++ evs)%list) /\
    forall u, requests u evs = if decide (url = u) then 1%nat else 0%nat.
Proof.
  intros Hurl. unfold fetch_profile_extras, url_missing.
  destruct (String.eqb_spec url "") as [|_]; [done|].
  unfold bind, session_get, bind, emit, ret. cbn [default from_option id].
  unfold profile_extras.
  destruct (profile_web url) as [status raw|].
  - destruct (status =? 200)%Z; cbn [negb].
    + destruct (sleep_s =? 0)%Z.
      * eexists. split; [reflexivity|]. intros u. apply requests_get.
      * exists [EvGet url; EvSleep sleep_s].
        split; [by rewrite <- app_assoc|]. intros u.
        change [EvGet url; EvSleep sleep_s]
          with ([EvGet url] ++ [EvSleep sleep_s])%list.
        rewrite requests_app, requests_get, requests_sleep.
        destruct (decide (url = u)); reflexivity.
    + eexists. split; [reflexivity|]. intros u. apply requests_get.
  - eexists. split; [reflexivity|]. intros u. apply requests_get.
Qed.

Lemma profile_extras_dom (url : string) :
  dom (profile_extras url) = list_to_set (extras_keys ++ ALLOWED_RI_COLS).
Proof.
  unfold profile_extras. destruct (profile_web url) as [status raw|].
  - destruct (status =? 200)%Z;
      [apply extract_extras_dom|apply default_extras_dom].
  - apply default_extras_dom.
Qed.

Lemma profile_extras_ri (url col : string) :
  col ∈ ALLOWED_RI_COLS -> exists n, profile_extras url !! col = Some (CInt n).
Proof.
  intros Hcol.
  destruct (ri_cols_facts col Hcol) as (_ & _ & Hdef & lab & Hlab & ->).
  unfold profile_extras. destruct (profile_web url) as [status raw|].
  - destruct (status =? 200)%Z; [|eauto].
    rewrite extract_extras_ri by exact Hlab. eauto.
  - eauto.
Qed.

Lemma anchor_row_eq (t : string) (href_attr : option string) :
  anchor_row (t, href_attr) =
    if (t =? "") || negb (bool_decide (is_Some (search TIER_RE t))) then None
    else
      match parse_partner_text t with
      | None => None
      | Some parsed =>
          Some (update (<["Profile URL" := CStr (anchor_url href_attr)]> parsed)
                  (if anchor_url href_attr =? "" then init_ri_zero_dict
                   else profile_extras (anchor_url href_attr)))
      end.
Proof. reflexivity. Qed.

(** The row of an [a] element: the five fields of the draft, the profile
    URL, and the 22 industry columns as integers; without a profile URL
    the industry columns are 0 and the row has no other key, with one it
    has the six extras of the profile as well. *)
Lemma anchor_row_shape (a : string * option string)
    (row : gmap string cell) :
  anchor_row a = Some row ->
  fst a <> "" /\ search TIER_RE (fst a) <> None /\
  exists d,
    parse_partner_text (fst a) = Some d /\
    Forall (fun k => row !! k = d !! k) draft_cols /\
    row !! "Profile URL" = Some (CStr (anchor_url (snd a))) /\
    Forall (fun col => exists n, row !! col = Some (CInt n) /\
                                 (anchor_url (snd a) = "" -> n = 0))
      ALLOWED_RI_COLS /\
    dom row =
      list_to_set (if anchor_url (snd a) =? ""
                   then (draft_cols ++ "Profile URL" :: ALLOWED_RI_COLS)%list
                   else expected_cols).
Proof.
  destruct a as [t href_attr]. rewrite anchor_row_eq. cbn [fst snd].
  destruct (String.eqb_spec t "") as [|Ht]; [discriminate|]. cbn [orb].
  destruct (search TIER_RE t) as [m|] eqn:Hm; [|discriminate].
  rewrite bool_decide_eq_true_2 by eauto. cbn [negb].
  destruct (parse_partner_text t) as [d|] eqn:Hd; [|discriminate].
  intros [= <-]. split; [exact Ht|]. split; [done|].
  exists d. split; [reflexivity|].
  set (url := anchor_url href_attr).
  set (e := if url =? "" then init_ri_zero_dict else profile_extras url).
  assert (Hbase : forall k, k ∈ (draft_cols ++ ["Profile URL"])%list ->
                            e !! k = None).
  { intros k Hk. unfold e. destruct (url =? "").
    - by apply init_ri_zero_dict_base.
    - apply extras_no_base; [apply profile_extras_dom|exact Hk]. }
  assert (Hri : forall col, col ∈ ALLOWED_RI_COLS ->
                  exists n, e !! col = Some (CInt n) /\ (url = "" -> n = 0)).
  { intros col Hcol. unfold e.
    destruct (String.eqb_spec url "") as [Hu|Hu].
    - exists 0. split; [by apply init_ri_zero_dict_lookup|done].
    - destruct (profile_extras_ri url col Hcol) as [n Hn]. exists n.
      split; [exact Hn|done]. }
  unfold update. split; [|split; [|split]].
  - apply Forall_forall. intros k Hk.
    rewrite lookup_union_r by (apply Hbase, elem_of_app; by left).
    apply lookup_insert_ne. intros <-. revert Hk. compute_done.
  - rewrite lookup_union_r
      by (apply Hbase, elem_of_app; right; apply list_elem_of_singleton;
          reflexivity).
    apply lookup_insert_eq.
  - apply Forall_forall. intros col Hcol.
    destruct (Hri col Hcol) as (n & Hn & H0). exists n. split; [|exact H0].
    by apply lookup_union_Some_l.
  - destruct (parse_partner_text_Some _ _ Hd) as (m_tier & _ & ->).
    rewrite dom_union_L, dom_insert_L, draft_dom. unfold e.
    destruct (url =? "").
    + rewrite init_ri_zero_dict_dom.
      rewrite list_to_set_app_L, list_to_set_cons.
      generalize (list_to_set (C := gset string) ALLOWED_RI_COLS).
      generalize (list_to_set (C := gset string) draft_cols).
      intros X Y. apply set_eq. intros k.
      rewrite !elem_of_union, !elem_of_singleton. tauto.
    + rewrite profile_extras_dom. unfold expected_cols.
      rewrite !list_to_set_app_L.
      change (list_to_set (C := gset string) base_cols)
        with (list_to_set (C := gset string)
                (draft_cols ++ "Profile URL" :: extras_keys)).
      rewrite list_to_set_app_L, list_to_set_cons.
      generalize (list_to_set (C := gset string) ALLOWED_RI_COLS).
      generalize (list_to_set (C := gset string) draft_cols).
      generalize (list_to_set (C := gset string) extras_keys).
      intros X Y Z. apply set_eq. intros k.
      rewrite !elem_of_union, !elem_of_singleton. tauto.
Qed.

Lemma anchor_row_profile (a : string * option string) :
  omap row_profile (option_list (anchor_row a)) =
    if bool_decide (is_Some (anchor_row a))
       && negb (anchor_url (snd a) =? "")
    then [anchor_url (snd a)] else [].
Proof.
  destruct (anchor_row a) as [row|] eqn:Hrow; [|reflexivity].
  apply anchor_row_shape in Hrow as (_ & _ & d & _ & _ & Hurl & _).
  rewrite bool_decide_eq_true_2 by eauto.
  cbn [andb].
  change (omap row_profile (option_list (Some row)))
    with (match row_profile row with Some u => [u] | None => [] end).
  unfold row_profile. rewrite Hurl.
  by destruct (anchor_url (snd a) =? "").
Qed.

(** One [a] element: the row is the one computed without the cache, and a
    URL is requested only when the cache does not hold it, once. *)
Lemma scrape_anchor_run (psleep : Z) (rows : list (gmap string cell))
    (cache : gmap string (gmap string cell)) (a : string * option string)
    (log : list event) :
  cache_ok cache ->
  exists cache' evs,
    scrape_anchor psleep (rows, cache) a log
      = ((rows ++ option_list (anchor_row a))%list, cache', (log ++ evs)%list)
    /\ cache_ok cache' /\
    (forall u, (requests u evs + cached cache u = cached cache' u)%nat) /\
    (forall u, is_Some (cache' !! u) <->
               is_Some (cache !! u) \/
               u ∈ omap row_profile (option_list (anchor_row a))).
Proof.
  intros Hcache. rewrite anchor_row_profile.
  destruct a as [t href_attr]. cbn [snd].
  unfold scrape_anchor. rewrite anchor_row_eq.
  assert (Hsame : exists cache' evs,
            (rows, cache, log) = ((rows ++ [])%list, cache', (log ++ evs)%list)
            /\ cache_ok cache' /\
            (forall u, (requests u evs + cached cache u = cached cache' u)%nat)
            /\ (forall u, is_Some (cache' !! u) <->
                          is_Some (cache !! u) \/ u ∈ @nil string)).
  { exists cache, []. rewrite !app_nil_r.
    split; [reflexivity|]. split; [exact Hcache|]. split; [reflexivity|].
    intros u. rewrite elem_of_nil. tauto. }
  destruct ((t =? "") || _); [exact Hsame|].
  destruct (parse_partner_text t) as [parsed|]; [|exact Hsame].
  clear Hsame. cbv zeta.
  change (if String.prefix "/" (default "" href_attr)
          then urljoin BASE (default "" href_attr) else "")
    with (anchor_url href_attr).
  rewrite bool_decide_eq_true_2 by eauto. cbn [andb].
  destruct (String.eqb_spec (anchor_url href_attr) "") as [Hempty|Hurl];
    cbn [negb]; change (option_list (Some ?x)) with [x].
  - exists cache, []. rewrite !app_nil_r.
    split; [reflexivity|]. split; [exact Hcache|]. split; [reflexivity|].
    intros u. rewrite elem_of_nil. tauto.
  - destruct (cache !! anchor_url href_attr) as [extras|] eqn:Hget.
    + destruct (Hcache _ _ Hget) as [_ ->].
      exists cache, []. rewrite !app_nil_r.
      split; [reflexivity|]. split; [exact Hcache|]. split; [reflexivity|].
      intros u. rewrite list_elem_of_singleton. split; [tauto|].
      intros [H| ->]; [exact H|]. rewrite Hget. eauto.
    + unfold bind.
      destruct (fetch_profile_extras_run (anchor_url href_attr) psleep log
                  Hurl) as (evs & -> & Hreq).
      exists (<[anchor_url href_attr := profile_extras (anchor_url href_attr)]>
                cache), evs.
      split; [reflexivity|]. split; [|split].
      * intros u e. rewrite lookup_insert.
        destruct (decide (anchor_url href_attr = u)) as [<-|Hne].
        -- by intros [= <-].
        -- apply Hcache.
      * intros u. rewrite Hreq. unfold cached. rewrite lookup_insert.
        destruct (decide (anchor_url href_attr = u)) as [<-|Hne].
        -- by rewrite Hget.
        -- reflexivity.
      * intros u. rewrite list_elem_of_singleton, lookup_insert.
        destruct (decide (anchor_url href_attr = u)) as [<-|Hne].
        -- split; eauto.
        -- split; [tauto|]. intros [H|Hu]; [exact H|]. by destruct Hne.
Qed.

Lemma scrape_anchors_run (psleep : Z)
    (anchors : list (string * option string))
    (rows : list (gmap string cell))
    (cache : gmap string (gmap string cell)) (log : list event) :
  cache_ok cache ->
  exists cache' evs,
    foldM (scrape_anchor psleep) anchors (rows, cache) log
      = ((rows ++ omap anchor_row anchors)%list, cache', (log ++ evs)%list)
    /\ cache_ok cache' /\
    (forall u, (requests u evs + cached cache u = cached cache' u)%nat) /\
    (forall u, is_Some (cache' !! u) <->
               is_Some (cache !! u) \/
               u ∈ omap row_profile (omap anchor_row anchors)).
Proof.
  revert rows cache log.
  induction anchors as [|a anchors IH]; intros rows cache log Hcache.
  - exists cache, []. cbn. rewrite !app_nil_r.
    split; [reflexivity|]. split; [exact Hcache|]. split; [reflexivity|].
    intros u. rewrite elem_of_nil. tauto.
  - cbn [foldM]. unfold bind.
    destruct (scrape_anchor_run psleep rows cache a log Hcache)
      as (cache1 & evs1 & -> & Hcache1 & Hreq1 & Hdom1).
    destruct (IH (rows ++ option_list (anchor_row a))%list cache1
                (log ++ evs1)%list Hcache1)
      as (cache2 & evs2 & -> & Hcache2 & Hreq2 & Hdom2).
    assert (Hcons : omap anchor_row (a :: anchors)
                    = (option_list (anchor_row a) ++ omap anchor_row anchors)%list).
    { change (omap anchor_row (a :: anchors))
        with (match anchor_row a with
              | Some row => row :: omap anchor_row anchors
              | None => omap anchor_row anchors
              end).
      by destruct (anchor_row a). }
    exists cache2, (evs1 ++ evs2)%list. rewrite Hcons.
    split; [|split; [exact Hcache2|split]].
    + by rewrite <- !app_assoc.
    + intros u. rewrite requests_app, <- Hreq2, <- Hreq1. lia.
    + intros u. rewrite omap_app, elem_of_app, Hdom2, Hdom1. tauto.
Qed.

Lemma scrape_pages_run (sleep_s psleep : Z) (pages : list Z)
    (rows : list (gmap string cell))
    (cache : gmap string (gmap string cell)) (log : list event) :
  cache_ok cache ->
  exists cache' evs,
    scrape_pages sleep_s psleep pages (rows, cache) log
      = (if forallb (fun n => bool_decide (is_Some (http (PAGE_URL n)))) pages
         then Some ((rows ++ flat_map page_rows pages)%list, cache')
         else None,
         (log ++ evs)%list)
    /\ cache_ok cache' /\
    (forall u, (requests u evs + cached cache u
                = page_requests u (pages_tried pages) + cached cache' u)%nat)
    /\ (forall u, is_Some (cache' !! u) <->
                  is_Some (cache !! u) \/
                  u ∈ omap row_profile
                        (flat_map page_rows (pages_tried pages))).
Proof.
  revert rows cache log.
  induction pages as [|n pages IH]; intros rows cache log Hcache.
  - exists cache, []. cbn. rewrite !app_nil_r.
    split; [reflexivity|]. split; [exact Hcache|]. split; [reflexivity|].
    intros u. rewrite elem_of_nil. tauto.
  - cbn [scrape_pages forallb flat_map pages_tried]. unfold bind, emit, ret.
    destruct (http (PAGE_URL n)) as [[status body]|] eqn:Hhttp.
    + assert (Hpage : forall u, page_requests u (n :: pages_tried pages)
                         = (requests u [EvGet (PAGE_URL n)]
                            + page_requests u (pages_tried pages))%nat).
      { intros u. unfold page_requests. rewrite filter_cons, requests_get.
        destruct (decide (PAGE_URL n = u)); reflexivity. }
      assert (Hrows : page_rows n
                      = if (status =? 200)%Z
                        then omap anchor_row (find_all_a body) else []).
      { unfold page_rows. by rewrite Hhttp. }
      rewrite bool_decide_eq_true_2 by eauto. cbn [andb flat_map].
      setoid_rewrite omap_app. rewrite Hrows.
      destruct (status =? 200)%Z; cbn [negb].
      * destruct (scrape_anchors_run psleep (find_all_a body) rows cache
                    (log ++ [EvGet (PAGE_URL n)])%list Hcache)
          as (cache1 & evs1 & -> & Hcache1 & Hreq1 & Hdom1).
        destruct (IH (rows ++ omap anchor_row (find_all_a body))%list cache1
                    (((log ++ [EvGet (PAGE_URL n)]) ++ evs1)
                       ++ [EvSleep sleep_s])%list Hcache1)
          as (cache2 & evs2 & -> & Hcache2 & Hreq2 & Hdom2).
        exists cache2,
          ([EvGet (PAGE_URL n)] ++ evs1 ++ [EvSleep sleep_s] ++ evs2)%list.
        split; [|split; [exact Hcache2|split]].
        -- rewrite <- !app_assoc. reflexivity.
        -- intros u. rewrite Hpage, !requests_app, requests_sleep.
           specialize (Hreq1 u). specialize (Hreq2 u). lia.
        -- intros u. rewrite elem_of_app, Hdom2, Hdom1. tauto.
      * destruct (IH rows cache (log ++ [EvGet (PAGE_URL n)])%list Hcache)
          as (cache2 & evs2 & -> & Hcache2 & Hreq2 & Hdom2).
        exists cache2, ([EvGet (PAGE_URL n)] ++ evs2)%list.
        split; [|split; [exact Hcache2|split]].
        -- rewrite <- !app_assoc. reflexivity.
        -- intros u. rewrite Hpage, requests_app.
           specialize (Hreq2 u). lia.
        -- intros u. rewrite elem_of_app, Hdom2, elem_of_nil. tauto.
    + rewrite bool_decide_eq_false_2 by (by intros [? ?]). cbn [andb].
      exists cache, [EvGet (PAGE_URL n)]. split; [reflexivity|].
      split; [exact Hcache|]. split.
      * intros u.
        unfold page_requests. rewrite filter_cons, filter_nil, requests_get.
        destruct (decide (PAGE_URL n = u)); cbn; lia.
      * intros u. cbn [flat_map]. unfold page_rows. rewrite Hhttp.
        cbn. rewrite elem_of_nil. tauto.
Qed.

Lemma pages_tried_all (pages : list Z) :
  forallb (fun n => bool_decide (is_Some (http (PAGE_URL n)))) pages = true ->
  pages_tried pages = pages.
Proof.
  induction pages as [|n pages IH]; [reflexivity|].
  cbn [forallb pages_tried]. intros [Hn Hall]%andb_true_iff.
  apply bool_decide_eq_true in Hn as [r Hr]. rewrite Hr. by rewrite IH.
Qed.


Lemma scrape_partners_run (page_start page_end sleep_s profile_sleep_s : Z)
    (log : list event) :
  fst (scrape_partners page_start page_end sleep_s profile_sleep_s log) =
    if forallb (fun n => bool_decide (is_Some (http (PAGE_URL n))))
         (seqZ page_start (page_end + 1 - page_start))
    then Some (flat_map page_rows
                 (seqZ page_start (page_end + 1 - page_start)))
    else None.
Proof.
  unfold scrape_partners, bind, ret.
  destruct (scrape_pages_run sleep_s profile_sleep_s
              (seqZ page_start (page_end + 1 - page_start)) [] ∅ log)
    as (cache' & evs & -> & _); [by intros u e; rewrite lookup_empty|].
  by destruct (forallb _ _).
Qed.



Lemma page_rows_scraped (pages : list Z) :
  Forall scraped_row (flat_map page_rows pages).
Proof.
  apply Forall_forall. intros row Hrow.
  apply list_elem_of_In, in_flat_map in Hrow as (n & _ & Hrow).
  apply list_elem_of_In in Hrow. unfold page_rows in Hrow.
  destruct (http (PAGE_URL n)) as [[status body]|];
    [|by apply elem_of_nil in Hrow].
  destruct (status =? 200)%Z; [|by apply elem_of_nil in Hrow].
  apply list_elem_of_omap in Hrow as ([t href_attr] & _ & Hrow).
  apply anchor_row_shape in Hrow
    as (Ht & Htier & d & Hd & H5 & Hurl & Hri & Hdom).
  exists t, d, (anchor_url href_attr).
  split; [exact Ht|]. split; [exact Htier|]. split; [exact Hd|].
  split; [exact H5|]. split; [exact Hurl|]. split; [exact Hri|exact Hdom].
Qed.

(** Lines 291-313: every row of the result holds the five fields that
    [parse_partner_text] gives for the text of an [a] element that is not
    empty and has a tier keyword, its profile URL, and the 22 industry
    columns as integers. A row without a profile URL has 0 in the industry
    columns and no other key; a row with one has the six extras as well,
    that is, all the expected columns. *)
Theorem scraped_rows_shape (page_start page_end sleep_s profile_sleep_s : Z)
    (log : list event) (rows : list (gmap string cell)) :
  fst (scrape_partners page_start page_end sleep_s profile_sleep_s log)
    = Some rows ->
  Forall scraped_row rows.
Proof.
  rewrite scrape_partners_run.
  destruct (forallb _ _); [|discriminate]. intros [= <-].
  apply page_rows_scraped.
Qed.

End ScrapeFacts.

(** On the sample site the run gives two rows, both of the shape above. *)
Lemma scraped_rows_shape_witness :
  Forall scraped_row
    (default []
       (fst (scrape_partners acme_site snd fst acme_urljoin 1 1 1 0 []))).
Proof.
  apply (scraped_rows_shape acme_site snd fst acme_urljoin 1 1 1 0 []).
  rewrite scrape_partners_run.
  destruct (forallb _ _) eqn:Hall; [reflexivity|].
  exfalso. revert Hall. vm_compute. discriminate.
Defined.

(* ===================================================================== *)
(** * Captures, digits and the table of the scraped rows                  *)
(* ===================================================================== *)

(** ** What a group captures *)

Lemma position_at_text (pre post : list ascii) :
  at_text (pre ++ post) (position pre post).
Proof. exists pre. done. Qed.

Lemma set_cap_at_text (text : list ascii) (i s e : nat) (st : mstate) :
  at_text text st -> at_text text (set_cap i s e st).
Proof. intros (pre & ? & ? & ?). exists pre. done. Qed.

Lemma iter_at_text (M : mstate -> mstate -> Prop) (text : list ascii)
    (n : nat) (st st' : mstate) :
  (forall a b, M a b -> at_text text a -> at_text text b) ->
  iter M n st st' -> at_text text st -> at_text text st'.
Proof.
  intros HM. revert st. induction n as [|n IH]; intros st; cbn.
  - by intros ->.
  - intros (st1 & H1 & _ & Hit) Hst. eauto.
Qed.

Lemma matches_at_text (text : list ascii) (r : regex) (st st' : mstate) :
  matches r st st' -> at_text text st -> at_text text st'.
Proof.
  revert st st'. induction r as [|p|r1 IH1 r2 IH2|r1 IH1 r2 IH2
                                |g lo hi r IH| |i r IH]; intros st st'; cbn.
  - by intros ->.
  - intros (c & rest & Hrest & _ & ->) (pre & Htext & Hpos & Hprev).
    exists (pre ++ [c])%list. cbn [m_rest m_pos m_prev].
    rewrite <- app_assoc. cbn [app]. rewrite <- Hrest.
    split; [exact Htext|]. rewrite length_app, last_snoc. cbn [length].
    split; [lia|reflexivity].
  - intros (st1 & H1 & H2) Hst. eauto.
  - intros [H|H]; eauto.
  - intros (n & _ & _ & Hit). by apply (iter_at_text (matches r) text n).
  - by intros [_ ->].
  - intros (st1 & H1 & ->) Hst. apply set_cap_at_text. eauto.
Qed.

Lemma captured_mono (text : list ascii) (rs rs' : list regex) (s e : nat) :
  rs ⊆ rs' -> captured text rs s e -> captured text rs' s e.
Proof.
  intros Hsub (g & st & st' & Hg & H). exists g, st, st'.
  split; [by apply Hsub|exact H].
Qed.

(** A span of group [i] after a match was there before it or is a match of
    a group [i] of the pattern. *)
Lemma matches_caps (text : list ascii) (i : nat) (r : regex)
    (st st' : mstate) (s e : nat) :
  matches r st st' -> at_text text st ->
  cap_lookup i (m_caps st') = Some (s, e) ->
  cap_lookup i (m_caps st) = Some (s, e) \/ captured text (groups i r) s e.
Proof.
  revert st st'. induction r as [|p|r1 IH1 r2 IH2|r1 IH1 r2 IH2
                                |g lo hi r IH| |j r IH]; intros st st';
    cbn [matches groups].
  - intros -> _ H. by left.
  - intros (c & rest & _ & _ & ->) _ H. by left.
  - intros (st1 & H1 & H2) Hst Hcap.
    destruct (IH2 _ _ H2 (matches_at_text _ _ _ _ H1 Hst) Hcap) as [Hc|Hc].
    + destruct (IH1 _ _ H1 Hst Hc) as [?|Hc1]; [by left|right].
      eapply captured_mono; [|exact Hc1].
      intros x Hx. apply elem_of_app. by left.
    + right. eapply captured_mono; [|exact Hc].
      intros x Hx. apply elem_of_app. by right.
  - intros [H|H] Hst Hcap.
    + destruct (IH1 _ _ H Hst Hcap) as [?|Hc]; [by left|right].
      eapply captured_mono; [|exact Hc].
      intros x Hx. apply elem_of_app. by left.
    + destruct (IH2 _ _ H Hst Hcap) as [?|Hc]; [by left|right].
      eapply captured_mono; [|exact Hc].
      intros x Hx. apply elem_of_app. by right.
  - intros (n & _ & _ & Hit). revert st Hit.
    induction n as [|n IHn]; intros st; cbn [iter].
    + intros -> _ H. by left.
    + intros (st1 & H1 & _ & Hit) Hst Hcap.
      destruct (IHn _ Hit (matches_at_text _ _ _ _ H1 Hst) Hcap) as [Hc|Hc];
        [|by right].
      exact (IH _ _ H1 Hst Hc).
  - intros [_ ->] _ H. by left.
  - intros (st1 & H1 & ->) Hst. cbn [set_cap m_caps cap_lookup].
    destruct (Nat.eqb_spec i j) as [->|Hne].
    + intros [= <- <-]. right. exists r, st, st1.
      split; [apply elem_of_app; left; apply list_elem_of_singleton;
              reflexivity|].
      done.
    + intros Hcap. destruct (IH _ _ H1 Hst Hcap) as [?|Hc]; [by left|right].
      exact Hc.
Qed.

Lemma matches_caps_mono (i : nat) (r : regex) (st st' : mstate) :
  matches r st st' ->
  is_Some (cap_lookup i (m_caps st)) -> is_Some (cap_lookup i (m_caps st')).
Proof.
  revert st st'. induction r as [|p|r1 IH1 r2 IH2|r1 IH1 r2 IH2
                                |g lo hi r IH| |j r IH]; intros st st';
    cbn [matches].
  - by intros ->.
  - by intros (c & rest & _ & _ & ->).
  - intros (st1 & H1 & H2) Hst. eauto.
  - intros [H|H]; eauto.
  - intros (n & _ & _ & Hit). revert st Hit.
    induction n as [|n IHn]; intros st; cbn [iter].
    + by intros ->.
    + intros (st1 & H1 & _ & Hit) Hst. eauto.
  - by intros [_ ->].
  - intros (st1 & H1 & ->) Hst. cbn [set_cap m_caps cap_lookup].
    destruct (i =? j)%nat; [eauto|]. eauto.
Qed.

Lemma matches_sets (i : nat) (r : regex) (st st' : mstate) :
  sets i r = true -> matches r st st' ->
  is_Some (cap_lookup i (m_caps st')).
Proof.
  revert st st'. induction r as [|p|r1 IH1 r2 IH2|r1 IH1 r2 IH2
                                |g lo hi r IH| |j r IH]; intros st st';
    cbn [matches sets]; try discriminate.
  - intros [H|H]%orb_true_iff (st1 & H1 & H2).
    + eapply matches_caps_mono; [exact H2|]. eauto.
    + eauto.
  - intros [Ha Hb]%andb_true_iff [H|H]; eauto.
  - intros [Hlo Hs]%andb_true_iff (n & Hn & _ & Hit).
    apply Nat.ltb_lt in Hlo. destruct n as [|n]; [lia|].
    cbn [iter] in Hit. destruct Hit as (st1 & H1 & _ & Hit).
    assert (H1s : is_Some (cap_lookup i (m_caps st1))) by eauto.
    clear -Hit H1s. revert st1 Hit H1s.
    induction n as [|n IHn]; intros st1; cbn [iter].
    + by intros ->.
    + intros (st2 & H2 & _ & Hit) Hst.
      eapply IHn; [exact Hit|]. eapply matches_caps_mono; eauto.
  - intros Hor (st1 & H1 & ->). cbn [set_cap m_caps cap_lookup].
    destruct (i =? j)%nat; [eauto|]. cbn [orb] in Hor. eauto.
Qed.

(** The characters between two positions of the subject. *)
Lemma at_text_between (text : list ascii) (r : regex) (st st' : mstate) :
  at_text text st -> matches r st st' ->
  exists w, m_rest st = (w ++ m_rest st')%list /\
            m_pos st' = (m_pos st + length w)%nat /\
            take (m_pos st' - m_pos st) (drop (m_pos st) text) = w.
Proof.
  intros Hst Hm. pose proof (matches_at_text text _ _ _ Hm Hst) as Hst'.
  destruct (matches_span _ _ _ Hm) as [Hle Hspan].
  destruct Hst as (pre & Htext & Hpos & _).
  destruct Hst' as (pre' & Htext' & Hpos' & _).
  unfold span in Hspan.
  set (d := (m_pos st' - m_pos st)%nat).
  assert (Hlen : length pre' = (length pre + d)%nat) by (unfold d; lia).
  assert (Heq : (pre' ++ m_rest st' = pre ++ m_rest st)%list) by congruence.
  assert (Hrest' : m_rest st' = drop d (m_rest st)).
  { rewrite <- (drop_app_length pre' (m_rest st')).
    rewrite <- (drop_app_add pre (m_rest st) d). by rewrite Hlen, Heq. }
  exists (take d (m_rest st)). split; [|split].
  - by rewrite Hrest', take_drop.
  - rewrite length_take. unfold d. lia.
  - f_equal. rewrite Htext, Hpos. apply drop_app_length.
Qed.

Lemma search_captured (r : regex) (text : string) (m : rematch) (i : nat)
    (pre post : list ascii) :
  chars text = (pre ++ post)%list ->
  matches r (position pre post) (mt_end m) ->
  sets i r = true ->
  exists g st st' w,
    g ∈ groups i r /\ matches g st st' /\
    m_rest st = (w ++ m_rest st')%list /\ group text m i = str w.
Proof.
  intros Htext Hm Hsets.
  destruct (matches_sets i r _ _ Hsets Hm) as [[s e] Hcap].
  destruct (matches_caps (chars text) i r _ _ s e Hm) as [Hnone|Hc];
    [rewrite Htext; apply position_at_text|exact Hcap|discriminate|].
  destruct Hc as (g & st & st' & Hg & Hst & Hgm & <- & <-).
  destruct (at_text_between _ _ _ _ Hst Hgm) as (w & Hrest & _ & Htake).
  exists g, st, st', w. split; [exact Hg|]. split; [exact Hgm|].
  split; [exact Hrest|].
  unfold group. rewrite Hcap. unfold slice. by rewrite Htake.
Qed.

Lemma iter_cls (p : ascii -> bool) (n : nat) (st st' : mstate) :
  iter (matches (Cls p)) n st st' ->
  exists w, m_rest st = (w ++ m_rest st')%list /\ length w = n /\
            forallb p w = true.
Proof.
  revert st. induction n as [|n IH]; intros st; cbn [iter].
  - intros ->. by exists [].
  - intros (st1 & (c & rest & Hrest & Hp & ->) & _ & Hit).
    destruct (IH _ Hit) as (w & Hw & Hlen & Hall). cbn [m_rest] in Hw.
    exists (c :: w). rewrite Hrest, Hw. cbn. rewrite Hp, Hall, Hlen. done.
Qed.

Lemma matches_rep_cls (g : bool) (lo : nat) (hi : option nat)
    (p : ascii -> bool) (st st' : mstate) :
  matches (Rep g lo hi (Cls p)) st st' ->
  exists w, m_rest st = (w ++ m_rest st')%list /\ (lo <= length w)%nat /\
            within hi (length w) /\ forallb p w = true.
Proof.
  cbn [matches]. intros (n & Hlo & Hhi & Hit).
  destruct (iter_cls p n _ _ Hit) as (w & Hw & <- & Hall). eauto.
Qed.

Lemma str_nil_iff (w : list ascii) : str w = "" <-> w = [].
Proof. destruct w; [done|]. split; discriminate. Qed.

(** A group whose pattern is a repetition of digits, at least one,
    captures a non-empty string of digits. *)
Lemma group_digits (r : regex) (text : string) (m : rematch) (i : nat)
    (pre post : list ascii) (g : bool) (lo : nat) (hi : option nat) :
  chars text = (pre ++ post)%list ->
  matches r (position pre post) (mt_end m) ->
  sets i r = true -> groups i r = [Rep g lo hi digit] -> (0 < lo)%nat ->
  is_digits (group text m i) = true /\
  (lo <= String.length (group text m i))%nat /\
  within hi (String.length (group text m i)).
Proof.
  intros Htext Hm Hsets Hgroups Hlo.
  destruct (search_captured r text m i pre post Htext Hm Hsets)
    as (g0 & st & st' & w & Hg & Hgm & Hrest & ->).
  rewrite Hgroups in Hg. apply list_elem_of_singleton in Hg as ->.
  apply matches_rep_cls in Hgm as (w' & Hrest' & Hlen & Hhi & Hall).
  assert (w' = w) as ->
    by (apply (app_inv_tail (m_rest st')); congruence).
  unfold is_digits. rewrite chars_str, Hall, <- chars_length, chars_str.
  split; [|done]. rewrite andb_true_r. apply negb_true_iff.
  apply String.eqb_neq. rewrite str_nil_iff. intros ->. cbn in Hlen. lia.
Qed.

Lemma matches_alts_lit (ws : list string) (st st' : mstate) :
  matches (alts (map lit ws)) st st' ->
  exists w, w ∈ ws /\ matches (lit w) st st'.
Proof.
  induction ws as [|w ws IH].
  - cbn. by intros (c & rest & _ & [=] & _).
  - destruct ws as [|w' ws].
    + cbn [map alts]. intros H. exists w. split; [apply list_elem_of_here|done].
    + change (alts (map lit (w :: w' :: ws)))
        with (Alt (lit w) (alts (map lit (w' :: ws)))).
      cbn [matches]. intros [H|H].
      * exists w. split; [apply list_elem_of_here|done].
      * destruct (IH H) as (x & Hx & Hm). exists x.
        split; [by apply list_elem_of_further|done].
Qed.

(** A group whose pattern is an alternative of literals, none empty,
    captures one of them. *)
Lemma group_literal (r : regex) (text : string) (m : rematch) (i : nat)
    (pre post : list ascii) (ws : list string) :
  chars text = (pre ++ post)%list ->
  matches r (position pre post) (mt_end m) ->
  sets i r = true -> groups i r = [alts (map lit ws)] ->
  Forall (fun w => w <> "") ws ->
  group text m i ∈ ws.
Proof.
  intros Htext Hm Hsets Hgroups Hne.
  destruct (search_captured r text m i pre post Htext Hm Hsets)
    as (g0 & st & st' & w & Hg & Hgm & Hrest & ->).
  rewrite Hgroups in Hg. apply list_elem_of_singleton in Hg as ->.
  apply matches_alts_lit in Hgm as (x & Hx & Hxm).
  apply matches_lit in Hxm as (rest & Hrest' & ->);
    [|by apply (proj1 (Forall_forall _ _) Hne)].
  cbn [m_rest] in Hrest.
  assert (w = chars x) as ->
    by (apply (app_inv_tail rest); congruence).
  by rewrite str_chars.
Qed.

(** The matches of a scan are matches of the pattern at positions of the
    subject. *)
Lemma scan_matches (text : list ascii) (r : regex) (fuel : nat)
    (pre rest : list ascii) (m : rematch) :
  text = (pre ++ rest)%list ->
  m ∈ scan fuel r (length pre) (last pre) rest ->
  exists pre' post, text = (pre' ++ post)%list /\
                    matches r (position pre' post) (mt_end m).
Proof.
  revert pre rest. induction fuel as [|fuel IH]; intros pre rest Htext;
    cbn [scan]; [by intros ?%elem_of_nil|].
  destruct (search_at r (length pre) (last pre) rest) as [m0|] eqn:Hs;
    [|by intros ?%elem_of_nil].
  apply search_at_Some in Hs as (mid & post & Hrest & _ & Hm0 & _).
  assert (Hhere : exists pre' post0, text = (pre' ++ post0)%list /\
                    matches r (position pre' post0) (mt_end m0)).
  { exists (pre ++ mid)%list, post. split; [|exact Hm0].
    by rewrite Htext, Hrest, app_assoc. }
  assert (Hat : at_text text (mt_end m0)).
  { eapply matches_at_text; [exact Hm0|].
    rewrite Htext, Hrest, app_assoc. apply position_at_text. }
  destruct Hat as (pre1 & Htext1 & Hpos1 & Hprev1).
  rewrite Hpos1, Hprev1.
  destruct (mt_start m0 <? length pre1)%nat.
  - intros [->|Hin]%elem_of_cons; [exact Hhere|].
    by apply (IH pre1 (m_rest (mt_end m0))).
  - destruct (m_rest (mt_end m0)) as [|c rest'] eqn:Hrest1.
    + intros ->%list_elem_of_singleton. exact Hhere.
    + intros [->|Hin]%elem_of_cons; [exact Hhere|].
      apply (IH (pre1 ++ [c])%list rest').
      * rewrite <- app_assoc. exact Htext1.
      * rewrite length_app, last_snoc. cbn [length].
        by rewrite Nat.add_1_r.
Qed.

Lemma finditer_matches (r : regex) (text : string) (m : rematch) :
  m ∈ finditer r text ->
  exists pre post, chars text = (pre ++ post)%list /\
                   matches r (position pre post) (mt_end m).
Proof.
  intros Hm.
  by apply (scan_matches (chars text) r (S (String.length text)) []
              (chars text)).
Qed.

(** [int] of a string of digits is a natural number below the power of 10
    of the length. *)
Lemma int_fold_bounds (w : list ascii) (acc : Z) :
  forallb is_digit w = true -> 0 <= acc ->
  let v := fold_left (fun a c => 10 * a + digit_val c) w acc in
  acc * 10 ^ Z.of_nat (length w) <= v
    < (acc + 1) * 10 ^ Z.of_nat (length w).
Proof.
  revert acc. induction w as [|c w IH]; intros acc Hall Hacc; cbn zeta.
  - cbn. lia.
  - cbn [forallb] in Hall. apply andb_true_iff in Hall as [Hc Hall].
    cbn [fold_left length].
    assert (Hd : 0 <= digit_val c <= 9).
    { unfold is_digit in Hc. unfold digit_val.
      apply andb_true_iff in Hc as [H1 H2].
      apply Nat.leb_le in H1, H2. lia. }
    specialize (IH (10 * acc + digit_val c) Hall ltac:(lia)). cbn zeta in IH.
    rewrite Nat2Z.inj_succ, Z.pow_succ_r by lia.
    assert (Hp : 0 < 10 ^ Z.of_nat (length w)) by (apply Z.pow_pos_nonneg; lia).
    nia.
Qed.

Lemma int_digits_bounds (s : string) :
  is_digits s = true -> 0 <= int s < 10 ^ Z.of_nat (String.length s).
Proof.
  unfold is_digits. intros [_ Hall]%andb_true_iff.
  pose proof (int_fold_bounds (chars s) 0 Hall ltac:(lia)) as H.
  cbn zeta in H. rewrite chars_length in H. unfold int. lia.
Qed.

(** ** The fields of a draft *)



Lemma slice_middle (pre w post : list ascii) (text : string) :
  chars text = (pre ++ w ++ post)%list ->
  slice (length pre) (length pre + length w) text = str w.
Proof.
  intros H. unfold slice. rewrite H, drop_app_length.
  replace (length pre + length w - length pre)%nat with (length w) by lia.
  by rewrite take_app_length.
Qed.




(** ** The numbers of a profile *)

Lemma stat_group_digits (norm : string) (r : regex) (k : string)
    (m : rematch) :
  (r, k) ∈ stat_patterns -> search r norm = Some m ->
  is_digits (group norm m 1) = true /\
  (k = "Customer Retention %" ->
   (String.length (group norm m 1) <= 3)%nat).
Proof.
  intros Hr Hm.
  apply search_Some in Hm as (pre & post & Htext & _ & Hm & _).
  unfold stat_patterns in Hr. rewrite !elem_of_cons, elem_of_nil in Hr.
  destruct Hr as [[= -> ->]|[[= -> ->]|[[= -> ->]|[[= -> ->]|[]]]]].
  - destruct (group_digits TOTAL_RE norm m 1 pre post true 1 None Htext Hm)
      as (Hd & _ & _); [reflexivity|reflexivity|lia|].
    split; [exact Hd|discriminate].
  - destruct (group_digits RETENTION_RE norm m 1 pre post true 1 (Some 3%nat)
                Htext Hm) as (Hd & _ & Hhi); [reflexivity|reflexivity|lia|].
    split; [exact Hd|]. intros _. exact Hhi.
  - destruct (group_digits (SIZES_RE "Largest") norm m 1 pre post true 1 None
                Htext Hm) as (Hd & _ & _); [reflexivity|reflexivity|lia|].
    split; [exact Hd|discriminate].
  - destruct (group_digits (SIZES_RE "Average") norm m 1 pre post true 1 None
                Htext Hm) as (Hd & _ & _); [reflexivity|reflexivity|lia|].
    split; [exact Hd|discriminate].
Qed.

Lemma findall2_elem (r : regex) (text : string) (p : string * string) :
  p ∈ findall2 r text ->
  exists m pre post,
    chars text = (pre ++ post)%list /\
    matches r (position pre post) (mt_end m) /\
    p = (group text m 1, group text m 2).
Proof.
  intros Hp.
  change (findall2 r text)
    with (map (fun m => (group text m 1, group text m 2)) (finditer r text))
    in Hp.
  apply list_elem_of_fmap in Hp as (m & -> & Hm).
  apply finditer_matches in Hm as (pre & post & Htext & Hm).
  exists m, pre, post. done.
Qed.


Lemma sorted_labels_elem (w : string) :
  w ∈ sorted_desc (fun x => Z.of_nat (String.length x)) ALLOWED_INDUSTRIES ->
  w ∈ ALLOWED_INDUSTRIES.
Proof. by rewrite (proj1 (sorted_desc_spec _ _)). Qed.

Lemma industry_pairs_digits (block : string) :
  Forall (fun p => is_digits (fst p) = true /\
                   (String.length (fst p) <= 6)%nat /\
                   snd p ∈ ALLOWED_INDUSTRIES)
    (findall2 INDUSTRY_RE block).
Proof.
  apply Forall_forall. intros p Hp.
  apply findall2_elem in Hp as (m & pre & post & Htext & Hm & ->).
  cbn [fst snd].
  destruct (group_digits INDUSTRY_RE block m 1 pre post true 1 (Some 6%nat)
              Htext Hm) as (Hd & _ & Hhi);
    [reflexivity|vm_compute; reflexivity|lia|].
  split; [exact Hd|]. split; [exact Hhi|].
  apply sorted_labels_elem.
  apply (group_literal INDUSTRY_RE block m 2 pre post _ Htext Hm);
    [reflexivity|vm_compute; reflexivity|].
  apply Forall_forall. intros w Hw%sorted_labels_elem. revert w Hw.
  apply Forall_forall. compute_done.
Qed.

Lemma industries_found_digits (norm : string) :
  Forall (fun p => is_digits (fst p) = true /\
                   (String.length (fst p) <= 6)%nat /\
                   snd p ∈ ALLOWED_INDUSTRIES)
    (industries_found norm).
Proof.
  unfold industries_found. destruct (search TOTAL_RE norm); [|constructor].
  apply industry_pairs_digits.
Qed.


Lemma int_digits_upto (s : string) (n : nat) :
  is_digits s = true -> (String.length s <= n)%nat ->
  0 <= int s < 10 ^ Z.of_nat n.
Proof.
  intros Hd Hlen. pose proof (int_digits_bounds s Hd) as [H0 Hlt].
  split; [exact H0|]. eapply Z.lt_le_trans; [exact Hlt|].
  apply Z.pow_le_mono_r; lia.
Qed.

Lemma set_int_if_cases (r : regex) (key norm : string)
    (e : gmap string cell) (k : string) :
  set_int_if r key norm e !! k = e !! k \/
  key = k /\ exists m, search r norm = Some m /\
    set_int_if r key norm e !! k = Some (CInt (int (group norm m 1))).
Proof.
  unfold set_int_if. destruct (search r norm) as [m|]; [|by left].
  destruct (decide (key = k)) as [->|Hne].
  - right. split; [reflexivity|]. exists m. by rewrite lookup_insert_eq.
  - left. by rewrite lookup_insert_ne.
Qed.

Lemma stat_value_captured (norm : string) (r : regex) (k : string)
    (m : rematch) :
  (r, k) ∈ stat_patterns -> search r norm = Some m ->
  stat_value k (CInt (int (group norm m 1))).
Proof.
  intros Hr Hm. destruct (stat_group_digits norm r k m Hr Hm) as [Hd Hk].
  right. eexists. split; [reflexivity|].
  split; [by apply int_digits_bounds|].
  intros Hret. pose proof (int_digits_upto _ 3 Hd (Hk Hret)). lia.
Qed.

Lemma stats_extras_value (norm k : string) :
  k ∈ optional_cols ->
  exists c, stats_extras norm !! k = Some c /\ stat_value k c.
Proof.
  intros Hk.
  assert (Hbase : match findall2 CERT_RE norm with
                  | [] => default_extras
                  | _ =>
                      <["Certified Versions" :=
                          CStr (certified_versions (findall2 CERT_RE norm))]>
                        default_extras
                  end !! k = Some CNone).
  { assert (Hdef : default_extras !! k = Some CNone /\
                   "Certified Versions" <> k).
    { revert k Hk. apply Forall_forall. compute_done. }
    destruct Hdef as [Hdef Hne]. destruct (findall2 CERT_RE norm).
    - exact Hdef.
    - by rewrite lookup_insert_ne. }
  unfold stats_extras.
  destruct (set_int_if_cases (SIZES_RE "Average") "Average Reference Users"
              norm
              (set_int_if (SIZES_RE "Largest") "Largest Reference Users" norm
                 (set_int_if RETENTION_RE "Customer Retention %" norm
                    (set_int_if TOTAL_RE "References Total" norm
                       (match findall2 CERT_RE norm with
                        | [] => default_extras
                        | _ =>
                            <["Certified Versions" :=
                                CStr (certified_versions
                                        (findall2 CERT_RE norm))]>
                              default_extras
                        end)))) k) as [->|(<- & m & Hm & ->)];
    [|eexists; split; [reflexivity|];
      apply (stat_value_captured norm (SIZES_RE "Average")); [|exact Hm];
      unfold stat_patterns; rewrite !elem_of_cons; tauto].
  destruct (set_int_if_cases (SIZES_RE "Largest") "Largest Reference Users"
              norm
              (set_int_if RETENTION_RE "Customer Retention %" norm
                 (set_int_if TOTAL_RE "References Total" norm
                    (match findall2 CERT_RE norm with
                     | [] => default_extras
                     | _ =>
                         <["Certified Versions" :=
                             CStr (certified_versions
                                     (findall2 CERT_RE norm))]>
                           default_extras
                     end))) k) as [->|(<- & m & Hm & ->)];
    [|eexists; split; [reflexivity|];
      apply (stat_value_captured norm (SIZES_RE "Largest")); [|exact Hm];
      unfold stat_patterns; rewrite !elem_of_cons; tauto].
  destruct (set_int_if_cases RETENTION_RE "Customer Retention %" norm
              (set_int_if TOTAL_RE "References Total" norm
                 (match findall2 CERT_RE norm with
                  | [] => default_extras
                  | _ =>
                      <["Certified Versions" :=
                          CStr (certified_versions (findall2 CERT_RE norm))]>
                        default_extras
                  end)) k) as [->|(<- & m & Hm & ->)];
    [|eexists; split; [reflexivity|];
      apply (stat_value_captured norm RETENTION_RE); [|exact Hm];
      unfold stat_patterns; rewrite !elem_of_cons; tauto].
  destruct (set_int_if_cases TOTAL_RE "References Total" norm
              (match findall2 CERT_RE norm with
               | [] => default_extras
               | _ =>
                   <["Certified Versions" :=
                       CStr (certified_versions (findall2 CERT_RE norm))]>
                     default_extras
               end) k) as [->|(<- & m & Hm & ->)];
    [|eexists; split; [reflexivity|];
      apply (stat_value_captured norm TOTAL_RE); [|exact Hm];
      unfold stat_patterns; rewrite !elem_of_cons; tauto].
  exists CNone. split; [exact Hbase|]. by left.
Qed.

Lemma counts_of_range (lab : string) (found : list (string * string)) :
  Forall (fun p => is_digits (fst p) = true /\
                   (String.length (fst p) <= 6)%nat /\
                   snd p ∈ ALLOWED_INDUSTRIES) found ->
  Forall (fun c => 0 <= c <= 999999) (counts_of lab found).
Proof.
  intros Hall. unfold counts_of. apply Forall_forall. intros c Hc.
  apply list_elem_of_fmap in Hc as (p & -> & Hp).
  apply list_elem_of_filter in Hp as [_ Hp].
  apply (proj1 (Forall_forall _ _) Hall) in Hp as (Hd & Hlen & _).
  pose proof (int_digits_upto _ 6 Hd Hlen). lia.
Qed.

Lemma max_count_range (lab : string) (found : list (string * string)) :
  Forall (fun p => is_digits (fst p) = true /\
                   (String.length (fst p) <= 6)%nat /\
                   snd p ∈ ALLOWED_INDUSTRIES) found ->
  0 <= max_count lab found <= 999999.
Proof.
  intros Hall. pose proof (counts_of_range lab found Hall) as Hc.
  unfold max_count. destruct (counts_of lab found) as [|c cs]; [lia|].
  destruct (fold_max_is_max cs c) as [Hin _].
  by apply (proj1 (Forall_forall _ _) Hc).
Qed.

Lemma extract_extras_range (norm : string) :
  Forall (fun k => exists c, extract_extras norm !! k = Some c /\
                             stat_value k c) optional_cols /\
  Forall (fun col => exists n, extract_extras norm !! col = Some (CInt n) /\
                               0 <= n <= 999999) ALLOWED_RI_COLS.
Proof.
  split; apply Forall_forall.
  - intros k Hk. rewrite extract_extras_stat.
    + by apply stats_extras_value.
    + revert Hk. unfold optional_cols. rewrite !elem_of_cons. tauto.
  - intros col Hcol.
    destruct (ri_cols_facts col Hcol) as (_ & _ & _ & lab & Hlab & ->).
    rewrite extract_extras_ri by exact Hlab. eexists. split; [reflexivity|].
    apply max_count_range, industries_found_digits.
Qed.

Lemma default_extras_range :
  Forall (fun k => default_extras !! k = Some CNone) optional_cols /\
  Forall (fun col => default_extras !! col = Some (CInt 0)) ALLOWED_RI_COLS.
Proof. split; compute_done. Qed.

(** Lines 155-264: whatever the site answers, in the extras of a profile
    each optional statistic is [None] or a natural number (at most 999 for
    Customer Retention %), and each of the 22 industry columns is a
    natural number of at most 6 digits. *)
Theorem profile_numbers_range (web : string -> response)
    (profile_url : option string) (sleep_s : Z) (log : list event) :
  let extras := fst (fetch_profile_extras web profile_url sleep_s log) in
  Forall (fun k => exists c, extras !! k = Some c /\ stat_value k c)
    optional_cols /\
  Forall (fun col => exists n, extras !! col = Some (CInt n) /\
                               0 <= n <= 999999) ALLOWED_RI_COLS.
Proof.
  cbv zeta.
  destruct (fetch_profile_extras_cases web profile_url sleep_s log)
    as [->|[norm ->]]; [|apply extract_extras_range].
  destruct default_extras_range as [Hs Hr]. split.
  - eapply Forall_impl; [exact Hs|]. intros k Hk. exists CNone.
    split; [exact Hk|by left].
  - eapply Forall_impl; [exact Hr|]. intros col Hc. exists 0.
    split; [exact Hc|lia].
Qed.



(** ** The table of the scraped rows *)


Section ScrapedTable.

Variable parse_number : string -> option Z.

(** [pd.to_numeric] reads a string of decimal digits as its number. *)
Hypothesis parse_number_digits :
  forall s, is_digits s = true -> parse_number s = Some (int s).

#[local] Abbreviation normalise_row := (normalise_row parse_number).
#[local] Abbreviation clean_and_export := (clean_and_export parse_number).
#[local] Abbreviation to_int := (to_int parse_number).




End ScrapedTable.


(* ===================================================================== *)
(** * Substitution, whitespace and identifiers                            *)
(* ===================================================================== *)

(** ** Substitution of the runs of a class *)

Lemma str_app (a b : list ascii) : str (a ++ b) = str a ++ str b.
Proof.
  induction a as [|c a IH]; [reflexivity|].
  change (str ((c :: a) ++ b)) with (String c (str (a ++ b))).
  by rewrite IH.
Qed.

Lemma run_split (p : ascii -> bool) (l : list ascii) :
  exists seg rest, l = (seg ++ rest)%list /\ forallb p seg = true /\
                   head_clear p rest.
Proof.
  induction l as [|c l (seg & rest & -> & Hseg & Hrest)].
  - by exists [], [].
  - destruct (p c) eqn:Hc.
    + exists (c :: seg), rest. cbn. by rewrite Hc, Hseg.
    + exists [], (c :: seg ++ rest)%list. done.
Qed.

Lemma collapse_go_clear (p : ascii -> bool) (repl : list ascii) (b : bool)
    (l : list ascii) :
  head_clear p l -> collapse_go p repl b l = collapse_go p repl false l.
Proof. destruct l as [|c l]; [done|]. cbn. by intros ->. Qed.

Lemma collapse_go_run (p : ascii -> bool) (repl : list ascii)
    (seg rest : list ascii) :
  forallb p seg = true -> head_clear p rest ->
  collapse_go p repl true (seg ++ rest) = collapse_go p repl false rest.
Proof.
  intros Hseg Hrest. induction seg as [|c seg IH].
  - by apply collapse_go_clear.
  - cbn in Hseg. apply andb_true_iff in Hseg as [Hc Hseg].
    cbn. rewrite Hc. by apply IH.
Qed.

(** The greedy repetition of a class takes the whole seg. *)
Lemma rep_cls_run {A : Type} (p : ascii -> bool) (f : mstate -> A)
    (seg rest : list ascii) :
  forallb p seg = true -> head_clear p rest ->
  forall (fuel c pos : nat) (prev : option ascii)
         (caps : list (nat * (nat * nat))),
    (length (seg ++ rest) <= fuel)%nat ->
    rep_loop (rmatch (Cls p)) true 1 None (fun e => Some (f e)) fuel c
      (MState pos prev (seg ++ rest) caps)
    = if (1 <=? c + length seg)%nat
      then Some (f (MState (pos + length seg)
                      (from_option Some prev (last seg)) rest caps))
      else None.
Proof.
  intros Hseg Hrest. induction seg as [|a seg IH];
    intros fuel c pos prev caps Hfuel; rewrite rep_loop_eq.
  - assert (Hmore : rep_more (rmatch (Cls p)) true 1 None
                      (fun e => Some (f e)) fuel c (MState pos prev rest caps)
                    = None).
    { destruct fuel as [|fuel]; [reflexivity|]. cbn [rep_more may_iterate].
      cbn [rmatch m_rest]. destruct rest as [|x rest]; [reflexivity|].
      cbn in Hrest. by rewrite Hrest. }
    cbn [app]. rewrite Hmore. unfold rep_stop.
    cbn [length last from_option]. by rewrite !Nat.add_0_r.
  - cbn in Hseg. apply andb_true_iff in Hseg as [Ha Hseg].
    destruct fuel as [|fuel]; [cbn in Hfuel; lia|].
    cbn [rep_more may_iterate app]. cbn [rmatch m_rest]. rewrite Ha.
    cbn [m_pos]. rewrite (proj2 (Nat.ltb_lt pos (S pos))) by lia.
    rewrite (IH Hseg) by (cbn in Hfuel; lia).
    cbn [length].
    replace (c + S (length seg))%nat with (S c + length seg)%nat by lia.
    replace (pos + S (length seg))%nat with (S pos + length seg)%nat by lia.
    assert (Hlast : from_option Some (Some a) (last seg)
                    = from_option Some prev (last (a :: seg))).
    { rewrite last_cons. by destruct (last seg). }
    rewrite Hlast.
    destruct (1 <=? S c + length seg)%nat eqn:Hle; [reflexivity|].
    apply Nat.leb_gt in Hle. lia.
Qed.

Lemma match_at_run (p : ascii -> bool) (seg rest : list ascii) (pos : nat)
    (prev : option ascii) :
  forallb p seg = true -> head_clear p rest ->
  match_at (plus (Cls p)) pos prev (seg ++ rest)
  = match seg with
    | [] => None
    | _ => Some (ReMatch pos (MState (pos + length seg)
                                (from_option Some prev (last seg)) rest []))
    end.
Proof.
  intros Hseg Hrest. unfold match_at, plus. cbn [rmatch m_rest].
  rewrite (rep_cls_run p (ReMatch pos) seg rest Hseg Hrest) by reflexivity.
  by destruct seg.
Qed.

(** [re.sub] of the runs of a class, from a position of the text: [mid] is
    what was read since the last match. *)
Lemma sub_go_collapse (p : ascii -> bool) (repl text : string) (n : nat) :
  forall (rest mid pre : list ascii) (prev : option ascii) (fuel : nat),
    (length rest <= n)%nat ->
    chars text = (pre ++ mid ++ rest)%list ->
    forallb (fun c => negb (p c)) mid = true ->
    (length rest < fuel)%nat ->
    sub_go repl text (length pre)
      (scan fuel (plus (Cls p)) (length (pre ++ mid)) prev rest)
    = str (mid ++ collapse p (chars repl) rest).
Proof.
  induction n as [|n IH]; intros rest mid pre prev fuel Hn Htext Hmid Hfuel.
  - destruct rest; [|cbn in Hn; lia].
    destruct fuel as [|fuel]; [lia|]. cbn [scan search_at].
    rewrite (fun pos prev => match_at_run p [] [] pos prev eq_refl I). cbn [sub_go].
    unfold slice. rewrite <- chars_length, Htext, drop_app_length.
    rewrite firstn_all2 by (rewrite !length_app; lia). reflexivity.
  - destruct rest as [|c rest'].
    { apply (IH [] mid pre prev fuel); [cbn; lia|done..]. }
    destruct fuel as [|fuel]; [lia|].
    destruct (p c) eqn:Hc.
    + destruct (run_split p rest') as (seg & rest2 & -> & Hseg & Hrest2).
      assert (Hseg' : forallb p (c :: seg) = true) by (cbn; by rewrite Hc).
      cbn [scan search_at].
      change (c :: seg ++ rest2)%list with ((c :: seg) ++ rest2)%list.
      rewrite (fun pos prev => match_at_run p (c :: seg) rest2 pos prev Hseg' Hrest2).
      cbn [mt_start mt_end m_pos m_prev m_rest].
      rewrite (proj2 (Nat.ltb_lt _ _))
        by (cbn [length]; lia).
      cbn [sub_go start end_ mt_start mt_end m_pos].
      assert (Hslice : slice (length pre) (length (pre ++ mid)) text
                       = str mid).
      { rewrite length_app.
        apply (slice_middle pre mid ((c :: seg) ++ rest2) text Htext). }
      assert (Hend : (length (pre ++ mid) + length (c :: seg))%nat
                     = length (((pre ++ mid) ++ c :: seg)%list))
        by (rewrite !length_app; cbn [length]; lia).
      rewrite Hslice, Hend.
      pose proof (IH rest2 [] ((pre ++ mid) ++ c :: seg)%list
                    (from_option Some prev (last (c :: seg))) fuel) as Hih.
      rewrite app_nil_r in Hih. rewrite Hih.
      * cbn [app]. rewrite !str_app. f_equal.
        unfold collapse. cbn [collapse_go]. rewrite Hc.
        rewrite (collapse_go_run p _ seg rest2 Hseg Hrest2).
        by rewrite str_app, str_chars.
      * cbn [length] in Hn. rewrite length_app in Hn. lia.
      * rewrite Htext. cbn [app]. by rewrite <- !app_assoc.
      * reflexivity.
      * cbn [length] in Hfuel. rewrite length_app in Hfuel. lia.
    + assert (Hscan : scan (S fuel) (plus (Cls p)) (length (pre ++ mid)) prev
                        (c :: rest')
                      = scan (S fuel) (plus (Cls p))
                          (length (pre ++ mid ++ [c])) (Some c) rest').
      { cbn [scan search_at].
        rewrite (fun pos prev => match_at_run p [] (c :: rest') pos prev eq_refl Hc).
        replace (length (pre ++ mid ++ [c])) with (S (length (pre ++ mid)))
          by (rewrite !length_app; cbn [length]; lia).
        reflexivity. }
      rewrite Hscan.
      rewrite (IH rest' (mid ++ [c])%list pre (Some c) (S fuel)).
      * unfold collapse. cbn [collapse_go]. rewrite Hc.
        by rewrite <- app_assoc.
      * cbn in Hn. lia.
      * rewrite Htext. by rewrite <- !app_assoc.
      * rewrite forallb_app, Hmid. cbn. by rewrite Hc.
      * cbn in Hfuel. lia.
Qed.

(** [re.sub(r"[class]+", repl, text)] replaces every maximal seg of the
    class by [repl]. *)
Lemma sub_plus_class (p : ascii -> bool) (repl text : string) :
  sub (plus (Cls p)) repl text = str (collapse p (chars repl) (chars text)).
Proof.
  change (sub (plus (Cls p)) repl text)
    with (sub_go repl text (length (@nil ascii))
            (scan (S (String.length text)) (plus (Cls p))
               (length (@nil ascii ++ [])) None (chars text))).
  rewrite (sub_go_collapse p repl text (length (chars text)) (chars text) []
             [] None (S (String.length text))); try done.
  rewrite chars_length. lia.
Qed.

(** ** Whitespace normalisation *)

















(** ** The shape of a column identifier *)

Lemma collapse_go_forallb (p q : ascii -> bool) (repl : list ascii)
    (b : bool) (l : list ascii) :
  forallb q repl = true -> forallb (fun c => p c || q c) l = true ->
  forallb q (collapse_go p repl b l) = true.
Proof.
  intros Hrepl. revert b. induction l as [|c l IH]; intros b Hl; [reflexivity|].
  cbn in Hl. apply andb_true_iff in Hl as [Hc Hl]. cbn [collapse_go].
  destruct (p c) eqn:Hp.
  - rewrite forallb_app, (IH true Hl). by destruct b; cbn; rewrite ?Hrepl.
  - cbn in Hc. cbn. by rewrite Hc, (IH false Hl).
Qed.

Lemma collapse_go_head (p : ascii -> bool) (repl l : list ascii) :
  head_clear p (collapse_go p repl true l).
Proof.
  induction l as [|c l IH]; [done|]. cbn [collapse_go].
  destruct (p c) eqn:Hp; [exact IH|exact Hp].
Qed.

Lemma no_double_cons (c a : ascii) (l : list ascii) :
  no_double c (a :: l) =
    match l with
    | b :: _ => negb (Ascii.eqb a c && Ascii.eqb b c) && no_double c l
    | [] => true
    end.
Proof. reflexivity. Qed.

Lemma collapse_go_no_double (c : ascii) (b : bool) (l : list ascii) :
  no_double c (collapse_go (Ascii.eqb c) [c] b l) = true.
Proof.
  revert b. induction l as [|a l IH]; intros b; [reflexivity|].
  cbn [collapse_go]. destruct (Ascii.eqb c a) eqn:Ha.
  - destruct b; [apply IH|]. cbn [app]. rewrite no_double_cons.
    pose proof (collapse_go_head (Ascii.eqb c) [c] l) as Hh.
    pose proof (IH true) as Hnd.
    destruct (collapse_go (Ascii.eqb c) [c] true l) as [|d t]; [reflexivity|].
    cbn in Hh. rewrite Hnd, (Ascii.eqb_sym d c), Hh.
    by rewrite andb_false_r.
  - rewrite no_double_cons. pose proof (IH false) as Hnd.
    destruct (collapse_go (Ascii.eqb c) [c] false l) as [|d t]; [reflexivity|].
    by rewrite Hnd, (Ascii.eqb_sym a c), Ha.
Qed.

Lemma no_double_app (c : ascii) (a b : list ascii) :
  no_double c (a ++ b) = true ->
  no_double c a = true /\ no_double c b = true.
Proof.
  induction a as [|x a IH]; [done|]. cbn [app]. rewrite !no_double_cons.
  destruct a as [|y a].
  - cbn [app]. destruct b as [|z b]; [done|].
    intros [_ H]%andb_true_iff. done.
  - cbn [app] in *. intros [Hxy H]%andb_true_iff.
    destruct (IH H) as [Ha Hb]. by rewrite Hxy, Ha.
Qed.

Lemma strip_by_infix (p : ascii -> bool) (l : list ascii) :
  exists pre post, l = (pre ++ strip_by p l ++ post)%list.
Proof.
  unfold strip_by.
  destruct (lstrip_by_suffix p l) as (pre & Hl & _).
  destruct (rstrip_by_prefix p (lstrip_by p l)) as (post & Hr & _).
  exists pre, post. by rewrite <- Hr.
Qed.

Lemma head_clear_head (c : ascii) (l : list ascii) :
  head_clear (in_chars (String c "")) l -> head l <> Some c.
Proof.
  destruct l as [|a l]; [done|]. cbn. rewrite orb_false_r.
  intros Ha [= ->]. by rewrite Ascii.eqb_refl in Ha.
Qed.

Lemma head_rev_last (l : list ascii) : head (rev l) = last l.
Proof. rewrite rev_alt. apply head_reverse. Qed.

Lemma make_safe_ri_column_eq (label : string) :
  make_safe_ri_column label =
    "RI_" ++
    strip_chars "_"
      (sub (plus (chr "_")) "_"
         (sub (plus (Cls (fun c => negb (is_alnum c)))) "_"
            (sub (plus space) " " (strip label)))).
Proof. reflexivity. Qed.

(** Lines 89-93: for every label, the column identifier is "RI_" followed
    by letters, digits and underscores only, with no underscore at either
    end of that part and no two underscores in a row. *)
Theorem make_safe_ri_column_shape (label : string) :
  exists lab,
    make_safe_ri_column label = "RI_" ++ lab /\
    forallb (fun c => is_alnum c || Ascii.eqb c "_") (chars lab) = true /\
    head (chars lab) <> Some "_"%char /\
    last (chars lab) <> Some "_"%char /\
    no_double "_" (chars lab) = true.
Proof.
  rewrite make_safe_ri_column_eq. eexists. split; [reflexivity|].
  unfold chr, space. rewrite !sub_plus_class. unfold strip_chars.
  rewrite !chars_str.
  set (l2 := collapse is_space (chars " ") (chars (strip label))).
  set (l3 := collapse (fun c => negb (is_alnum c)) (chars "_") l2).
  set (l4 := collapse (Ascii.eqb "_") (chars "_") l3).
  assert (H3 : forallb (fun c => is_alnum c || Ascii.eqb c "_") l3 = true).
  { apply collapse_go_forallb; [reflexivity|].
    apply forallb_forall. intros c _. by destruct (is_alnum c). }
  assert (H4 : forallb (fun c => is_alnum c || Ascii.eqb c "_") l4 = true).
  { apply collapse_go_forallb; [reflexivity|].
    rewrite forallb_forall in *. intros c Hc. rewrite (H3 c Hc).
    apply orb_true_r. }
  assert (Hnd : no_double "_" l4 = true) by apply collapse_go_no_double.
  destruct (strip_by_infix (in_chars "_") l4) as (pre & post & Hl4).
  destruct (strip_by_ends (in_chars "_") l4) as [Hh Hl].
  split; [|split; [|split]].
  - rewrite Hl4, !forallb_app in H4.
    by apply andb_true_iff in H4 as [_ [H _]%andb_true_iff].
  - by apply head_clear_head.
  - rewrite <- head_rev_last. by apply head_clear_head.
  - rewrite Hl4 in Hnd. apply no_double_app in Hnd as [_ Hnd].
    by apply no_double_app in Hnd as [Hnd _].
Qed.
